(** * mcp-proxy-studio: the flow supervisor of [backend/app.py]

    A shallow embedding of the dashboard backend: the flow records and their
    store, the create/update handlers, the event broadcaster, and the
    process manager that groups flows per gateway port, writes the gateway
    configuration and (re)spawns the gateway children.

    Python objects become records, [Optional[T]] becomes [option T], the
    insertion-ordered [dict] becomes an association list with the update
    discipline of [dict] (overwrite in place, append when new), a [set] of
    flow ids becomes a [gset string].  Everything the code obtains from the
    operating system (the clock, child processes, sockets, uuids) and from
    [urllib.parse] is read from an environment record; the environment's
    answers may depend on a tick that every such access advances, so two
    accesses are never forced to agree. *)

From Stdlib Require Import ZArith Lia Ascii String.
From stdpp Require Import base gmap strings list pretty.

Set Warnings "-register-all".

Open Scope string_scope.
Open Scope Z_scope.

(** ** Python values *)

(** Truthiness of an [Optional[str]]: [None] and [""] are falsy. *)
Definition truthy (o : option string) : bool :=
  match o with
  | Some s => negb (bool_decide (s = ""))
  | None => false
  end.

(** [a or d] for an [Optional[str]] [a] and a [str] [d]. *)
Definition str_or (a : option string) (d : string) : string :=
  match a with
  | Some s => if bool_decide (s = "") then d else s
  | None => d
  end.

(** [a or b] where both sides are [Optional[str]]. *)
Definition opt_or (a b : option string) : option string :=
  if truthy a then a else b.

(** [l[-n:]] for [n > 0]. *)
Definition last_n {A} (n : nat) (l : list A) : list A :=
  drop (length l - n)%nat l.

(** [s.split(c)] for a one-character separator. *)
Fixpoint split_on (c : ascii) (s : string) : list string :=
  match s with
  | EmptyString => [EmptyString]
  | String a rest =>
      if bool_decide (a = c) then EmptyString :: split_on c rest
      else match split_on c rest with
           | [] => [String a EmptyString]
           | w :: ws => String a w :: ws
           end
  end.

(** JSON-serialisable Python values, as handed to [json.dumps] and to the
    broadcaster. *)
Inductive json : Type :=
| JNull
| JBool (b : bool)
| JNum (n : Z)
| JStr (s : string)
| JList (l : list json)
| JObj (kv : list (string * json)).

Definition jopt_str (o : option string) : json :=
  match o with Some s => JStr s | None => JNull end.

Definition jopt_num (o : option Z) : json :=
  match o with Some n => JNum n | None => JNull end.

(** [v in (None, {}, [])]. *)
Definition is_blank (v : json) : bool :=
  match v with
  | JNull | JObj [] | JList [] => true
  | _ => false
  end.

(** ** Insertion-ordered dictionaries *)

Section pydict.
Context {K V : Type} `{EqDecision K}.

(** [d.get(k)] *)
Fixpoint dict_get (k : K) (d : list (K * V)) : option V :=
  match d with
  | [] => None
  | (k', v) :: d' => if decide (k' = k) then Some v else dict_get k d'
  end.

(** [d[k] = v]: an existing key keeps its position. *)
Fixpoint dict_set (k : K) (v : V) (d : list (K * V)) : list (K * V) :=
  match d with
  | [] => [(k, v)]
  | (k', v') :: d' =>
      if decide (k' = k) then (k, v) :: d' else (k', v') :: dict_set k v d'
  end.

(** [k in d] *)
Definition dict_mem (k : K) (d : list (K * V)) : bool :=
  match dict_get k d with Some _ => true | None => false end.

(** [del d[k]] guarded by [k in d], and [d.pop(k, None)]. *)
Definition dict_del (k : K) (d : list (K * V)) : list (K * V) :=
  filter (λ kv, kv.1 ≠ k) d.
End pydict.

(** [{k: v for k, v in entry.items() if v not in (None, {}, [])}] *)
Definition strip_blank (entry : list (string * json)) : list (string * json) :=
  filter (λ kv, is_blank kv.2 = false) entry.

(** [d.get(k)] on a JSON object. *)
Definition jget (k : string) (v : json) : option json :=
  match v with
  | JObj kv => dict_get k kv
  | _ => None
  end.

(** ** Data model *)

Definition timestamp := Z.

Inductive Transport := SSE | STREAMABLE_HTTP.

Inductive EndpointType := EP_STDIO | EP_SSE | EP_STREAMABLE_HTTP | EP_OPENAPI.

#[global] Instance Transport_eq_dec : EqDecision Transport.
Proof. solve_decision. Defined.

#[global] Instance EndpointType_eq_dec : EqDecision EndpointType.
Proof. solve_decision. Defined.

Record Header := { key : string; value : string }.

Record PreviousConfig := {
  prev_sse_url : option string;
  prev_transport : option Transport;
  prev_command : option string;
  prev_server_transport : option Transport;
}.

(** [PreviousConfig()] *)
Definition PreviousConfig_default : PreviousConfig :=
  {| prev_sse_url := None; prev_transport := None;
     prev_command := None; prev_server_transport := None |}.

Record FlowBase := {
  name : string;
  route : option string;
  description : option string;
  source_type : EndpointType;
  target_type : EndpointType;
  sse_url : option string;
  openapi_base_url : option string;
  openapi_spec_url : option string;
  transport : Transport;
  server_transport : Transport;
  stateless : bool;
  auto_start : bool;
  command : option string;
  args : list string;
  env : list (string * string);
  headers : list Header;
  allow_origins : list string;
}.

(** [class Flow(FlowBase)] *)
Record Flow := {
  base : FlowBase;
  id : string;
  created_at : timestamp;
  updated_at : timestamp;
  previous : PreviousConfig;
}.

(** [class FlowCreate(FlowBase)] *)
Record FlowCreate := {
  fc_base : FlowBase;
  fc_id : option string;
}.

(** [class FlowUpdate(FlowBase)] *)
Record FlowUpdate := {
  fu_base : FlowBase;
  fu_previous : option PreviousConfig;
}.

(** [class FlowResponse(Flow)] *)
Record FlowResponse := {
  resp_flow : Flow;
  resp_state : json;
  resp_logs : list string;
  resp_last_event : option timestamp;
}.

(** ** Settings ([settings_store.py]) *)

Record Settings := {
  host : string;
  sse_port : Z;
  stream_port : Z;
  openapi_port : Z;
  inspector_public_host : string;
}.

(** [Settings()] *)
Definition Settings_default : Settings :=
  {| host := "0.0.0.0"; sse_port := 8002; stream_port := 8001;
     openapi_port := 8003; inspector_public_host := "0.0.0.0" |}.

(** [SettingsStore.get]: the file content is ignored. *)
Definition settings_store_get : Settings := Settings_default.

(** ** Process records and the broadcaster *)

(** An [asyncio.subprocess.Process] as the manager sees it. *)
Record Process := {
  pid : Z;
  returncode : option Z;
}.

(** [ProcessInfo].  [flow_ids] is [list(ids)] of a set of strings, whose
    order Python leaves unspecified; it is only tested for membership and
    iterated to stop helpers, so the set itself is kept. *)
Record ProcessInfo := {
  label : string;
  flow_ids : gset string;
  process : Process;
  started_at : timestamp;
  pi_command : list string;
  port : option Z;
  mode : string;
  logs : list string;
  last_event : option timestamp;
  exit_code : option Z;
}.

(** An [asyncio.Queue]. *)
Record Queue := {
  maxsize : nat;
  items : list json;
}.

(** [EventBroadcaster]: queues are objects shared with the consumers, so
    they live in a heap ([queues], the object identity is the index) and
    the registry [listeners] holds references. *)
Record EventBroadcaster := {
  queues : list Queue;
  listeners : list nat;
}.

Inductive LogLevel := INFO | WARNING.

(** A [logging] record: level, format string and arguments. *)
Record LogRecord := {
  levelname : LogLevel;
  msg : string;
  log_args : list string;
}.

(** ** The environment *)

(** The six components of [urllib.parse.urlparse]'s result. *)
Record ParseResult := {
  scheme : string;
  netloc : string;
  path : string;
  params : string;
  query : string;
  fragment : string;
}.

(** [parsed._replace(netloc=n)] *)
Definition replace_netloc (n : string) (p : ParseResult) : ParseResult :=
  {| scheme := scheme p; netloc := n; path := path p;
     params := params p; query := query p; fragment := fragment p |}.

(** The [port] property of a parse result: absent, a number, or a
    [ValueError] (not decimal, or out of range). *)
Inductive PortAttr := PortNone | PortNum (n : Z) | PortError.

(** What the module reads from outside itself.  The first group are the
    module constants taken from the process environment, the second is
    [urllib.parse], the third the operating system; each answer of the
    third group is indexed by the tick at which it is asked. *)
Record Env := {
  RUNTIME_DIR : string;
  PROXY_BINARY : string;
  (** [shlex.split(OPENAPI_BIN)] *)
  OPENAPI_BIN_argv : list string;

  (** [urlparse(url)]; [None] is its [ValueError] *)
  urlparse : string → option ParseResult;
  urlunparse : ParseResult → string;
  hostname : ParseResult → option string;
  port_attr : ParseResult → PortAttr;

  (** [time.time()] *)
  time_time : nat → timestamp;
  (** [str(uuid.uuid4())] *)
  uuid4 : nat → string;
  (** [asyncio.create_subprocess_exec] on the argv: the child's pid, or [None]
      for [FileNotFoundError] *)
  create_subprocess_exec : nat → list string → option Z;
  (** whether the polling loop of [_wait_port] sees the port open before
      its deadline *)
  port_opens : nat → Z → bool;
  (** whether the polling loop of [_wait_upstream_ready] gets an answer
      other than 404 before its deadline *)
  upstream_answers : nat → string → bool;
  (** the port the kernel hands out in [_find_free_port] *)
  free_port : nat → Z;
  (** the return code observed once a signalled child has been waited for *)
  exit_status : nat → Z → Z;
}.

(** ** The state of the service *)

Record World := {
  (** content of [flows.json] *)
  store : list Flow;
  (** [manager.processes] *)
  processes : list (Z * ProcessInfo);
  (** [manager.active_ports] *)
  active_ports : list (Z * gset string);
  (** [manager.openapi_helpers] *)
  openapi_helpers : list (string * ProcessInfo);
  broadcaster : EventBroadcaster;
  (** the files of the runtime directory: path and the value dumped *)
  files : list (string * json);
  (** records emitted through [logger] *)
  log : list LogRecord;
  (** history of the payloads passed to [broadcast], oldest first *)
  events : list json;
  tick : nat;
}.

Definition set_store (x : list Flow) (w : World) : World :=
  {| store := x; processes := processes w; active_ports := active_ports w;
     openapi_helpers := openapi_helpers w; broadcaster := broadcaster w;
     files := files w; log := log w; events := events w; tick := tick w |}.

Definition set_processes (x : list (Z * ProcessInfo)) (w : World) : World :=
  {| store := store w; processes := x; active_ports := active_ports w;
     openapi_helpers := openapi_helpers w; broadcaster := broadcaster w;
     files := files w; log := log w; events := events w; tick := tick w |}.

Definition set_active_ports (x : list (Z * gset string)) (w : World) : World :=
  {| store := store w; processes := processes w; active_ports := x;
     openapi_helpers := openapi_helpers w; broadcaster := broadcaster w;
     files := files w; log := log w; events := events w; tick := tick w |}.

Definition set_openapi_helpers (x : list (string * ProcessInfo)) (w : World) : World :=
  {| store := store w; processes := processes w; active_ports := active_ports w;
     openapi_helpers := x; broadcaster := broadcaster w;
     files := files w; log := log w; events := events w; tick := tick w |}.

Definition set_broadcaster (x : EventBroadcaster) (w : World) : World :=
  {| store := store w; processes := processes w; active_ports := active_ports w;
     openapi_helpers := openapi_helpers w; broadcaster := x;
     files := files w; log := log w; events := events w; tick := tick w |}.

Definition set_files (x : list (string * json)) (w : World) : World :=
  {| store := store w; processes := processes w; active_ports := active_ports w;
     openapi_helpers := openapi_helpers w; broadcaster := broadcaster w;
     files := x; log := log w; events := events w; tick := tick w |}.

Definition set_log (x : list LogRecord) (w : World) : World :=
  {| store := store w; processes := processes w; active_ports := active_ports w;
     openapi_helpers := openapi_helpers w; broadcaster := broadcaster w;
     files := files w; log := x; events := events w; tick := tick w |}.

Definition set_events (x : list json) (w : World) : World :=
  {| store := store w; processes := processes w; active_ports := active_ports w;
     openapi_helpers := openapi_helpers w; broadcaster := broadcaster w;
     files := files w; log := log w; events := x; tick := tick w |}.

Definition set_tick (x : nat) (w : World) : World :=
  {| store := store w; processes := processes w; active_ports := active_ports w;
     openapi_helpers := openapi_helpers w; broadcaster := broadcaster w;
     files := files w; log := log w; events := events w; tick := x |}.

(** The service right after import: an empty store file, no child. *)
Definition World_init : World :=
  {| store := []; processes := []; active_ports := []; openapi_helpers := [];
     broadcaster := {| queues := []; listeners := [] |};
     files := []; log := []; events := []; tick := 0%nat |}.

(** ** Exceptions and the state monad *)

Inductive exn :=
| HTTPException (status_code : Z) (detail : string)
| ValueError
| UnboundLocalError (var : string)
(** not a Python exception: the recursion budget of the model ran out *)
| OutOfFuel.

Inductive result (A : Type) :=
| Ok (a : A)
| Raise (e : exn).
Arguments Ok {A} a.
Arguments Raise {A} e.

(** A computation returns or raises, and in both cases leaves the state it
    reached: Python does not undo assignments when an exception unwinds. *)
Definition M (A : Type) : Type := World → result A * World.

Definition ret {A} (a : A) : M A := λ w, (Ok a, w).

Definition raise {A} (e : exn) : M A := λ w, (Raise e, w).

Definition bind {A B} (m : M A) (k : A → M B) : M B :=
  λ w, match m w with
       | (Ok a, w') => k a w'
       | (Raise e, w') => (Raise e, w')
       end.

Notation "'let*' x := c1 'in' c2" := (bind c1 (λ x, c2))
  (at level 10, x pattern, c1 at level 100, c2 at level 200).
Notation "c1 ;; c2" := (bind c1 (λ _, c2))
  (at level 100, c2 at level 200, right associativity).

Definition gets {A} (f : World → A) : M A := λ w, (Ok (f w), w).

Definition modify (f : World → World) : M unit := λ w, (Ok tt, f w).

(** Ask the outside world: read the tick and advance it. *)
Definition ask {A} (f : nat → A) : M A :=
  λ w, (Ok (f (tick w)), set_tick (S (tick w)) w).

(** [for x in xs: body(x)], the loop variables threaded as [acc]. *)
Fixpoint for_each {A S} (body : A → S → M S) (xs : list A) (acc : S) : M S :=
  match xs with
  | [] => ret acc
  | x :: xs' => let* acc' := body x acc in for_each body xs' acc'
  end.

Definition logger_info (fmt : string) (a : list string) : M unit :=
  modify (λ w, set_log (log w ++ [{| levelname := INFO; msg := fmt; log_args := a |}]) w).

Definition logger_warning (fmt : string) (a : list string) : M unit :=
  modify (λ w, set_log (log w ++ [{| levelname := WARNING; msg := fmt; log_args := a |}]) w).

(** ** FlowStore *)

Definition store_list : M (list Flow) := gets store.

Definition store_get (flow_id : string) : M Flow :=
  let* flows := store_list in
  match List.find (λ f, bool_decide (id f = flow_id)) flows with
  | Some f => ret f
  | None => raise (HTTPException 404 "Flux introuvable")
  end.

(** The loop of [upsert]: overwrite the first record with the same id, or
    append. *)
Fixpoint upsert_list (flow : Flow) (flows : list Flow) : list Flow :=
  match flows with
  | [] => [flow]
  | existing :: rest =>
      if bool_decide (id existing = id flow) then flow :: rest
      else existing :: upsert_list flow rest
  end.

Definition store_upsert (flow : Flow) : M unit :=
  modify (λ w, set_store (upsert_list flow (store w)) w).

Definition store_delete (flow_id : string) : M unit :=
  let* flows := store_list in
  let filtered := List.filter (λ f, negb (bool_decide (id f = flow_id))) flows in
  if bool_decide (length filtered = length flows)
  then raise (HTTPException 404 "Flux introuvable")
  else modify (set_store filtered).

Definition find_by_route_in (route_ : string) (tt_ : option EndpointType)
    (flows : list Flow) : option Flow :=
  List.find (λ f,
    let flow_route := str_or (route (base f)) (name (base f)) in
    bool_decide (flow_route = route_) &&
    match tt_ with
    | None => true
    | Some t => bool_decide (target_type (base f) = t)
    end) flows.

Definition store_find_by_route (route_ : string) (tt_ : option EndpointType)
    : M (option Flow) :=
  let* flows := store_list in
  ret (find_by_route_in route_ tt_ flows).

(** ** EventBroadcaster *)

(** [register]: the new queue's reference and the registry. *)
Definition register (b : EventBroadcaster) : nat * EventBroadcaster :=
  let q := length (queues b) in
  (q, {| queues := queues b ++ [{| maxsize := 100; items := [] |}];
         listeners := listeners b ++ [q] |}).

(** [list.remove]: drop the first occurrence. *)
Fixpoint remove_first (q : nat) (l : list nat) : list nat :=
  match l with
  | [] => []
  | x :: l' => if bool_decide (x = q) then l' else x :: remove_first q l'
  end.

Definition unregister (q : nat) (b : EventBroadcaster) : EventBroadcaster :=
  if bool_decide (q ∈ listeners b)
  then {| queues := queues b; listeners := remove_first q (listeners b) |}
  else b.

(** [Queue.full] *)
Definition full (q : Queue) : bool :=
  if bool_decide (maxsize q ≤ 0)%nat then false
  else bool_decide (maxsize q ≤ length (items q))%nat.

(** [Queue.put_nowait]; [None] is [QueueFull]. *)
Definition put_nowait (payload : json) (q : Queue) : option Queue :=
  if full q then None
  else Some {| maxsize := maxsize q; items := items q ++ [payload] |}.

(** [Queue.get_nowait] on the consumer's side; [None] on an empty queue,
    where [get] would wait. *)
Definition queue_get (q : Queue) : option (json * Queue) :=
  match items q with
  | [] => None
  | x :: rest => Some (x, {| maxsize := maxsize q; items := rest |})
  end.

(** The loop of [broadcast] over [list(self.listeners)]. *)
Fixpoint broadcast_loop (payload : json) (ls : list nat)
    (qs : list Queue) (alive : list nat) : list Queue * list nat :=
  match ls with
  | [] => (qs, alive)
  | q :: ls' =>
      match qs !! q with
      | Some qu =>
          match put_nowait payload qu with
          | Some qu' => broadcast_loop payload ls' (<[q := qu']> qs) (alive ++ [q])
          | None => broadcast_loop payload ls' qs alive
          end
      | None => broadcast_loop payload ls' qs alive
      end
  end.

Definition broadcast (payload : json) (b : EventBroadcaster) : EventBroadcaster :=
  let '(qs, alive) := broadcast_loop payload (listeners b) (queues b) [] in
  {| queues := qs; listeners := alive |}.

(** The consumer side of [/api/events]: take the next event of queue [q]. *)
Definition consume (q : nat) (b : EventBroadcaster) : option (json * EventBroadcaster) :=
  match queues b !! q with
  | Some qu =>
      match queue_get qu with
      | Some (x, qu') =>
          Some (x, {| queues := <[q := qu']> (queues b); listeners := listeners b |})
      | None => None
      end
  | None => None
  end.

(** [await self.broadcaster.broadcast(payload)] inside the service. *)
Definition do_broadcast (payload : json) : M unit :=
  modify (λ w, set_events (events w ++ [payload])
                 (set_broadcaster (broadcast payload (broadcaster w)) w)).

(** ** Configuration entries *)

(** [{"command": flow.command, "args": flow.args, "env": flow.env}] *)
Definition stdio_entry (b : FlowBase) : list (string * json) :=
  [("command", jopt_str (command b));
   ("args", JList (JStr <$> args b));
   ("env", JObj ((λ kv, (kv.1, JStr kv.2)) <$> env b))].

(** [[{h.key: h.value} for h in flow.headers] if flow.headers else None] *)
Definition headers_list (hs : list Header) : json :=
  match hs with
  | [] => JNull
  | _ => JList ((λ h, JObj [(key h, JStr (value h))]) <$> hs)
  end.

(** [{h.key: h.value for h in flow.headers} if flow.headers else None] *)
Definition headers_map (hs : list Header) : json :=
  match hs with
  | [] => JNull
  | _ => JObj (foldl (λ d h, dict_set (key h) (JStr (value h)) d) [] hs)
  end.

(** The entry of a remote source on a proxy port. *)
Definition remote_entry (b : FlowBase) (upstream_url : option string)
    : list (string * json) :=
  [("url", jopt_str upstream_url);
   ("headers", headers_list (headers b));
   ("transportType",
     JStr (if bool_decide (source_type b = EP_STREAMABLE_HTTP)
              || bool_decide (source_type b = EP_OPENAPI)
           then "streamable-http" else "sse"))].

(** The entry written last in the loop of the OpenAPI port. *)
Definition openapi_entry (b : FlowBase) (upstream_url : string)
    : list (string * json) :=
  [("type", JStr (if bool_decide (source_type b = EP_STREAMABLE_HTTP)
                  then "streamable-http" else "sse"));
   ("url", JStr upstream_url);
   ("headers", headers_map (headers b))].

(** [while server_key in servers: server_key = f"{base_key}-{i}"; i += 1].
    The candidates are pairwise distinct, so the loop leaves after at most
    [len(servers)] rounds; [fuel] is that bound. *)
Fixpoint fresh_key (fuel : nat) (base_key server_key : string) (i : Z)
    (servers : list (string * json)) : string :=
  if dict_mem server_key servers then
    match fuel with
    | O => server_key
    | S n => fresh_key n base_key (base_key +:+ "-" +:+ pretty i) (i + 1) servers
    end
  else server_key.

Definition server_key_for (b : FlowBase) (servers : list (string * json)) : string :=
  let base_key := str_or (opt_or (route b) (Some (name b))) "default" in
  fresh_key (length servers) base_key base_key 1 servers.

(** [{f.id: f for f in flows if f.id in ids}.values()] *)
Definition flows_on (ids : gset string) (flows : list Flow) : list Flow :=
  (foldl (λ d f, dict_set (id f) f d) []
     (List.filter (λ f, bool_decide (id f ∈ ids)) flows)).*2.

(** The document written for a proxy port. *)
Definition proxy_config (base_url : string) (port_ : Z) (proxy_type : string)
    (servers : list (string * json)) : json :=
  JObj [("mcpProxy",
          JObj [("baseURL", JStr base_url);
                ("addr", JStr (":" +:+ pretty port_));
                ("name", JStr ("mcp-proxy-" +:+ proxy_type));
                ("version", JStr "1.0.0");
                ("type", JStr proxy_type);
                ("options", JObj [("panicIfInvalid", JBool false);
                                  ("logEnabled", JBool true)])]);
        ("mcpServers", JObj servers)].

(** ** ProcessManager *)

Section service.
Context (E : Env).

Definition _is_running (info : ProcessInfo) : bool :=
  bool_decide (returncode (process info) = None).

(** The dictionary returned by [_state] for a running child. *)
Definition state_of (info : ProcessInfo) : json :=
  JObj [("running", JBool true);
        ("pid", JNum (pid (process info)));
        ("started_at", JNum (started_at info));
        ("port", jopt_num (port info));
        ("command", JList (JStr <$> pi_command info));
        ("exit_code", jopt_num (exit_code info));
        ("last_event", jopt_num (last_event info))].

Definition _state (flow_id : string) : M json :=
  let* procs := gets processes in
  ret (match List.find (λ pi, bool_decide (flow_id ∈ flow_ids pi.2)
                              && _is_running pi.2) procs with
       | Some pi => state_of pi.2
       | None => JObj [("running", JBool false)]
       end).

Definition manager_logs (flow_id : string) : M (list string) :=
  let* procs := gets processes in
  ret (match List.find (λ pi, bool_decide (flow_id ∈ flow_ids pi.2)) procs with
       | Some pi => last_n 200 (logs pi.2)
       | None => []
       end).

Definition _port_for_flow (flow : Flow) : M Z :=
  let settings := settings_store_get in
  if bool_decide (target_type (base flow) = EP_OPENAPI)
  then ret (openapi_port settings)
  else if bool_decide (target_type (base flow) = EP_STREAMABLE_HTTP)
  then ret (stream_port settings)
  else ret (sse_port settings).

(** The outcome of the polling loop of [_wait_port]. *)
Definition _wait_port (port_ : Z) : M bool :=
  ask (λ t, port_opens E t port_).

Definition _find_free_port : M Z := ask (free_port E).

(** [parsed.port] *)
Definition get_port (parsed : ParseResult) : M (option Z) :=
  match port_attr E parsed with
  | PortNone => ret None
  | PortNum n => ret (Some n)
  | PortError => raise ValueError
  end.

(** [urlparse(url)] *)
Definition do_urlparse (url : string) : M ParseResult :=
  match urlparse E url with
  | Some p => ret p
  | None => raise ValueError
  end.

(** Truthiness of an [Optional[int]]. *)
Definition port_truthy (p : option Z) : bool :=
  match p with
  | Some n => negb (bool_decide (n = 0))
  | None => false
  end.

Definition _wait_upstream_ready (url : string) : M bool :=
  let* parsed := do_urlparse url in
  if bool_decide (scheme parsed = "") || bool_decide (netloc parsed = "")
  then ret false
  else ask (λ t, upstream_answers E t url).

Definition _stop_openapi_helper (flow_id : string) : M unit :=
  let* helpers := gets openapi_helpers in
  match dict_get flow_id helpers with
  | None => ret tt
  | Some info =>
      (if _is_running info
       then (let* _ := ask (λ t, exit_status E t (pid (process info))) in ret tt)
       else ret tt);;
      logger_info "Stopped OpenAPI helper for flow=%s (pid=%s)"
        [flow_id; pretty (pid (process info))];;
      modify (λ w, set_openapi_helpers (dict_del flow_id (openapi_helpers w)) w)
  end.

Definition _terminate_port (port_ : Z) : M unit :=
  let* procs := gets processes in
  match dict_get port_ procs with
  | Some info =>
      if _is_running info then
        let* rc := ask (λ t, exit_status E t (pid (process info))) in
        logger_info "Port %s terminated code=%s" [pretty port_; pretty rc];;
        for_each (λ fid _, _stop_openapi_helper fid) (elements (flow_ids info)) tt
      else ret tt
  | None => ret tt
  end;;
  modify (λ w, set_processes (dict_del port_ (processes w)) w).

Definition helper_url (port_ : Z) : string :=
  "http://127.0.0.1:" +:+ pretty port_ +:+ "/mcp".

(** A helper is always recorded with its port; for a record without one
    the probe has nothing to connect to and the helper is not reused.
    This is the call on its own: the pump of the helper, which runs while
    the call waits and unregisters a helper that has exited, is the
    separate step [_pipe_logs].  So the record written here has no return
    code, and the properties below say what the call does, not whether the
    helper is alive or registered once the call has waited. *)
Definition _ensure_openapi_helper (flow : Flow) : M string :=
  if negb (truthy (openapi_base_url (base flow)))
     || negb (truthy (openapi_spec_url (base flow)))
  then raise (HTTPException 400
                "Base URL et spec OpenAPI requises pour une source openapi")
  else
    let* helpers := gets openapi_helpers in
    let* reuse :=
      match dict_get (id flow) helpers with
      | Some existing =>
          if _is_running existing then
            match port existing with
            | Some p => let* ready := _wait_port p in
                        ret (if ready then Some p else None)
            | None => ret None
            end
          else ret None
      | None => ret None
      end in
    match reuse with
    | Some p => ret (helper_url p)
    | None =>
        let* port_ := _find_free_port in
        let cmd := ["npx"; "-y"; "@ivotoby/openapi-mcp-server";
                    "--api-base-url"; str_or (openapi_base_url (base flow)) "";
                    "--openapi-spec"; str_or (openapi_spec_url (base flow)) "";
                    "--transport"; "http"; "--port"; pretty port_] in
        let* spawned := ask (λ t, create_subprocess_exec E t cmd) in
        match spawned with
        | None => raise (HTTPException 400 "binaire introuvable : npx")
        | Some pid_ =>
            let* now := ask (time_time E) in
            let info := {| label := "openapi-" +:+ id flow;
                           flow_ids := {[ id flow ]};
                           process := {| pid := pid_; returncode := None |};
                           started_at := now; pi_command := cmd;
                           port := Some port_; mode := "openapi-helper";
                           logs := []; last_event := None; exit_code := None |} in
            modify (λ w, set_openapi_helpers
                           (dict_set (id flow) info (openapi_helpers w)) w);;
            logger_info "Started OpenAPI helper for flow=%s on port=%s"
              [id flow; pretty port_];;
            let* ready := _wait_port port_ in
            if ready then ret (helper_url port_)
            else raise (HTTPException 400
                          "Le serveur OpenAPI MCP n'a pas démarré à temps")
        end
    end.

(** One round of the loop of the OpenAPI port.  The loop variables are
    [servers] and the function-local [upstream_url], which is unbound
    until a remote source has assigned it. *)
Definition openapi_round (settings : Settings) (flow : Flow)
    (acc : list (string * json) * option string)
    : M (list (string * json) * option string) :=
  let '(servers, upstream_var) := acc in
  let server_key := server_key_for (base flow) servers in
  let write_entry (servers : list (string * json)) (upstream_var : option string) :=
    match upstream_var with
    | None => raise (UnboundLocalError "upstream_url")
    | Some upstream_url =>
        ret (dict_set server_key
               (JObj (strip_blank (openapi_entry (base flow) upstream_url)))
               servers,
             upstream_var)
    end in
  if bool_decide (source_type (base flow) = EP_STDIO) then
    write_entry
      (dict_set server_key (JObj (stdio_entry (base flow))) servers)
      upstream_var
  else
    let upstream_url := str_or (sse_url (base flow)) "" in
    let* parsed := do_urlparse upstream_url in
    let upstream_host := default "" (hostname E parsed) in
    let* rewritten :=
      if bool_decide (upstream_host = "0.0.0.0")
         || bool_decide (upstream_host = "localhost")
      then
        let override_host :=
          str_or (Some (inspector_public_host settings)) "host.docker.internal" in
        let* p := get_port parsed in
        let netloc_ := if port_truthy p
                       then override_host +:+ ":" +:+ pretty (default 0 p)
                       else override_host in
        let parsed' := replace_netloc netloc_ parsed in
        ret (parsed', urlunparse E parsed')
      else ret (parsed, upstream_url) in
    let '(parsed, upstream_url) := rewritten in
    let* p := get_port parsed in
    (if port_truthy p then
       let* ok := _wait_port (default 0 p) in
       if ok then ret tt
       else logger_warning "Upstream port %s not ready for OpenAPI flow %s"
              [pretty (default 0 p); id flow]
     else ret tt);;
    let* ready := _wait_upstream_ready upstream_url in
    if ready then write_entry servers (Some upstream_url)
    else
      logger_warning "Upstream endpoint %s not ready for OpenAPI flow %s"
        [upstream_url; id flow];;
      ret (servers, Some upstream_url).

(** One round of the loop of a proxy port. *)
Definition proxy_round (flow : Flow) (servers : list (string * json))
    : M (list (string * json)) :=
  let server_key := server_key_for (base flow) servers in
  if bool_decide (source_type (base flow) = EP_STDIO)
     || bool_decide (target_type (base flow) = EP_STDIO)
  then
    ret (dict_set server_key (JObj (strip_blank (stdio_entry (base flow)))) servers)
  else
    let* upstream_url :=
      if bool_decide (source_type (base flow) = EP_OPENAPI)
      then (let* u := _ensure_openapi_helper flow in ret (Some u))
      else ret (sse_url (base flow)) in
    ret (dict_set server_key
           (JObj (strip_blank (remote_entry (base flow) upstream_url))) servers).

(** The payload of the [flow_started] event. *)
Definition flow_started_event (info : ProcessInfo) (port_ : Z) : json :=
  JObj [("type", JStr "flow_started");
        ("flowId", JStr (label info));
        ("pid", JNum (pid (process info)));
        ("port", JNum port_);
        ("command", JList (JStr <$> pi_command info))].

(** The middle of [_restart_port]: the configuration of the port is built
    from its flows and written, and the command line is chosen.  The result
    is [cmd] and [proxy_type]. *)
Definition build_port_config (port_ : Z) (ids : gset string) (flows : list Flow)
    : M (list string * string) :=
  let settings := settings_store_get in
  if bool_decide (port_ = openapi_port settings) then
    let* acc := for_each (openapi_round settings) flows ([], None) in
    let config := JObj [("mcpServers", JObj acc.1)] in
    let config_path :=
      RUNTIME_DIR E +:+ "/port-" +:+ pretty port_ +:+ "-openapi.config.json" in
    modify (λ w, set_files (dict_set config_path config (files w)) w);;
    let cmd := (OPENAPI_BIN_argv E
                ++ ["--port"; pretty port_; "--config"; config_path;
                    "--hot-reload"])%list in
    logger_info "Restarting OpenAPI port %s with flows=%s cmd=%s config=%s"
      [pretty port_; String.concat "," (elements ids);
       String.concat " " cmd; config_path];;
    ret (cmd, "openapi")
  else
    let proxy_type := if bool_decide (port_ = stream_port settings)
                      then "streamable-http" else "sse" in
    let base_url := "http://" +:+ host settings +:+ ":" +:+ pretty port_ in
    let* servers := for_each proxy_round flows [] in
    let config := proxy_config base_url port_ proxy_type servers in
    let config_path :=
      RUNTIME_DIR E +:+ "/port-" +:+ pretty port_ +:+ ".config.json" in
    modify (λ w, set_files (dict_set config_path config (files w)) w);;
    let cmd := [PROXY_BINARY E; "-config"; config_path] in
    logger_info "Restarting port %s with flows=%s command=%s"
      [pretty port_; String.concat "," (elements ids); String.concat " " cmd];;
    ret (cmd, proxy_type).

(** The [ProcessInfo] recorded for a gateway child. *)
Definition gateway_info (port_ : Z) (ids : gset string) (cmd : list string)
    (proxy_type : string) (pid_ : Z) (now : timestamp) : ProcessInfo :=
  {| label := "port-" +:+ pretty port_;
     flow_ids := ids;
     process := {| pid := pid_; returncode := None |};
     started_at := now; pi_command := cmd;
     port := Some port_; mode := proxy_type;
     logs := []; last_event := None; exit_code := None |}.

(** The end of [_restart_port]: the child is spawned, recorded and
    announced. *)
Definition spawn_gateway (port_ : Z) (ids : gset string) (cmd : list string)
    (proxy_type : string) : M unit :=
  let* spawned := ask (λ t, create_subprocess_exec E t cmd) in
  match spawned with
  | None =>
      raise (HTTPException 400 ("binaire introuvable : " +:+ List.hd "" cmd))
  | Some pid_ =>
      let* now := ask (time_time E) in
      let info := gateway_info port_ ids cmd proxy_type pid_ now in
      modify (λ w, set_processes (dict_set port_ info (processes w)) w);;
      do_broadcast (flow_started_event info port_)
  end.

Definition _restart_port (port_ : Z) : M unit :=
  _terminate_port port_;;
  let* ports := gets active_ports in
  let ids := default ∅ (dict_get port_ ports) in
  let* stored := store_list in
  let flows := flows_on ids stored in
  match flows with
  | [] => logger_info "No flows for port %s, skipping restart" [pretty port_]
  | _ =>
      let* built := build_port_config port_ ids flows in
      spawn_gateway port_ ids built.1 built.2
  end.

Definition _resolve_dependency (flow : Flow) : M (option Flow) :=
  if bool_decide (source_type (base flow) = EP_STDIO) then ret None
  else if negb (truthy (sse_url (base flow))) then ret None
  else
    let settings := settings_store_get in
    let* parsed := do_urlparse (str_or (sse_url (base flow)) "") in
    let host_ := default "" (hostname E parsed) in
    let local_hosts := ["127.0.0.1"; "localhost"; "0.0.0.0"; host settings;
                        str_or (Some (inspector_public_host settings)) ""] in
    if negb (bool_decide (host_ ∈ local_hosts)) then ret None
    else
      let* port_ := get_port parsed in
      let path_parts :=
        List.filter (λ p, negb (bool_decide (p = ""))) (split_on "/" (path parsed)) in
      match port_truthy port_, path_parts with
      | true, route_ :: endpoint :: _ =>
          if bool_decide (default 0 port_ = openapi_port settings) then ret None
          else
            let target := if bool_decide (endpoint = "mcp")
                          then EP_STREAMABLE_HTTP else EP_SSE in
            store_find_by_route route_ (Some target)
      | _, _ => ret None
      end.

Definition _activate_flow (flow : Flow) : M unit :=
  let* port_ := _port_for_flow flow in
  let* ports := gets active_ports in
  let active := default ∅ (dict_get port_ ports) in
  if bool_decide (id flow ∈ active) then ret tt
  else
    modify (λ w, set_active_ports
                   (dict_set port_ ({[ id flow ]} ∪ active) (active_ports w)) w);;
    _restart_port port_.

(** [visited] is only read on the way down, so the callee's additions
    need not be handed back.  Every call that passes the [visited] test
    marks one more flow; [fuel] bounds the depth. *)
Fixpoint _start_with_dependencies (fuel : nat) (flow : Flow)
    (visited : gset string) : M unit :=
  if bool_decide (id flow ∈ visited) then ret tt
  else
    match fuel with
    | O => raise OutOfFuel
    | S fuel' =>
        let visited := {[ id flow ]} ∪ visited in
        let* dependency := _resolve_dependency flow in
        match dependency with
        | Some d => _start_with_dependencies fuel' d visited
        | None => ret tt
        end;;
        _activate_flow flow
    end.

(** [ProcessManager.start].  The chain of dependencies visits the given
    flow and then stored flows, each at most once, so one more than the
    number of stored flows bounds its depth; the store is read here for
    that bound only. *)
Definition start (flow : Flow) : M json :=
  let* stored := store_list in
  _start_with_dependencies (S (length stored)) flow ∅;;
  _state (id flow).

Definition stop (flow_id : string) : M json :=
  let* ports := gets active_ports in
  match List.find (λ pi, bool_decide (flow_id ∈ pi.2)) ports with
  | None => raise (HTTPException 400 "Flux déjà arrêté")
  | Some (port_, _) =>
      let ids := default ∅ (dict_get port_ ports) ∖ {[ flow_id ]} in
      modify (λ w, set_active_ports (dict_set port_ ids (active_ports w)) w);;
      (if bool_decide (ids = ∅) then _terminate_port port_ else _restart_port port_);;
      _stop_openapi_helper flow_id;;
      _state flow_id
  end.

(** ** The log pump *)

Definition log_event (info : ProcessInfo) (text : string) : json :=
  JObj [("type", JStr "log");
        ("flowId", JStr (label info));
        ("line", JStr text);
        ("ts", jopt_num (last_event info))].

Definition flow_exited_event (info : ProcessInfo) (ts : timestamp) : json :=
  JObj [("type", JStr "flow_exited");
        ("flowId", JStr (label info));
        ("code", jopt_num (exit_code info));
        ("ts", JNum ts)].

(** One line read from the child's output, already decoded and stripped. *)
Definition pump_line (text : string) (info : ProcessInfo) : M ProcessInfo :=
  let* now := ask (time_time E) in
  let info := {| label := label info; flow_ids := flow_ids info;
                 process := process info; started_at := started_at info;
                 pi_command := pi_command info; port := port info;
                 mode := mode info;
                 logs := last_n 200 (logs info ++ [text]);
                 last_event := Some now; exit_code := exit_code info |} in
  do_broadcast (log_event info text);;
  ret info.

(** [_pipe_logs] run to the end of the stream: [lines] is what the child
    wrote and [rc] its return code when the stream closed.  The child's
    output is always a pipe, so the early return on a missing stream is
    left out.  The pump works on the [ProcessInfo] object it was started
    with, which [processes] may have dropped meanwhile; the result is that
    object as the pump leaves it.  The copy of the record held in
    [processes] or [openapi_helpers] is not updated with it: the
    properties of the pump speak of the returned object, of the broadcasts
    and of the helpers it unregisters. *)
Definition _pipe_logs (info : ProcessInfo) (lines : list string)
    (rc : option Z) : M ProcessInfo :=
  let* info := for_each pump_line lines info in
  let info := {| label := label info; flow_ids := flow_ids info;
                 process := {| pid := pid (process info); returncode := rc |};
                 started_at := started_at info;
                 pi_command := pi_command info; port := port info;
                 mode := mode info; logs := logs info;
                 last_event := last_event info; exit_code := rc |} in
  logger_info "Flow %s exited code=%s"
    [label info; from_option pretty "None" rc];;
  let* now := ask (time_time E) in
  do_broadcast (flow_exited_event info now);;
  let* flows := store_list in
  for_each (λ fid _,
      match List.find (λ fl, bool_decide (id fl = fid)) flows with
      | Some f => if bool_decide (source_type (base f) = EP_OPENAPI)
                  then _stop_openapi_helper fid else ret tt
      | None => ret tt
      end) (elements (flow_ids info)) tt;;
  ret info.

(** ** HTTP handlers *)

Definition EndpointType_value (t : EndpointType) : string :=
  match t with
  | EP_STDIO => "stdio"
  | EP_SSE => "sse"
  | EP_STREAMABLE_HTTP => "streamable_http"
  | EP_OPENAPI => "openapi"
  end.

(** The [transport] stored with a flow. *)
Definition source_transport (source : EndpointType) : Transport :=
  if bool_decide (source = EP_STREAMABLE_HTTP) || bool_decide (source = EP_OPENAPI)
  then STREAMABLE_HTTP else SSE.

(** The [server_transport] stored with a flow. *)
Definition exposed_transport (source target : EndpointType) : Transport :=
  if bool_decide (target = EP_STREAMABLE_HTTP)
     || (bool_decide (target = EP_STDIO) && bool_decide (source = EP_STREAMABLE_HTTP))
  then STREAMABLE_HTTP else SSE.

Definition with_derived (route_ : option string) (b : FlowBase) : FlowBase :=
  {| name := name b; route := route_; description := description b;
     source_type := source_type b; target_type := target_type b;
     sse_url := sse_url b; openapi_base_url := openapi_base_url b;
     openapi_spec_url := openapi_spec_url b;
     transport := source_transport (source_type b);
     server_transport := exposed_transport (source_type b) (target_type b);
     stateless := stateless b; auto_start := auto_start b;
     command := command b; args := args b; env := env b;
     headers := headers b; allow_origins := allow_origins b |}.

Definition state_last_event (state : json) : option timestamp :=
  match jget "last_event" state with
  | Some (JNum n) => Some n
  | _ => None
  end.

Definition create_flow (flow : FlowCreate) : M FlowResponse :=
  let* flow_id := if truthy (fc_id flow) then ret (str_or (fc_id flow) "")
                  else ask (uuid4 E) in
  let* now := ask (time_time E) in
  let b := fc_base flow in
  if bool_decide (source_type b = EP_OPENAPI)
     && negb (bool_decide (target_type b = EP_STREAMABLE_HTTP))
  then raise (HTTPException 400
                "Une source openapi doit cibler le mode streamable_http")
  else
    let payload := with_derived (opt_or (route b) (Some (name b))) b in
    let new_flow := {| base := payload; id := flow_id; created_at := now;
                       updated_at := now; previous := PreviousConfig_default |} in
    store_upsert new_flow;;
    logger_info "Flow created %s (source=%s target=%s)"
      [flow_id; EndpointType_value (source_type b);
       EndpointType_value (target_type b)];;
    let* state := _state flow_id in
    ret {| resp_flow := new_flow; resp_state := state; resp_logs := [];
           resp_last_event := state_last_event state |}.

(** One key of [data.update({k: v for k, v in incoming.items() if v is not None})]
    for an [Optional] field. *)
Definition merge_opt {A} (incoming existing : option A) : option A :=
  match incoming with
  | Some v => Some v
  | None => existing
  end.

(** [data] after the [update]: the keys of [FlowBase]. *)
Definition merged (incoming existing : FlowBase) : FlowBase :=
  {| name := name incoming;
     route := merge_opt (route incoming) (route existing);
     description := merge_opt (description incoming) (description existing);
     source_type := source_type incoming;
     target_type := target_type incoming;
     sse_url := merge_opt (sse_url incoming) (sse_url existing);
     openapi_base_url :=
       merge_opt (openapi_base_url incoming) (openapi_base_url existing);
     openapi_spec_url :=
       merge_opt (openapi_spec_url incoming) (openapi_spec_url existing);
     transport := transport incoming;
     server_transport := server_transport incoming;
     stateless := stateless incoming;
     auto_start := auto_start incoming;
     command := merge_opt (command incoming) (command existing);
     args := args incoming;
     env := env incoming;
     headers := headers incoming;
     allow_origins := allow_origins incoming |}.

(** The snapshot kept in [previous]. *)
Definition capture_previous (existing : Flow) (payload : FlowBase) : PreviousConfig :=
  let ex := base existing in
  let prev := previous existing in
  let prev :=
    if negb (bool_decide (sse_url ex = sse_url payload))
       || negb (bool_decide (transport ex = transport payload))
    then {| prev_sse_url := sse_url ex; prev_transport := Some (transport ex);
            prev_command := prev_command prev;
            prev_server_transport := prev_server_transport prev |}
    else prev in
  if negb (bool_decide (command ex = command payload))
     || negb (bool_decide (server_transport ex = server_transport payload))
  then {| prev_sse_url := prev_sse_url prev; prev_transport := prev_transport prev;
          prev_command := command ex;
          prev_server_transport := Some (server_transport ex) |}
  else prev.

Definition update_flow (flow_id : string) (payload : FlowUpdate) : M FlowResponse :=
  let* existing := store_get flow_id in
  let data := merged (fu_base payload) (base existing) in
  if bool_decide (source_type data = EP_OPENAPI)
     && negb (bool_decide (target_type data = EP_STREAMABLE_HTTP))
  then raise (HTTPException 400
                "Une source openapi doit cibler le mode streamable_http")
  else
    let route_ := if truthy (route data) then route data else Some (name data) in
    let prev := capture_previous existing (fu_base payload) in
    let route_ := opt_or route_ (Some (name data)) in
    let* now := ask (time_time E) in
    let updated_flow := {| base := with_derived route_ data; id := id existing;
                           created_at := created_at existing;
                           updated_at := now; previous := prev |} in
    store_upsert updated_flow;;
    logger_info "Flow updated %s (source=%s target=%s)"
      [flow_id; EndpointType_value (source_type data);
       EndpointType_value (target_type data)];;
    let* state := _state flow_id in
    let* logs_ := manager_logs flow_id in
    ret {| resp_flow := updated_flow; resp_state := state; resp_logs := logs_;
           resp_last_event := state_last_event state |}.

Definition delete_flow (flow_id : string) : M json :=
  store_delete flow_id;;
  let* ports := gets active_ports in
  match List.find (λ pi, bool_decide (flow_id ∈ pi.2)) ports with
  | Some (p, ids) =>
      let ids := ids ∖ {[ flow_id ]} in
      modify (λ w, set_active_ports (dict_set p ids (active_ports w)) w);;
      if bool_decide (ids = ∅) then _terminate_port p else _restart_port p
  | None => ret tt
  end;;
  _stop_openapi_helper flow_id;;
  modify (λ w, set_files
                 (dict_del (RUNTIME_DIR E +:+ "/" +:+ flow_id +:+ ".config.json")
                    (files w)) w);;
  logger_info "Flow deleted %s" [flow_id];;
  ret (JObj [("status", JStr "deleted")]).

Definition start_flow (flow_id : string) : M json :=
  let* flow := store_get flow_id in
  start flow.

Definition stop_flow (flow_id : string) : M json := stop flow_id.

(** The four checks at the head of [_build_command], in their order. *)
Definition build_command_check (b : FlowBase) : option exn :=
  if bool_decide (target_type b = EP_STDIO) && negb (truthy (command b))
  then Some (HTTPException 400 "Commande requise pour une cible stdio")
  else if bool_decide (source_type b = EP_OPENAPI)
          && (negb (truthy (openapi_base_url b)) || negb (truthy (openapi_spec_url b)))
  then Some (HTTPException 400 "Base URL et spec OpenAPI requises")
  else if negb (bool_decide (source_type b = EP_OPENAPI))
          && negb (bool_decide (source_type b = EP_STDIO))
          && negb (truthy (sse_url b))
  then Some (HTTPException 400 "URL requise pour une source distante")
  else if bool_decide (source_type b = EP_STDIO) && negb (truthy (command b))
  then Some (HTTPException 400 "Commande requise pour une source stdio")
  else None.

(** The per-flow configuration of [test]. *)
Definition _build_command (flow : Flow) : M (list string * Z) :=
  let settings := settings_store_get in
  let b := base flow in
  let chosen_port := if bool_decide (target_type b = EP_STREAMABLE_HTTP)
                     then stream_port settings else sse_port settings in
  let base_url := "http://" +:+ host settings +:+ ":" +:+ pretty chosen_port in
  match build_command_check b with
  | Some e => raise e
  | None =>
      let proxy_type :=
        if bool_decide (target_type b = EP_STDIO)
        then (if bool_decide (source_type b = EP_STREAMABLE_HTTP)
              then "streamable-http" else "sse")
        else (if bool_decide (target_type b = EP_STREAMABLE_HTTP)
              then "streamable-http" else "sse") in
      let server_key := str_or (opt_or (route b) (Some (name b))) "default" in
      let* server_entry :=
        if bool_decide (target_type b = EP_STDIO)
           || bool_decide (source_type b = EP_STDIO)
        then ret (stdio_entry b)
        else
          let* upstream_url :=
            if bool_decide (source_type b = EP_OPENAPI)
            then (let* u := _ensure_openapi_helper flow in ret (Some u))
            else ret (sse_url b) in
          ret (remote_entry b upstream_url) in
      let config :=
        JObj [("mcpProxy",
                JObj [("baseURL", JStr base_url);
                      ("addr", JStr (":" +:+ pretty chosen_port));
                      ("name", JStr (name b));
                      ("version", JStr "1.0.0");
                      ("type", JStr proxy_type);
                      ("options", JObj [("panicIfInvalid", JBool false);
                                        ("logEnabled", JBool true)])]);
              ("mcpServers", JObj [(server_key, JObj (strip_blank server_entry))])] in
      let config_path := RUNTIME_DIR E +:+ "/" +:+ id flow +:+ ".config.json" in
      modify (λ w, set_files (dict_set config_path config (files w)) w);;
      logger_info "Built config for flows=%s proxy=%s port=%s config=%s"
        [server_key; proxy_type; pretty chosen_port; config_path];;
      ret ([PROXY_BINARY E; "-config"; config_path], chosen_port)
  end.

(** [ProcessManager.test] *)
Definition manager_test (flow : Flow) : M json :=
  let* built := _build_command flow in
  logger_info "Test flow %s command preview: %s (port %s)"
    [id flow; String.concat " " built.1; pretty built.2];;
  let* check := ask (λ t, create_subprocess_exec E t [PROXY_BINARY E; "--version"]) in
  match check with
  | None => raise (HTTPException 400 ("binaire introuvable : " +:+ PROXY_BINARY E))
  | Some _ =>
      ret (JObj [("ok", JBool true);
                 ("command", JList (JStr <$> built.1));
                 ("port", JNum built.2)])
  end.

Definition test_flow (flow_id : string) : M json :=
  let* flow := store_get flow_id in
  manager_test flow.
End service.

(** ** The statements of the specification *)

(** The write-time invariants 1 to 5 of the data model, as the
    specification words them (the sixth fixes the derived transports). *)
Definition write_invariants (b : FlowBase) : bool :=
  implb (bool_decide (source_type b = EP_OPENAPI))
        (bool_decide (target_type b = EP_STREAMABLE_HTTP))
  && implb (bool_decide (source_type b = EP_STDIO)) (truthy (command b))
  && implb (bool_decide (target_type b = EP_STDIO)) (truthy (command b))
  && implb (bool_decide (source_type b = EP_SSE)
            || bool_decide (source_type b = EP_STREAMABLE_HTTP))
           (truthy (sse_url b))
  && implb (bool_decide (source_type b = EP_OPENAPI))
           (truthy (openapi_base_url b) && truthy (openapi_spec_url b)).

(** The only invariant the two write handlers test. *)
Definition openapi_targets_stream (b : FlowBase) : bool :=
  implb (bool_decide (source_type b = EP_OPENAPI))
        (bool_decide (target_type b = EP_STREAMABLE_HTTP)).

(** [u] is the first element of [l] that satisfies [P]. *)
Definition first_such {A} (P : A → Prop) (l : list A) (u : A) : Prop :=
  ∃ l1 l2, l = (l1 ++ u :: l2)%list ∧ P u ∧ ∀ x, x ∈ l1 → ¬ P x.

(** The non-empty segments of a path. *)
Definition segments (p : string) : list string :=
  List.filter (λ s, negb (bool_decide (s = ""))) (split_on "/" p).

(** The hosts the dependency resolver takes for this machine. *)
Definition local_hosts (settings : Settings) : list string :=
  ["127.0.0.1"; "localhost"; "0.0.0.0"; host settings;
   inspector_public_host settings].

(** A stored flow answers route [r] on endpoint [e]. *)
Definition serves (r e : string) (f : Flow) : Prop :=
  str_or (route (base f)) (name (base f)) = r
  ∧ target_type (base f) = (if bool_decide (e = "mcp")
                            then EP_STREAMABLE_HTTP else EP_SSE).

(** One optional field of an update: [None] keeps, a value overwrites. *)
Definition keeps_or_overwrites {A} (incoming existing result : option A) : Prop :=
  match incoming with
  | None => result = existing
  | Some v => result = Some v
  end.

(** The members of a port. *)
Definition members (w : World) (p : Z) : gset string :=
  default ∅ (dict_get p (active_ports w)).

(** The port a flow attaches to. *)
Definition port_of (flow : Flow) : Z :=
  if bool_decide (target_type (base flow) = EP_OPENAPI)
  then openapi_port settings_store_get
  else if bool_decide (target_type (base flow) = EP_STREAMABLE_HTTP)
  then stream_port settings_store_get
  else sse_port settings_store_get.

(** What a caller of [start] can observe of the supervisor. *)
Definition observable (w : World)
    : list (Z * gset string) * list (Z * ProcessInfo) * list (string * ProcessInfo) :=
  (active_ports w, processes w, openapi_helpers w).

Definition warnings (l : list LogRecord) : list LogRecord :=
  List.filter (λ r, match levelname r with WARNING => true | INFO => false end) l.

(** Every recorded child carries the label of its kind. *)
Definition labels_ok (w : World) : Prop :=
  (∀ p info, (p, info) ∈ processes w → label info = "port-" +:+ pretty p)
  ∧ (∀ fid info, (fid, info) ∈ openapi_helpers w → label info = "openapi-" +:+ fid).

Definition flowId_is (l : string) (e : json) : Prop :=
  jget "flowId" e = Some (JStr l).

(** ** Traces of the broadcaster *)

Inductive bc_op :=
| OpRegister
| OpUnregister (q : nat)
| OpBroadcast (payload : json)
| OpConsume (q : nat).

Definition bc_step (b : EventBroadcaster) (op : bc_op) : EventBroadcaster :=
  match op with
  | OpRegister => (register b).2
  | OpUnregister q => unregister q b
  | OpBroadcast payload => broadcast payload b
  | OpConsume q => match consume q b with
                   | Some (_, b') => b'
                   | None => b
                   end
  end.

Definition bc_run (ops : list bc_op) (b : EventBroadcaster) : EventBroadcaster :=
  foldl bc_step b ops.

(** [EventBroadcaster()] *)
Definition EventBroadcaster_init : EventBroadcaster :=
  {| queues := []; listeners := [] |}.

(** Every registered queue exists, once, with capacity 100 and no more
    than 100 events. *)
Definition bc_wf (b : EventBroadcaster) : Prop :=
  NoDup (listeners b)
  ∧ (∀ q, q ∈ listeners b → (q < length (queues b))%nat)
  ∧ (∀ q qu, queues b !! q = Some qu →
       maxsize qu = 100%nat ∧ (length (items qu) ≤ 100)%nat).

(** The events of queue [q]. *)
Definition pending (b : EventBroadcaster) (q : nat) : list json :=
  from_option items [] (queues b !! q).

(** ** A concrete environment *)

Fixpoint digits_value (s : string) (acc : Z) : option Z :=
  match s with
  | EmptyString => Some acc
  | String a rest =>
      let n := Z.of_N (N_of_ascii a) in
      if bool_decide (48 ≤ n ≤ 57) then digits_value rest (10 * acc + (n - 48))
      else None
  end.

(** [s.partition(sep)] for a one-character separator: the text before the
    first [sep], and what follows it when there is one. *)
Fixpoint partition_on (c : ascii) (s : string) : string * option string :=
  match s with
  | EmptyString => (EmptyString, None)
  | String a rest =>
      if bool_decide (a = c) then (EmptyString, Some rest)
      else let '(x, y) := partition_on c rest in (String a x, y)
  end.

(** [urlparse] on the URLs [scheme://host[:port]/path] of the examples
    (lower case, no user, parameters, query or fragment). *)
Definition urlparse_simple (url : string) : option ParseResult :=
  match partition_on ":" url with
  | (sch, Some (String "/" (String "/" rest))) =>
      let '(loc, tail) := partition_on "/" rest in
      Some {| scheme := sch; netloc := loc;
              path := match tail with Some t => String "/" t | None => "" end;
              params := ""; query := ""; fragment := "" |}
  | _ => Some {| scheme := ""; netloc := ""; path := url;
                 params := ""; query := ""; fragment := "" |}
  end.

Definition urlunparse_simple (p : ParseResult) : string :=
  if bool_decide (netloc p = "") then path p
  else scheme p +:+ "://" +:+ netloc p +:+ path p.

Definition hostname_simple (p : ParseResult) : option string :=
  let h := (partition_on ":" (netloc p)).1 in
  if bool_decide (h = "") then None else Some h.

Definition port_simple (p : ParseResult) : PortAttr :=
  match (partition_on ":" (netloc p)).2 with
  | None => PortNone
  | Some "" => PortNone
  | Some d =>
      match digits_value d 0 with
      | Some n => if bool_decide (n ≤ 65535) then PortNum n else PortError
      | None => PortError
      end
  end.

(** An environment with the defaults of the module constants, a clock that
    counts, and the given answers for spawning and for port probes. *)
Definition Env_with (spawn : nat → list string → option Z)
    (opens : nat → Z → bool) : Env :=
  {| RUNTIME_DIR := "/srv/data/runtime";
     PROXY_BINARY := "mcp-proxy";
     OPENAPI_BIN_argv := ["uvx"; "mcpo"];
     urlparse := urlparse_simple;
     urlunparse := urlunparse_simple;
     hostname := hostname_simple;
     port_attr := port_simple;
     time_time := λ t, 1700000000 + Z.of_nat t;
     uuid4 := λ t, "flow-" +:+ pretty t;
     create_subprocess_exec := spawn;
     port_opens := opens;
     upstream_answers := λ _ _, true;
     free_port := λ t, 40000 + Z.of_nat t;
     exit_status := λ _ _, -15 |}.

(** Every binary is installed and every port opens in time. *)
Definition Env_ok : Env :=
  Env_with (λ t _, Some (4000 + Z.of_nat t)) (λ _ _, true).

(** No binary is found. *)
Definition Env_no_binary : Env :=
  Env_with (λ _ _, None) (λ _ _, true).

(** Children spawn, but no port ever opens. *)
Definition Env_no_port : Env :=
  Env_with (λ t _, Some (4000 + Z.of_nat t)) (λ _ _, false).

(** [FlowBase(name=n)] with the defaults of the model class. *)
Definition FlowBase_default (n : string) : FlowBase :=
  {| name := n; route := None; description := None;
     source_type := EP_SSE; target_type := EP_SSE;
     sse_url := None; openapi_base_url := None; openapi_spec_url := None;
     transport := SSE; server_transport := SSE;
     stateless := false; auto_start := true;
     command := None; args := []; env := []; headers := [];
     allow_origins := [] |}.

Definition with_endpoints (source target : EndpointType) (b : FlowBase) : FlowBase :=
  {| name := name b; route := route b; description := description b;
     source_type := source; target_type := target;
     sse_url := sse_url b; openapi_base_url := openapi_base_url b;
     openapi_spec_url := openapi_spec_url b;
     transport := transport b; server_transport := server_transport b;
     stateless := stateless b; auto_start := auto_start b;
     command := command b; args := args b; env := env b;
     headers := headers b; allow_origins := allow_origins b |}.

Definition with_command (c : option string) (a : list string) (b : FlowBase) : FlowBase :=
  {| name := name b; route := route b; description := description b;
     source_type := source_type b; target_type := target_type b;
     sse_url := sse_url b; openapi_base_url := openapi_base_url b;
     openapi_spec_url := openapi_spec_url b;
     transport := transport b; server_transport := server_transport b;
     stateless := stateless b; auto_start := auto_start b;
     command := c; args := a; env := env b;
     headers := headers b; allow_origins := allow_origins b |}.

Definition with_urls (u base_url spec_url : option string) (b : FlowBase) : FlowBase :=
  {| name := name b; route := route b; description := description b;
     source_type := source_type b; target_type := target_type b;
     sse_url := u; openapi_base_url := base_url; openapi_spec_url := spec_url;
     transport := transport b; server_transport := server_transport b;
     stateless := stateless b; auto_start := auto_start b;
     command := command b; args := args b; env := env b;
     headers := headers b; allow_origins := allow_origins b |}.

(** [{name:"echo", source_type:stdio, target_type:sse, command:"/bin/echo",
    args:["hi"]}] *)
Definition echo_base : FlowBase :=
  with_command (Some "/bin/echo") ["hi"]
    (with_endpoints EP_STDIO EP_SSE (FlowBase_default "echo")).

Definition echo_create : FlowCreate := {| fc_base := echo_base; fc_id := None |}.

(** A stored flow made of a base record. *)
Definition stored_flow (i : string) (b : FlowBase) : Flow :=
  {| base := b; id := i; created_at := 0; updated_at := 0;
     previous := PreviousConfig_default |}.

(** A world holding the given flows and nothing else. *)
Definition World_of (flows : list Flow) : World := set_store flows World_init.

(** The payloads a trace broadcasts, in order. *)
Definition payloads (ops : list bc_op) : list json :=
  omap (λ op, match op with OpBroadcast p => Some p | _ => None end) ops.

(** What the consumer of queue [q] takes out during a trace. *)
Fixpoint consumed (q : nat) (ops : list bc_op) (b : EventBroadcaster) : list json :=
  match ops with
  | [] => []
  | op :: ops' =>
      (match op with
       | OpConsume q' =>
           if bool_decide (q' = q)
           then match consume q b with Some (x, _) => [x] | None => [] end
           else []
       | _ => []
       end ++ consumed q ops' (bc_step b op))%list
  end.

(** Whether [broadcast] can enqueue on [q]. *)
Definition accepts (qs : list Queue) (q : nat) : bool :=
  match qs !! q with
  | Some qu => negb (full qu)
  | None => false
  end.

(** [FlowCreate] of a stdio source without a command. *)
Definition no_command_create : FlowCreate :=
  {| fc_base := with_endpoints EP_STDIO EP_SSE (FlowBase_default "broken");
     fc_id := Some "f1" |}.

(** A stored flow and an update that sets a command and leaves the
    description out. *)
Definition described_flow : Flow :=
  {| base := {| name := "echo"; route := Some "echo"; description := Some "first";
                source_type := EP_STDIO; target_type := EP_SSE;
                sse_url := None; openapi_base_url := None; openapi_spec_url := None;
                transport := SSE; server_transport := SSE;
                stateless := false; auto_start := true;
                command := Some "/bin/echo"; args := ["hi"]; env := [];
                headers := []; allow_origins := [] |};
     id := "f1"; created_at := 1600000000; updated_at := 1600000000;
     previous := PreviousConfig_default |}.

Definition command_update : FlowUpdate :=
  {| fu_base := with_command (Some "/bin/cat") []
                  (with_endpoints EP_STDIO EP_SSE (FlowBase_default "echo"));
     fu_previous := None |}.

(** A flow whose source is the local gateway on port 0, and the flow that
    serves the route it names. *)
Definition upstream_a : Flow := stored_flow "a" (FlowBase_default "a").

Definition zero_port_flow : Flow :=
  stored_flow "b"
    (with_urls (Some "http://localhost:0/a/sse") None None
       (with_endpoints EP_SSE EP_STREAMABLE_HTTP (FlowBase_default "b"))).

(** The same with the port of the SSE gateway. *)
Definition dependent_flow : Flow :=
  stored_flow "b"
    (with_urls (Some "http://localhost:8002/a/sse") None None
       (with_endpoints EP_SSE EP_STREAMABLE_HTTP (FlowBase_default "b"))).

(** ** Relating the state before and after a computation *)

(** Whatever [m] does and however it ends, it takes a state to one that
    [R] relates to it. *)
Definition steps {A} (R : relation World) (m : M A) : Prop :=
  ∀ w, R w (m w).2.

(** When [m] raises [e] and leaves the state [w'], [Q e w'] holds. *)
Definition raises_with {A} (Q : exn → World → Prop) (m : M A) : Prop :=
  ∀ w e w', m w = (Raise e, w') → Q e w'.

(** The component [f] of the state is left as it was. *)
Definition same {B} (f : World → B) : relation World :=
  λ w w', f w' = f w.

(** The broadcasts made are all of the kind [P]. *)
Definition emits (P : json → Prop) : relation World :=
  λ w w', ∃ evs, events w' = (events w ++ evs)%list ∧ Forall P evs.

(** The invariant [I] is kept. *)
Definition keeps (I : World → Prop) : relation World :=
  λ w w', I w → I w'.

(** No port loses a member. *)
Definition attaches : relation World :=
  λ w w', ∀ p, members w p ⊆ members w' p.
(** The state in which an activation restarts the port. *)
Definition attached_state (flow : Flow) (w : World) : World :=
  set_active_ports
    (dict_set (port_of flow) ({[ id flow ]} ∪ members w (port_of flow)) (active_ports w)) w.

(** The error of a helper whose port does not open in time. *)
Definition helper_timeout : exn :=
  HTTPException 400 "Le serveur OpenAPI MCP n'a pas démarré à temps".

(** A flow is stored as created from the echo request. *)
Definition echo_stored : Flow :=
  stored_flow "f-echo" (with_derived (Some "echo") echo_base).

(** An OpenAPI source exposed on the streamable-HTTP gateway. *)
Definition petstore_stored : Flow :=
  stored_flow "f-pets"
    (with_derived (Some "pets")
       (with_urls None (Some "https://petstore.example/api")
          (Some "https://petstore.example/openapi.json")
          (with_endpoints EP_OPENAPI EP_STREAMABLE_HTTP (FlowBase_default "pets")))).

(** The ids of the stored flows. *)
Definition store_ids (w : World) : gset string :=
  list_to_set (id <$> store w).

(** A flow fed by the SSE endpoint of the echo flow. *)
Definition echo_reader : Flow :=
  stored_flow "f-reader"
    (with_derived (Some "reader")
       (with_urls (Some "http://localhost:8002/echo/sse") None None
          (with_endpoints EP_SSE EP_STREAMABLE_HTTP (FlowBase_default "reader")))).

(** The [log] events of a pump labelled [l] that reads [lines] from tick
    [t] on. *)
Fixpoint line_events (E : Env) (l : string) (t : nat) (lines : list string)
    : list json :=
  match lines with
  | [] => []
  | text :: rest =>
      JObj [("type", JStr "log"); ("flowId", JStr l); ("line", JStr text);
            ("ts", JNum (time_time E t))]
      :: line_events E l (S t) rest
  end.

(** All the events of that pump: one per line, then [flow_exited]. *)
Definition pump_events (E : Env) (l : string) (t : nat) (lines : list string)
    (rc : option Z) : list json :=
  (line_events E l t lines
   ++ [JObj [("type", JStr "flow_exited"); ("flowId", JStr l);
             ("code", jopt_num rc);
             ("ts", JNum (time_time E (t + length lines)))]])%list.

(** [info] as held by a pump, with other flows attached. *)
Definition with_flow_ids (ids : gset string) (info : ProcessInfo) : ProcessInfo :=
  {| label := label info; flow_ids := ids; process := process info;
     started_at := started_at info; pi_command := pi_command info;
     port := port info; mode := mode info; logs := logs info;
     last_event := last_event info; exit_code := exit_code info |}.

(** The entry the claim expects for the echo flow, with its empty [env]. *)
Definition echo_entry_with_env : json :=
  JObj [("command", JStr "/bin/echo"); ("args", JList [JStr "hi"]); ("env", JObj [])].

(** The entry the proxy configuration holds for the echo flow. *)
Definition echo_entry : json :=
  JObj [("command", JStr "/bin/echo"); ("args", JList [JStr "hi"])].

(** A stdio source exposed on the OpenAPI port. *)
Definition tool_stored : Flow :=
  stored_flow "f-tool"
    (with_derived (Some "tool")
       (with_command (Some "/bin/echo") ["hi"]
          (with_endpoints EP_STDIO EP_OPENAPI (FlowBase_default "tool")))).

(** A remote SSE source exposed on the OpenAPI port. *)
Definition remote_stored : Flow :=
  stored_flow "f-remote"
    (with_derived (Some "remote")
       (with_urls (Some "http://remote.example:9000/sse") None None
          (with_endpoints EP_SSE EP_OPENAPI (FlowBase_default "remote")))).

(** ** Further statements about the store *)

(** The ids of a list of records, in their order. *)
Definition ids_of (flows : list Flow) : list string := id <$> flows.

(** The records that do not carry [flow_id]. *)
Definition without_id (flow_id : string) (flows : list Flow) : list Flow :=
  List.filter (λ f, negb (bool_decide (id f = flow_id))) flows.

(** A store with two records under the id "f-echo", as a hand-edited
    [flows.json] can hold. *)
Definition echo_twice : World :=
  World_of [echo_stored; upstream_a; stored_flow "f-echo" (FlowBase_default "copy")].

(** ** The read handlers *)

(** The response of [list_flows] for one record. *)
Definition flow_response (flow : Flow) (state : json) (logs_ : list string)
    : FlowResponse :=
  {| resp_flow := flow; resp_state := state; resp_logs := logs_;
     resp_last_event := state_last_event state |}.

(** [GET /api/flows] *)
Definition list_flows : M (list FlowResponse) :=
  let* flows := store_list in
  for_each (λ flow result,
      let* state := _state (id flow) in
      let* logs_ := manager_logs (id flow) in
      ret (result ++ [flow_response flow state logs_])%list)
    flows [].

(** [GET /api/flows/{flow_id}/logs] *)
Definition get_logs (flow_id : string) : M (list string) := manager_logs flow_id.

(** No two stored records share an id. *)
Definition store_unique (w : World) : Prop := NoDup (ids_of (store w)).

(** The 404 of the store. *)
Definition not_found : exn := HTTPException 404 "Flux introuvable".

(** ** Statements about helpers and children *)

(** The helper registered for a flow, if any. *)
Definition helper_of (w : World) (flow_id : string) : option ProcessInfo :=
  dict_get flow_id (openapi_helpers w).

(** The child recorded for a port, if any. *)
Definition child_of (w : World) (p : Z) : option ProcessInfo :=
  dict_get p (processes w).

(** The errors of [_ensure_openapi_helper]. *)
Definition helper_urls_missing : exn :=
  HTTPException 400 "Base URL et spec OpenAPI requises pour une source openapi".

Definition npx_missing : exn := HTTPException 400 "binaire introuvable : npx".



(** ** Statements about the supervisor *)

(** [active_ports] is a dictionary: no port is listed twice. *)
Definition ports_dict (w : World) : Prop := NoDup (active_ports w).*1.

(** The child recorded for port [p], if any, was started for the members
    the port has now, and there are some. *)
Definition serving_at (w : World) (p : Z) : Prop :=
  ∀ info, (p, info) ∈ processes w →
    flow_ids info = members w p ∧ members w p ≠ ∅.

Definition serving (w : World) : Prop := ∀ p, serving_at w p.

Definition supervisor_ok (w : World) : Prop := ports_dict w ∧ serving w.

(** The error of [stop] for a flow that no port lists. *)
Definition already_stopped : exn := HTTPException 400 "Flux déjà arrêté".

(** The entry of [active_ports] in which [stop] and [delete_flow] find a
    flow: the first whose set lists it. *)
Definition port_listing (w : World) (flow_id : string) : option (Z * gset string) :=
  List.find (λ pi, bool_decide (flow_id ∈ pi.2)) (active_ports w).

(** What [_state] answers for a flow without a running child. *)
Definition not_running : json := JObj [("running", JBool false)].

(** The echo flow attached to port 8002 and served by a gateway child. *)
Definition echo_running : World :=
  set_processes
    [(8002, gateway_info 8002 {[ "f-echo" ]}
              ["mcp-proxy"; "-config"; "/srv/data/runtime/port-8002.config.json"]
              "sse" 4000 1700000001)]
    (set_active_ports [(8002, {[ "f-echo" ]})] (World_of [echo_stored])).

(** A flow is listed by one port at most. *)
Definition attached_once (w : World) (flow_id : string) : Prop :=
  ∀ p q, flow_id ∈ members w p → flow_id ∈ members w q → p = q.



(** Two flows that name each other as upstream. *)
Definition ping : Flow :=
  stored_flow "f-ping"
    (with_derived (Some "ping")
       (with_urls (Some "http://localhost:8002/pong/sse") None None
          (with_endpoints EP_SSE EP_SSE (FlowBase_default "ping")))).

Definition pong : Flow :=
  stored_flow "f-pong"
    (with_derived (Some "pong")
       (with_urls (Some "http://localhost:8002/ping/sse") None None
          (with_endpoints EP_SSE EP_SSE (FlowBase_default "pong")))).


(** The same with a port beyond 65535. *)
Definition wide_port_flow : Flow :=
  stored_flow "b"
    (with_urls (Some "http://localhost:99999/a/sse") None None
       (with_endpoints EP_SSE EP_STREAMABLE_HTTP (FlowBase_default "b"))).

(** The proxy is installed, [uvx] is not. *)
Definition Env_no_uvx : Env :=
  Env_with (λ t cmd, if bool_decide (List.hd "" cmd = "uvx") then None
                     else Some (4000 + Z.of_nat t))
           (λ _ _, true).

(** A flow exposed on the OpenAPI gateway and fed by the SSE endpoint of
    the echo flow. *)
Definition openapi_reader : Flow :=
  stored_flow "f-reader"
    (with_derived (Some "reader")
       (with_urls (Some "http://localhost:8002/echo/sse") None None
          (with_endpoints EP_SSE EP_OPENAPI (FlowBase_default "reader")))).




(** Whether the pump's cleanup stops the helper of [fid]: the flow was
    served by the child and its stored record has an OpenAPI source. *)
Definition pump_cleans (info : ProcessInfo) (flows : list Flow) (fid : string) : bool :=
  bool_decide (fid ∈ flow_ids info)
  && match List.find (λ fl, bool_decide (id fl = fid)) flows with
     | Some f => bool_decide (source_type (base f) = EP_OPENAPI)
     | None => false
     end.


(** * Properties *)

Set Warnings "-clear-no-such-hyp".

(** ** The broadcaster *)

Section broadcaster_facts.
Implicit Types (b : EventBroadcaster) (q : nat) (qs : list Queue).

Lemma broadcast_loop_lookup payload ls : ∀ qs alive q,
  NoDup ls →
  (broadcast_loop payload ls qs alive).1 !! q =
    (λ qu, if bool_decide (q ∈ ls) then default qu (put_nowait payload qu) else qu)
      <$> qs !! q.
Proof.
  induction ls as [|q0 ls IH]; intros qs alive q Hnd; simpl.
  - destruct (qs !! q); done.
  - apply NoDup_cons in Hnd as [Hq0 Hnd].
    destruct (qs !! q0) as [qu0|] eqn:E0.
    + destruct (put_nowait payload qu0) as [qu0'|] eqn:Ep.
      * rewrite IH by done.
        destruct (decide (q = q0)) as [->|Hne].
        -- rewrite list_lookup_insert_eq by (by eapply lookup_lt_Some).
           rewrite E0. simpl.
           rewrite (bool_decide_eq_false_2 (q0 ∈ ls)) by done.
           rewrite bool_decide_eq_true_2 by set_solver.
           by rewrite Ep.
        -- rewrite list_lookup_insert_ne by done.
           destruct (qs !! q) as [qu|]; simpl; [|done].
           f_equal. destruct (decide (q ∈ ls)).
           ++ rewrite !bool_decide_eq_true_2; [done|set_solver|done].
           ++ rewrite !bool_decide_eq_false_2; [done|set_solver|done].
      * rewrite IH by done.
        destruct (qs !! q) as [qu|] eqn:Eq; simpl; [|done].
        f_equal. destruct (decide (q = q0)) as [->|Hne].
        -- rewrite (bool_decide_eq_false_2 (q0 ∈ ls)) by done.
           rewrite bool_decide_eq_true_2 by set_solver.
           assert (qu = qu0) as -> by congruence. by rewrite Ep.
        -- destruct (decide (q ∈ ls)).
           ++ rewrite !bool_decide_eq_true_2; [done|set_solver|done].
           ++ rewrite !bool_decide_eq_false_2; [done|set_solver|done].
    + rewrite IH by done.
      destruct (qs !! q) as [qu|] eqn:Eq; simpl; [|done].
      f_equal. destruct (decide (q = q0)) as [->|Hne]; [congruence|].
      destruct (decide (q ∈ ls)).
      * rewrite !bool_decide_eq_true_2; [done|set_solver|done].
      * rewrite !bool_decide_eq_false_2; [done|set_solver|done].
Qed.

Lemma broadcast_loop_alive payload ls : ∀ qs alive,
  NoDup ls →
  (broadcast_loop payload ls qs alive).2 = (alive ++ List.filter (accepts qs) ls)%list.
Proof.
  induction ls as [|q0 ls IH]; intros qs alive Hnd; simpl.
  - by rewrite app_nil_r.
  - apply NoDup_cons in Hnd as [Hq0 Hnd].
    unfold accepts at 1. unfold put_nowait.
    destruct (qs !! q0) as [qu0|] eqn:E0.
    + destruct (full qu0) eqn:Ef; simpl.
      * by apply IH.
      * rewrite IH by done. rewrite <- app_assoc. simpl. do 2 f_equal.
        apply filter_ext_in_iff. intros q Hq. unfold accepts.
        rewrite list_lookup_insert_ne; [done|].
        intros ->. apply Hq0. by apply list_elem_of_In.
    + by apply IH.
Qed.

Lemma broadcast_loop_length payload ls : ∀ qs alive,
  length (broadcast_loop payload ls qs alive).1 = length qs.
Proof.
  induction ls as [|q0 ls IH]; intros qs alive; simpl; [done|].
  destruct (qs !! q0); [|by apply IH].
  destruct (put_nowait _ _); rewrite IH; [by rewrite length_insert|done].
Qed.

Lemma broadcast_queues payload b :
  queues (broadcast payload b) = (broadcast_loop payload (listeners b) (queues b) []).1.
Proof. unfold broadcast. by destruct (broadcast_loop _ _ _ _). Qed.

Lemma broadcast_listeners payload b :
  listeners (broadcast payload b) = (broadcast_loop payload (listeners b) (queues b) []).2.
Proof. unfold broadcast. by destruct (broadcast_loop _ _ _ _). Qed.

Lemma elem_of_broadcast_listeners payload b q :
  NoDup (listeners b) →
  q ∈ listeners (broadcast payload b) ↔ q ∈ listeners b ∧ accepts (queues b) q = true.
Proof.
  intros Hnd. rewrite broadcast_listeners, broadcast_loop_alive by done. simpl.
  rewrite list_elem_of_In, filter_In, <- list_elem_of_In. done.
Qed.

Lemma pending_broadcast payload b q :
  NoDup (listeners b) →
  pending (broadcast payload b) q =
    if bool_decide (q ∈ listeners b) && accepts (queues b) q
    then (pending b q ++ [payload])%list else pending b q.
Proof.
  intros Hnd. unfold pending, accepts.
  rewrite broadcast_queues, broadcast_loop_lookup by done.
  destruct (queues b !! q) as [qu|]; simpl.
  - unfold put_nowait. destruct (bool_decide (q ∈ listeners b)); simpl; [|done].
    by destruct (full qu).
  - by rewrite andb_false_r.
Qed.

Lemma full_iff qu :
  maxsize qu = 100%nat → (length (items qu) ≤ 100)%nat →
  full qu = true ↔ length (items qu) = 100%nat.
Proof.
  intros Hm Hl. unfold full. rewrite Hm.
  rewrite bool_decide_eq_false_2 by lia.
  rewrite bool_decide_eq_true. lia.
Qed.

Lemma bc_wf_init : bc_wf EventBroadcaster_init.
Proof.
  split; [constructor|]. split; simpl.
  - intros q Hq. by apply elem_of_nil in Hq.
  - intros q qu Hq. done.
Qed.

Lemma bc_wf_register b : bc_wf b → bc_wf (register b).2.
Proof.
  intros (Hnd & Hlt & Hq). unfold register; simpl. split; [|split].
  - apply NoDup_app. split; [done|]. split; [|apply NoDup_singleton].
    intros q Hin Hq'. apply list_elem_of_singleton in Hq'. subst.
    apply Hlt in Hin. lia.
  - intros q Hin. simpl in *. rewrite length_app. simpl.
    apply elem_of_app in Hin as [Hin|Hin]; [apply Hlt in Hin; lia|].
    apply list_elem_of_singleton in Hin. lia.
  - intros q qu Hl. apply lookup_app_Some in Hl as [Hl|[_ Hl]]; [by eapply Hq|].
    destruct (q - length (queues b))%nat; simpl in Hl; [|done].
    inversion Hl; subst; simpl. lia.
Qed.

Lemma remove_first_subseteq q l x : x ∈ remove_first q l → x ∈ l.
Proof.
  induction l as [|y l IH]; simpl; [done|].
  case_bool_decide; set_solver.
Qed.

Lemma NoDup_remove_first q l : NoDup l → NoDup (remove_first q l).
Proof.
  induction 1 as [|y l Hy Hnd IH]; simpl; [constructor|].
  case_bool_decide; [done|]. constructor; [|done].
  intros Hin. by apply remove_first_subseteq in Hin.
Qed.

Lemma elem_of_remove_first q l x :
  NoDup l → x ∈ remove_first q l ↔ x ∈ l ∧ x ≠ q.
Proof.
  induction 1 as [|y l Hy Hnd IH]; simpl; [set_solver|].
  case_bool_decide; subst; [set_solver|].
  rewrite elem_of_cons, IH. set_solver.
Qed.

Lemma bc_wf_unregister q b : bc_wf b → bc_wf (unregister q b).
Proof.
  intros (Hnd & Hlt & Hq). unfold unregister. case_bool_decide; [|done].
  split; [|split]; simpl; [by apply NoDup_remove_first| |done].
  intros x Hx. apply Hlt. by eapply remove_first_subseteq.
Qed.

Lemma bc_wf_broadcast payload b : bc_wf b → bc_wf (broadcast payload b).
Proof.
  intros (Hnd & Hlt & Hq). split; [|split].
  - rewrite broadcast_listeners, broadcast_loop_alive by done. simpl.
    apply NoDup_ListNoDup, List.NoDup_filter, NoDup_ListNoDup, Hnd.
  - intros q Hin. rewrite broadcast_queues, broadcast_loop_length.
    apply elem_of_broadcast_listeners in Hin as [Hin _]; auto.
  - intros q qu. rewrite broadcast_queues, broadcast_loop_lookup by done.
    destruct (queues b !! q) as [qu0|] eqn:E0; simpl; [|done].
    intros [= <-]. destruct (Hq _ _ E0) as [Hm Hl].
    case_bool_decide; [|done]. unfold put_nowait.
    destruct (full qu0) eqn:Ef; simpl; [done|]. split; [done|].
    rewrite length_app. simpl.
    assert (length (items qu0) ≠ 100%nat); [|lia].
    intros Hc. apply full_iff in Hc; [congruence|done..].
Qed.

Lemma bc_wf_consume q b x b' : bc_wf b → consume q b = Some (x, b') → bc_wf b'.
Proof.
  intros (Hnd & Hlt & Hq). unfold consume, queue_get.
  destruct (queues b !! q) as [qu|] eqn:E0; [|done].
  destruct (items qu) as [|y rest] eqn:Ei; [done|].
  intros [= <- <-]. split; [done|]. split; simpl.
  - intros x Hx. rewrite length_insert. by apply Hlt.
  - intros q' qu'. destruct (decide (q' = q)) as [->|Hne].
    + rewrite list_lookup_insert_eq by (by eapply lookup_lt_Some).
      intros [= <-]. simpl. destruct (Hq _ _ E0) as [Hm Hl].
      rewrite Ei in Hl. simpl in Hl. lia.
    + rewrite list_lookup_insert_ne by done. apply Hq.
Qed.

Lemma bc_wf_step b op : bc_wf b → bc_wf (bc_step b op).
Proof.
  intros Hwf. destruct op as [|q|p|q]; simpl.
  - by apply bc_wf_register.
  - by apply bc_wf_unregister.
  - by apply bc_wf_broadcast.
  - destruct (consume q b) as [[x b']|] eqn:Ec; [by eapply bc_wf_consume|done].
Qed.

Lemma bc_wf_run ops : ∀ b, bc_wf b → bc_wf (bc_run ops b).
Proof.
  unfold bc_run. induction ops as [|op ops IH]; intros b Hwf; simpl; [done|].
  by apply IH, bc_wf_step.
Qed.

(** What one step does to an existing queue [q]. *)
Lemma bc_step_queue b op q :
  bc_wf b → (q < length (queues b))%nat →
  (q < length (queues (bc_step b op)))%nat
  ∧ (q ∈ listeners (bc_step b op) → q ∈ listeners b)
  ∧ match op with
    | OpBroadcast p =>
        if bool_decide (q ∈ listeners (bc_step b op))
        then pending (bc_step b op) q = (pending b q ++ [p])%list
        else pending (bc_step b op) q = pending b q
    | OpConsume q' =>
        (q ∈ listeners b → q ∈ listeners (bc_step b op))
        ∧ (consumed q [op] b ++ pending (bc_step b op) q)%list = pending b q
    | _ =>
        pending (bc_step b op) q = pending b q
        ∧ (op = OpRegister → q ∈ listeners b → q ∈ listeners (bc_step b op))
    end.
Proof.
  intros (Hnd & Hlt & Hq) Hlen. destruct op as [|q'|p|q']; simpl.
  - rewrite length_app. split; [lia|]. split.
    + intros Hin. apply elem_of_app in Hin as [Hin|Hin]; [done|].
      apply list_elem_of_singleton in Hin. lia.
    + split; [|set_solver]. unfold pending; simpl.
      by rewrite lookup_app_l.
  - unfold unregister. case_bool_decide; simpl; [|done].
    split; [done|]. split; [apply remove_first_subseteq|done].
  - rewrite broadcast_queues, broadcast_loop_length. split; [done|].
    split; [intros Hin; by apply elem_of_broadcast_listeners in Hin as [? _]|].
    rewrite pending_broadcast by done.
    case_bool_decide as Hin.
    + apply elem_of_broadcast_listeners in Hin as [Hin Ha]; [|done].
      by rewrite bool_decide_eq_true_2, Ha.
    + destruct (bool_decide (q ∈ listeners b)) eqn:Eb; [|done].
      destruct (accepts (queues b) q) eqn:Ea; [|done].
      exfalso. apply Hin, elem_of_broadcast_listeners; [done|].
      by apply bool_decide_eq_true in Eb.
  - rewrite app_nil_r. unfold consume, queue_get, pending.
    destruct (decide (q' = q)) as [->|Hne].
    + rewrite bool_decide_eq_true_2 by done.
      destruct (queues b !! q) as [qu|] eqn:E0; simpl; [|by rewrite E0].
      destruct (items qu) as [|y rest] eqn:Ei; simpl.
      * rewrite E0. simpl. by rewrite Ei.
      * rewrite length_insert, list_lookup_insert_eq by done. done.
    + rewrite bool_decide_eq_false_2 by done. simpl.
      destruct (queues b !! q') as [qu'|] eqn:E0; simpl; [|done].
      destruct (items qu') as [|y rest] eqn:Ei; simpl; [done|].
      by rewrite length_insert, list_lookup_insert_ne.
Qed.

Lemma bc_run_listeners_mono ops : ∀ b q,
  bc_wf b → (q < length (queues b))%nat →
  q ∈ listeners (bc_run ops b) → q ∈ listeners b.
Proof.
  unfold bc_run. induction ops as [|op ops IH]; intros b q Hwf Hlen; simpl; [done|].
  intros Hin. destruct (bc_step_queue b op q Hwf Hlen) as (Hlen' & Hmono & _).
  apply Hmono, (IH (bc_step b op)); [by apply bc_wf_step|done..].
Qed.

Lemma consumed_cons q op ops b :
  consumed q (op :: ops) b = (consumed q [op] b ++ consumed q ops (bc_step b op))%list.
Proof. simpl. by rewrite app_nil_r. Qed.

(** The events a subscriber takes or still holds are what it held plus an
    initial part of what was broadcast, all of it while it stays
    registered, none of it once it is not. *)
Lemma bc_run_delivery ops : ∀ b q,
  bc_wf b → (q < length (queues b))%nat →
  ∃ k, (consumed q ops b ++ pending (bc_run ops b) q)%list
         = (pending b q ++ take k (payloads ops))%list
       ∧ (q ∈ listeners (bc_run ops b) → k = length (payloads ops))
       ∧ (q ∉ listeners b → k = 0%nat).
Proof.
  induction ops as [|op ops IH]; intros b q Hwf Hlen.
  - exists 0%nat. simpl. by rewrite app_nil_r.
  - destruct (bc_step_queue b op q Hwf Hlen) as (Hlen' & Hmono & Hop).
    destruct (IH (bc_step b op) q (bc_wf_step _ op Hwf) Hlen') as (k & Heq & Hall & Hnone).
    assert ((consumed q (op :: ops) b ++ pending (bc_run (op :: ops) b) q)%list
            = (consumed q [op] b ++ pending (bc_step b op) q
               ++ take k (payloads ops))%list) as ->.
    { rewrite consumed_cons, <- app_assoc. f_equal. apply Heq. }
    assert (q ∈ listeners (bc_run (op :: ops) b) → k = length (payloads ops)) as Hall'
      by apply Hall.
    assert (q ∉ listeners b → k = 0%nat) as Hnone'.
    { intros Hn. apply Hnone. intros Hin. by apply Hn, Hmono. }
    destruct op as [|q'|p|q'].
    + destruct Hop as [Hp _]. exists k. rewrite Hp. done.
    + destruct Hop as [Hp _]. exists k. rewrite Hp. done.
    + change (payloads (OpBroadcast p :: ops)) with (p :: payloads ops).
      change (consumed q [OpBroadcast p] b) with (@nil json). rewrite app_nil_l.
      case_bool_decide as Hin.
      * exists (S k). rewrite Hop. simpl. rewrite <- app_assoc. simpl.
        split; [done|]. split; [intros H; by rewrite Hall'|].
        intros Hn. exfalso. by apply Hn, Hmono.
      * exists 0%nat. rewrite Hop, (Hnone Hin). simpl.
        split; [done|]. split; [|done].
        intros H. exfalso. apply Hin.
        eapply (bc_run_listeners_mono ops); [by apply bc_wf_step|done..].
    + destruct Hop as [Hkeep Hp]. exists k.
      change (payloads (OpConsume q' :: ops)) with (payloads ops).
      by rewrite app_assoc, Hp.
Qed.

Lemma broadcast_drops_full payload b q :
  bc_wf b → q ∈ listeners b → (length (pending b q) = 100%nat) →
  (q ∉ listeners (broadcast payload b))
  ∧ pending (broadcast payload b) q = pending b q.
Proof.
  intros (Hnd & Hlt & Hq) Hin Hfull.
  assert (accepts (queues b) q = false) as Ha.
  { unfold accepts, pending in *. destruct (queues b !! q) as [qu|] eqn:E0; [|done].
    simpl in Hfull. destruct (Hq _ _ E0) as [Hm Hl].
    apply negb_false_iff, full_iff; done. }
  split.
  - rewrite elem_of_broadcast_listeners by done. intros [_ ?]; congruence.
  - rewrite pending_broadcast by done. by rewrite Ha, andb_false_r.
Qed.

Lemma register_queue b :
  queues (register b).2 !! (register b).1 = Some {| maxsize := 100; items := [] |}
  ∧ (register b).1 ∈ listeners (register b).2.
Proof.
  unfold register; simpl. split; [|set_solver].
  rewrite lookup_app_r by lia. by rewrite Nat.sub_diag.
Qed.
End broadcaster_facts.

Lemma accepts_iff (b : EventBroadcaster) (q : nat) :
  bc_wf b → q ∈ listeners b →
  accepts (queues b) q = true ↔ (length (pending b q) < 100)%nat.
Proof.
  intros (Hnd & Hlt & Hq) Hin. unfold accepts, pending.
  destruct (queues b !! q) as [qu|] eqn:E0.
  - simpl. destruct (Hq _ _ E0) as [Hm Hl].
    rewrite negb_true_iff, <- not_true_iff_false, full_iff by done. lia.
  - apply Hlt, lookup_lt_is_Some in Hin as [qu Hqu]. congruence.
Qed.

(** A subscriber whose queue has room is served and kept. *)
Lemma broadcast_serves payload (b : EventBroadcaster) (q : nat) :
  bc_wf b → q ∈ listeners b → (length (pending b q) < 100)%nat →
  q ∈ listeners (broadcast payload b)
  ∧ pending (broadcast payload b) q = (pending b q ++ [payload])%list.
Proof.
  intros Hwf Hin Hroom. pose proof (proj2 (accepts_iff b q Hwf Hin) Hroom) as Ha.
  destruct Hwf as (Hnd & _). split.
  - by apply elem_of_broadcast_listeners.
  - rewrite pending_broadcast by done. by rewrite bool_decide_eq_true_2, Ha.
Qed.

(** Who is not registered gets nothing. *)
Lemma broadcast_skips payload (b : EventBroadcaster) (q : nat) :
  bc_wf b → q ∉ listeners b →
  (q ∉ listeners (broadcast payload b))
  ∧ pending (broadcast payload b) q = pending b q.
Proof.
  intros (Hnd & _) Hin. split.
  - rewrite elem_of_broadcast_listeners by done. by intros [? _].
  - rewrite pending_broadcast by done. by rewrite bool_decide_eq_false_2.
Qed.

(** The registry after a broadcast: the subscribers with room, in their
    order. *)
Lemma broadcast_keeps_order payload (b : EventBroadcaster) :
  bc_wf b →
  listeners (broadcast payload b)
  = List.filter (λ q, bool_decide (length (pending b q) < 100)%nat) (listeners b).
Proof.
  intros Hwf. rewrite broadcast_listeners, broadcast_loop_alive by apply Hwf.
  simpl. apply filter_ext_in_iff. intros q Hq%list_elem_of_In.
  destruct (accepts (queues b) q) eqn:Ha.
  - symmetry. by apply bool_decide_eq_true, accepts_iff.
  - symmetry. apply bool_decide_eq_false. intros Hroom.
    apply accepts_iff in Hroom; [congruence|done..].
Qed.

(** C7.  Every queue handed out by [register] has capacity 100, and after
    any trace of registrations, broadcasts, reads and unregistrations every
    queue holds at most 100 events of capacity 100.  [broadcast] is a total
    function of the registry: on a full queue [put_nowait] fails at once and
    the subscriber is taken off the registry, its queue untouched; a
    registered subscriber whose queue has room gets the payload at the end
    of its queue and stays registered; who is not registered gets nothing;
    the registry after the broadcast is the subscribers that had room, in
    their order.  For a subscriber [q] and any further trace, what [q]
    reads and still holds is what it held followed by an initial part of
    the payloads broadcast, in their order: all of them when [q] is still
    registered at the end, none when it was not registered at the start. *)
Theorem broadcaster_bounded_drop_order (ops : list bc_op) :
  let b := bc_run ops EventBroadcaster_init in
  (queues (register b).2 !! (register b).1 = Some {| maxsize := 100; items := [] |}
   ∧ (register b).1 ∈ listeners (register b).2)
  ∧ (∀ q qu, queues b !! q = Some qu →
       maxsize qu = 100%nat ∧ (length (items qu) ≤ 100)%nat)
  ∧ (∀ payload q, q ∈ listeners b → (length (pending b q) = 100%nat) →
       (q ∉ listeners (broadcast payload b))
       ∧ pending (broadcast payload b) q = pending b q)
  ∧ (∀ payload q, q ∈ listeners b → (length (pending b q) < 100)%nat →
       q ∈ listeners (broadcast payload b)
       ∧ pending (broadcast payload b) q = (pending b q ++ [payload])%list)
  ∧ (∀ payload q, q ∉ listeners b →
       (q ∉ listeners (broadcast payload b))
       ∧ pending (broadcast payload b) q = pending b q)
  ∧ (∀ payload,
       listeners (broadcast payload b)
       = List.filter (λ q, bool_decide (length (pending b q) < 100)%nat)
           (listeners b))
  ∧ (∀ q more, (q < length (queues b))%nat →
       ∃ k, (consumed q more b ++ pending (bc_run more b) q)%list
              = (pending b q ++ take k (payloads more))%list
            ∧ (q ∈ listeners (bc_run more b) → k = length (payloads more))
            ∧ (q ∉ listeners b → k = 0%nat)).
Proof.
  intros b. assert (bc_wf b) as Hwf by apply bc_wf_run, bc_wf_init.
  split; [apply register_queue|]. split; [apply Hwf|].
  split; [intros payload q; by apply broadcast_drops_full|].
  split; [intros payload q; by apply broadcast_serves|].
  split; [intros payload q; by apply broadcast_skips|].
  split; [intros payload; by apply broadcast_keeps_order|].
  intros q more Hlen. by apply bc_run_delivery.
Qed.

(** ** The monad *)

Section monad_facts.
Context {A B : Type}.
Implicit Types (m : M A) (k : A → M B) (w : World).

Lemma bind_Ok m k w a w1 : m w = (Ok a, w1) → bind m k w = k a w1.
Proof. unfold bind. by intros ->. Qed.

Lemma bind_Raise m k w e w1 : m w = (Raise e, w1) → bind m k w = (Raise e, w1).
Proof. unfold bind. by intros ->. Qed.

Lemma bind_inv m k w r w' :
  bind m k w = (r, w') →
  (∃ e, m w = (Raise e, w') ∧ r = Raise e)
  ∨ (∃ a w1, m w = (Ok a, w1) ∧ k a w1 = (r, w')).
Proof.
  unfold bind. destruct (m w) as [[a|e] w1]; intros H.
  - right. by exists a, w1.
  - left. exists e. by inversion H.
Qed.

Lemma bind_inv_Ok m k w b w' :
  bind m k w = (Ok b, w') → ∃ a w1, m w = (Ok a, w1) ∧ k a w1 = (Ok b, w').
Proof.
  intros H. apply bind_inv in H as [(e & _ & ?)|H]; [done|exact H].
Qed.
End monad_facts.

(** ** The write handlers *)

Lemma store_get_find flow_id w :
  store_get flow_id w =
    match List.find (λ f, bool_decide (id f = flow_id)) (store w) with
    | Some f => (Ok f, w)
    | None => (Raise (HTTPException 404 "Flux introuvable"), w)
    end.
Proof.
  unfold store_get, bind, store_list, gets.
  by destruct (List.find _ _).
Qed.

Lemma build_command_check_invariants b :
  write_invariants b = false → openapi_targets_stream b = true →
  ∃ d, build_command_check b = Some (HTTPException 400 d).
Proof.
  unfold write_invariants, openapi_targets_stream, build_command_check.
  destruct (source_type b), (target_type b), (truthy (command b)),
    (truthy (sse_url b)), (truthy (openapi_base_url b)),
    (truthy (openapi_spec_url b)); simpl; intros H1 H2;
    try discriminate; eauto.
Qed.

(** C1 (amended).  [create_flow] and [update_flow] test one invariant, that
    an openapi source targets streamable_http.  When it fails the call is
    rejected with status 400 and the store is left as it was; in every
    other case the record is written, whatever its command and URLs are.
    The other invariants (a command for a stdio end, a URL for a remote
    source, both URLs for an openapi source) are tested where the per-flow
    command is built: [_build_command] rejects such a flow with status 400
    and changes nothing. *)
Theorem write_handlers_check_openapi_target_only (E : Env) :
  (∀ flow w,
     let b := fc_base flow in
     let r := create_flow E flow w in
     if openapi_targets_stream b
     then ∃ resp, r.1 = Ok resp
          ∧ base (resp_flow resp) = with_derived (opt_or (route b) (Some (name b))) b
          ∧ store r.2 = upsert_list (resp_flow resp) (store w)
     else r.1 = Raise (HTTPException 400
                         "Une source openapi doit cibler le mode streamable_http")
          ∧ store r.2 = store w)
  ∧ (∀ flow_id payload w existing,
       List.find (λ f, bool_decide (id f = flow_id)) (store w) = Some existing →
       let data := merged (fu_base payload) (base existing) in
       let r := update_flow E flow_id payload w in
       if openapi_targets_stream data
       then ∃ resp, r.1 = Ok resp
            ∧ source_type (base (resp_flow resp)) = source_type data
            ∧ target_type (base (resp_flow resp)) = target_type data
            ∧ command (base (resp_flow resp)) = command data
            ∧ sse_url (base (resp_flow resp)) = sse_url data
            ∧ openapi_base_url (base (resp_flow resp)) = openapi_base_url data
            ∧ openapi_spec_url (base (resp_flow resp)) = openapi_spec_url data
            ∧ store r.2 = upsert_list (resp_flow resp) (store w)
       else r.1 = Raise (HTTPException 400
                           "Une source openapi doit cibler le mode streamable_http")
            ∧ store r.2 = store w)
  ∧ (∀ flow w,
       write_invariants (base flow) = false →
       openapi_targets_stream (base flow) = true →
       ∃ d, _build_command E flow w = (Raise (HTTPException 400 d), w)).
Proof.
  split; [|split].
  - intros flow w b r. subst r. unfold create_flow, openapi_targets_stream.
    fold b.
    destruct (bool_decide (source_type b = EP_OPENAPI)) eqn:Es,
      (bool_decide (target_type b = EP_STREAMABLE_HTTP)) eqn:Et; simpl;
      unfold bind, ask, ret, raise, store_upsert, logger_info, modify, _state, gets;
      destruct (truthy (fc_id flow)); simpl; rewrite ?Es, ?Et; simpl;
      eauto.
  - intros flow_id payload w existing Hfind data r. subst r.
    assert (store_get flow_id w = (Ok existing, w)) as Hget
      by (by rewrite store_get_find, Hfind).
    unfold update_flow. rewrite !(bind_Ok _ _ _ _ _ Hget).
    fold data. unfold openapi_targets_stream.
    destruct (bool_decide (source_type data = EP_OPENAPI)) eqn:Es,
      (bool_decide (target_type data = EP_STREAMABLE_HTTP)) eqn:Et; simpl;
      unfold bind, ask, ret, raise, store_upsert, logger_info, modify, _state,
        manager_logs, gets; simpl;
      eauto 10.
  - intros flow w Hinv H1.
    destruct (build_command_check_invariants _ Hinv H1) as [d Hd].
    exists d. unfold _build_command. by rewrite Hd.
Qed.

Lemma create_flow_accepts_empty_command :
  write_invariants (fc_base no_command_create) = false
  ∧ ∃ resp w',
      create_flow Env_ok no_command_create World_init = (Ok resp, w')
      ∧ store w' = [resp_flow resp]
      ∧ source_type (base (resp_flow resp)) = EP_STDIO
      ∧ command (base (resp_flow resp)) = None.
Proof.
  split; [reflexivity|]. eexists _, _. split; [vm_compute; reflexivity|].
  repeat split.
Qed.

Lemma opt_or_default a n :
  opt_or (if truthy a then a else Some n) (Some n) = opt_or a (Some n).
Proof. unfold opt_or. destruct (truthy a) eqn:Ea; [by rewrite Ea|by destruct (truthy (Some n))]. Qed.

(** Records with another id keep their place and content. *)
Lemma upsert_list_others flow flows :
  List.filter (λ f, negb (bool_decide (id f = id flow))) (upsert_list flow flows)
  = List.filter (λ f, negb (bool_decide (id f = id flow))) flows.
Proof.
  induction flows as [|f flows IH]; simpl.
  - by rewrite bool_decide_eq_true_2.
  - case_bool_decide as Hid; simpl.
    + by rewrite bool_decide_eq_true_2.
    + by rewrite bool_decide_eq_false_2, IH.
Qed.

(** C9.  A successful [update_flow] answers for a stored record
    [existing] with the requested id.  The record it writes keeps [id] and
    [created_at]; each optional field keeps the stored value when the
    payload has [None] and takes the payload's value otherwise; the fields
    that are never [None] in a payload take the payload's value;
    [updated_at], [route], [transport], [server_transport] and [previous]
    are computed anew.  The store changes by this one record only. *)
Theorem update_flow_merges (E : Env) (flow_id : string) (payload : FlowUpdate)
    (w : World) (resp : FlowResponse) :
  (update_flow E flow_id payload w).1 = Ok resp →
  ∃ existing,
    List.find (λ f, bool_decide (id f = flow_id)) (store w) = Some existing
    ∧ let inc := fu_base payload in
      let ex := base existing in
      let new := resp_flow resp in
      (id new = flow_id ∧ id new = id existing ∧ created_at new = created_at existing)
      ∧ (keeps_or_overwrites (description inc) (description ex) (description (base new))
         ∧ keeps_or_overwrites (sse_url inc) (sse_url ex) (sse_url (base new))
         ∧ keeps_or_overwrites (openapi_base_url inc) (openapi_base_url ex)
             (openapi_base_url (base new))
         ∧ keeps_or_overwrites (openapi_spec_url inc) (openapi_spec_url ex)
             (openapi_spec_url (base new))
         ∧ keeps_or_overwrites (command inc) (command ex) (command (base new)))
      ∧ (name (base new) = name inc
         ∧ source_type (base new) = source_type inc
         ∧ target_type (base new) = target_type inc
         ∧ stateless (base new) = stateless inc
         ∧ auto_start (base new) = auto_start inc
         ∧ args (base new) = args inc
         ∧ env (base new) = env inc
         ∧ headers (base new) = headers inc
         ∧ allow_origins (base new) = allow_origins inc)
      ∧ (updated_at new = time_time E (tick w)
         ∧ route (base new) = opt_or (merge_opt (route inc) (route ex)) (Some (name inc))
         ∧ transport (base new) = source_transport (source_type inc)
         ∧ server_transport (base new)
           = exposed_transport (source_type inc) (target_type inc)
         ∧ previous new = capture_previous existing inc)
      ∧ store (update_flow E flow_id payload w).2 = upsert_list new (store w)
      ∧ List.filter (λ f, negb (bool_decide (id f = flow_id)))
          (store (update_flow E flow_id payload w).2)
        = List.filter (λ f, negb (bool_decide (id f = flow_id))) (store w).
Proof.
  unfold update_flow. intros Hok.
  destruct (List.find (λ f, bool_decide (id f = flow_id)) (store w))
    as [existing|] eqn:Hfind.
  2: { unfold bind in Hok. by rewrite store_get_find, Hfind in Hok. }
  assert (store_get flow_id w = (Ok existing, w)) as Hget
    by (by rewrite store_get_find, Hfind).
  assert (id existing = flow_id) as Hid.
  { apply find_some in Hfind as [_ Hid]. by apply bool_decide_eq_true in Hid. }
  rewrite !(bind_Ok _ _ _ _ _ Hget) in *.
  exists existing. split; [done|].
  destruct (bool_decide (source_type (merged (fu_base payload) (base existing)) = EP_OPENAPI)
            && negb (bool_decide (target_type (merged (fu_base payload) (base existing))
                                  = EP_STREAMABLE_HTTP))) eqn:Echk;
    [done|].
  unfold bind, ask, ret, store_upsert, logger_info, modify, _state, manager_logs, gets
    in *.
  simpl in Hok. inversion Hok; subst resp; clear Hok. simpl.
  rewrite opt_or_default.
  repeat split; try done;
    try (unfold keeps_or_overwrites;
         match goal with |- match ?x with _ => _ end => by destruct x end).
  subst flow_id.
  exact (upsert_list_others
           {| base := with_derived
                        (opt_or (merge_opt (route (fu_base payload)) (route (base existing)))
                           (Some (name (fu_base payload))))
                        (merged (fu_base payload) (base existing));
              id := id existing; created_at := created_at existing;
              updated_at := time_time E (tick w);
              previous := capture_previous existing (fu_base payload) |} (store w)).
Qed.

Lemma update_flow_merges_witness :
  ∃ resp, (update_flow Env_ok "f1" command_update (World_of [described_flow])).1 = Ok resp
    ∧ id (resp_flow resp) = "f1"
    ∧ description (base (resp_flow resp)) = Some "first"
    ∧ command (base (resp_flow resp)) = Some "/bin/cat".
Proof.
  eexists. split; [vm_compute; reflexivity|].
  destruct (update_flow_merges Env_ok "f1" command_update (World_of [described_flow]) _
              eq_refl)
    as (existing & Hfind & (Hid & _) & (Hdesc & _ & _ & _ & Hcmd) & _).
  injection Hfind as <-.
  split; [exact Hid|]. split; [exact Hdesc|exact Hcmd].
Defined.

(** ** The dependency resolver *)

Lemma find_first_such {A} (f : A → bool) (P : A → Prop) (l : list A) (u : A) :
  (∀ x, f x = true ↔ P x) →
  List.find f l = Some u ↔ first_such P l u.
Proof.
  intros Hf. induction l as [|x l IH]; simpl.
  - split; [done|]. intros (l1 & l2 & Hl & _). by destruct l1.
  - destruct (f x) eqn:Ex.
    + split.
      * intros [= ->]. exists [], l. split; [done|]. split; [by apply Hf|].
        intros y Hy. by apply elem_of_nil in Hy.
      * intros (l1 & l2 & Hl & Hu & Hno). destruct l1 as [|y l1]; simpl in Hl.
        -- by inversion Hl.
        -- inversion Hl; subst. exfalso. apply (Hno y); [set_solver|by apply Hf].
    + rewrite IH. split.
      * intros (l1 & l2 & -> & Hu & Hno). exists (x :: l1), l2.
        split; [done|]. split; [done|].
        intros y Hy. apply elem_of_cons in Hy as [->|Hy]; [|by apply Hno].
        rewrite <- Hf. congruence.
      * intros (l1 & l2 & Hl & Hu & Hno). destruct l1 as [|y l1]; simpl in Hl.
        -- inversion Hl; subst. apply Hf in Hu. congruence.
        -- inversion Hl; subst. exists l1, l2. split; [done|]. split; [done|].
           intros z Hz. apply Hno. set_solver.
Qed.

Lemma find_by_route_serves r e flows u :
  find_by_route_in r
    (Some (if bool_decide (e = "mcp") then EP_STREAMABLE_HTTP else EP_SSE)) flows
    = Some u
  ↔ first_such (serves r e) flows u.
Proof.
  apply find_first_such. intros f. unfold serves.
  rewrite andb_true_iff, !bool_decide_eq_true. done.
Qed.

Lemma str_or_Some_empty s : str_or (Some s) "" = s.
Proof. unfold str_or. by case_bool_decide. Qed.

(** C6 (amended).  For a flow whose source is not stdio and whose
    [sse_url] is a non-empty URL that parses, the resolver never touches
    the state.  When the URL's hostname is one of 127.0.0.1, localhost,
    0.0.0.0, [settings.host], [settings.inspector_public_host] and its port
    is malformed ([parsed.port] raises), the resolver raises [ValueError].
    In every other case it returns, and it returns an upstream [u] exactly
    when the hostname is one of those, the URL has an explicit port that is
    not 0 and not the OpenAPI port, the path has at least two non-empty
    segments [route, endpoint, ...], and [u] is the first stored flow whose
    route (its name when the route is unset or empty) is [route] and whose
    target is streamable_http when [endpoint] is "mcp" and sse otherwise. *)
Theorem resolve_dependency_spec (E : Env) (flow : Flow) (w : World)
    (url : string) (parsed : ParseResult) :
  source_type (base flow) ≠ EP_STDIO →
  sse_url (base flow) = Some url →
  url ≠ "" →
  urlparse E url = Some parsed →
  (default "" (hostname E parsed) ∈ local_hosts settings_store_get
   ∧ port_attr E parsed = PortError →
   _resolve_dependency E flow w = (Raise ValueError, w))
  ∧ (¬ (default "" (hostname E parsed) ∈ local_hosts settings_store_get
        ∧ port_attr E parsed = PortError) →
     ∃ r, _resolve_dependency E flow w = (Ok r, w)
       ∧ ∀ u, r = Some u ↔
           ∃ n route_ endpoint rest,
             default "" (hostname E parsed) ∈ local_hosts settings_store_get
             ∧ port_attr E parsed = PortNum n
             ∧ n ≠ 0
             ∧ n ≠ openapi_port settings_store_get
             ∧ segments (path parsed) = route_ :: endpoint :: rest
             ∧ first_such (serves route_ endpoint) (store w) u).
Proof.
  intros Hsrc Hurl Hne Hparse.
  assert (∀ P : result (option Flow) * World → Prop,
            P (if bool_decide (default "" (hostname E parsed)
                               ∈ local_hosts settings_store_get)
               then match port_attr E parsed with
                    | PortError => (Raise ValueError, w)
                    | PortNone => (Ok None, w)
                    | PortNum n =>
                        if bool_decide (n = 0) then (Ok None, w)
                        else match segments (path parsed) with
                             | route_ :: endpoint :: _ =>
                                 if bool_decide (n = openapi_port settings_store_get)
                                 then (Ok None, w)
                                 else (Ok (find_by_route_in route_
                                             (Some (if bool_decide (endpoint = "mcp")
                                                    then EP_STREAMABLE_HTTP else EP_SSE))
                                             (store w)), w)
                             | _ => (Ok None, w)
                             end
                    end
               else (Ok None, w)) →
            P (_resolve_dependency E flow w)) as Hunfold.
  { intros P HP. unfold _resolve_dependency.
    rewrite bool_decide_eq_false_2 by done.
    rewrite Hurl. unfold truthy. rewrite (bool_decide_eq_false_2 (url = "")) by done.
    cbn [negb].
    unfold str_or at 1. rewrite (bool_decide_eq_false_2 (url = "")) by done.
    unfold do_urlparse. rewrite Hparse.
    rewrite (bind_Ok _ _ _ parsed w) by done.
    rewrite str_or_Some_empty.
    change ["127.0.0.1"; "localhost"; "0.0.0.0"; host settings_store_get;
            inspector_public_host settings_store_get]
      with (local_hosts settings_store_get).
    fold (segments (path parsed)).
    destruct (bool_decide (default "" (hostname E parsed)
                           ∈ local_hosts settings_store_get)); [|exact HP].
    cbn [negb]. unfold get_port.
    destruct (port_attr E parsed) as [|n|]; [exact HP| |exact HP].
    rewrite (bind_Ok _ _ _ (Some n) w) by done. cbn [port_truthy negb].
    destruct (bool_decide (n = 0)); [exact HP|]. cbn [negb].
    destruct (segments (path parsed)) as [|route_ [|endpoint rest]]; [exact HP..|].
    cbn [default from_option]. change (Datatypes.id n) with n.
    destruct (bool_decide (n = openapi_port settings_store_get)); exact HP. }
  split.
  { intros [Hin Hport]. apply Hunfold.
    by rewrite bool_decide_eq_true_2, Hport by done. }
  intros Hport. apply Hunfold. clear Hunfold.
  destruct (decide (default "" (hostname E parsed) ∈ local_hosts settings_store_get))
    as [Hin|Hnin].
  2: { rewrite bool_decide_eq_false_2 by done. exists None. split; [done|].
       intros u. split; [done|]. intros (? & ? & ? & ? & ? & _). done. }
  rewrite bool_decide_eq_true_2 by done.
  destruct (port_attr E parsed) as [|n|] eqn:Ep; [| |by destruct Hport].
  - exists None. split; [done|].
    intros u. split; [done|]. intros (? & ? & ? & ? & _ & ? & _). done.
  - destruct (decide (n = 0)) as [->|Hn0].
    { exists None. split; [done|].
      intros u. split; [done|]. intros (? & ? & ? & ? & _ & [= <-] & ? & _). done. }
    rewrite (bool_decide_eq_false_2 (n = 0)) by done.
    destruct (segments (path parsed)) as [|route_ [|endpoint rest]] eqn:Eseg.
    1,2: exists None; split; [done|]; intros u; split; [done|];
         intros (? & ? & ? & ? & _ & _ & _ & _ & ? & _); done.
    destruct (decide (n = openapi_port settings_store_get)) as [Hop|Hop].
    { rewrite bool_decide_eq_true_2 by done. exists None. split; [done|].
      intros u. split; [done|]. intros (? & ? & ? & ? & _ & [= <-] & _ & ? & _). done. }
    rewrite bool_decide_eq_false_2 by done.
    eexists. split; [reflexivity|]. intros u.
    rewrite find_by_route_serves. split.
    + intros Hfirst. by exists n, route_, endpoint, rest.
    + intros (? & ? & ? & ? & _ & [= <-] & _ & _ & [= <- <- <-] & Hfirst). done.
Qed.

Lemma resolve_dependency_spec_witness :
  ∃ r, _resolve_dependency Env_ok dependent_flow (World_of [upstream_a; dependent_flow])
       = (Ok r, World_of [upstream_a; dependent_flow])
    ∧ r = Some upstream_a.
Proof.
  destruct (resolve_dependency_spec Env_ok dependent_flow
              (World_of [upstream_a; dependent_flow])
              "http://localhost:8002/a/sse"
              {| scheme := "http"; netloc := "localhost:8002"; path := "/a/sse";
                 params := ""; query := ""; fragment := "" |})
    as (_ & H); [done|reflexivity|done|reflexivity|].
  destruct H as (r & Hr & Hu); [by intros [_ ?]|].
  exists r. split; [exact Hr|]. apply Hu.
  exists 8002, "a", "sse", []. split; [vm_compute; set_solver|].
  split; [reflexivity|]. split; [done|]. split; [done|]. split; [reflexivity|].
  exists [], [dependent_flow]. split; [reflexivity|]. split; [by split|].
  intros x Hx. by apply elem_of_nil in Hx.
Defined.

(** The conditions of the claim hold for a source on port 0, and no
    dependency is found. *)
Lemma resolve_dependency_port_zero :
  let w := World_of [upstream_a; zero_port_flow] in
  source_type (base zero_port_flow) ≠ EP_STDIO
  ∧ sse_url (base zero_port_flow) = Some "http://localhost:0/a/sse"
  ∧ (∃ parsed, urlparse Env_ok "http://localhost:0/a/sse" = Some parsed
       ∧ hostname Env_ok parsed = Some "localhost"
       ∧ port_attr Env_ok parsed = PortNum 0
       ∧ 0 ≠ openapi_port settings_store_get
       ∧ segments (path parsed) = ["a"; "sse"])
  ∧ first_such (serves "a" "sse") (store w) upstream_a
  ∧ _resolve_dependency Env_ok zero_port_flow w = (Ok None, w).
Proof.
  intros w. split; [done|]. split; [reflexivity|]. split.
  { eexists. split; [reflexivity|]. repeat split; done. }
  split.
  - exists [], [zero_port_flow]. split; [reflexivity|]. split; [by split|].
    intros x Hx. by apply elem_of_nil in Hx.
  - vm_compute. reflexivity.
Qed.

(** A port out of range: the URL parses, the host is local, and the
    resolver raises instead of returning. *)
Lemma resolve_dependency_port_out_of_range :
  let w := World_of [upstream_a; wide_port_flow] in
  urlparse Env_ok "http://localhost:99999/a/sse"
  = Some {| scheme := "http"; netloc := "localhost:99999"; path := "/a/sse";
            params := ""; query := ""; fragment := "" |}
  ∧ _resolve_dependency Env_ok wide_port_flow w = (Raise ValueError, w).
Proof. split; vm_compute; reflexivity. Qed.

(** ** Frame rules *)

#[global] Instance same_preorder {B} (f : World → B) : PreOrder (same f).
Proof.
  split; [intros w; by unfold same|].
  intros w1 w2 w3 H1 H2. unfold same in *. congruence.
Qed.

#[global] Instance emits_preorder (P : json → Prop) : PreOrder (emits P).
Proof.
  split.
  - intros w. exists []. split; [by rewrite app_nil_r|constructor].
  - intros w1 w2 w3 (e1 & H1 & F1) (e2 & H2 & F2). exists (e1 ++ e2)%list.
    rewrite H2, H1, app_assoc. split; [done|]. by apply Forall_app.
Qed.

#[global] Instance keeps_preorder (I : World → Prop) : PreOrder (keeps I).
Proof.
  split; [intros w; by unfold keeps|].
  intros w1 w2 w3 H1 H2 H. by apply H2, H1.
Qed.

#[global] Instance attaches_preorder : PreOrder attaches.
Proof.
  split; [intros w p; set_solver|].
  intros w1 w2 w3 H1 H2 p. specialize (H1 p). specialize (H2 p). set_solver.
Qed.

Section steps_rules.
Context (R : relation World) `{!PreOrder R}.

Lemma steps_ret {A} (a : A) : steps R (ret a).
Proof. intros w. reflexivity. Qed.

Lemma steps_raise {A} e : steps R (@raise A e).
Proof. intros w. reflexivity. Qed.

Lemma steps_gets {A} (f : World → A) : steps R (gets f).
Proof. intros w. reflexivity. Qed.

Lemma steps_modify f : (∀ w, R w (f w)) → steps R (modify f).
Proof. intros H w. apply H. Qed.

Lemma steps_ask {A} (f : nat → A) :
  (∀ w, R w (set_tick (S (tick w)) w)) → steps R (ask f).
Proof. intros H w. apply H. Qed.

Lemma steps_bind {A B} (m : M A) (k : A → M B) :
  steps R m → (∀ a, steps R (k a)) → steps R (bind m k).
Proof.
  intros Hm Hk w. unfold bind. specialize (Hm w).
  destruct (m w) as [[a|e] w1]; simpl in *; [|done].
  by transitivity w1; [|apply Hk].
Qed.

Lemma steps_for_each {A S} (body : A → S → M S) xs :
  (∀ x s, steps R (body x s)) → ∀ acc, steps R (for_each body xs acc).
Proof.
  intros Hb. induction xs as [|x xs IH]; intros acc; simpl.
  - apply steps_ret.
  - apply steps_bind; [apply Hb|apply IH].
Qed.
End steps_rules.

Section raises_rules.
Context (Q : exn → World → Prop).

Lemma raises_ret {A} (a : A) : raises_with Q (ret a).
Proof. by intros w e w'. Qed.

Lemma raises_gets {A} (f : World → A) : raises_with Q (gets f).
Proof. by intros w e w'. Qed.

Lemma raises_modify f : raises_with Q (modify f).
Proof. by intros w e w'. Qed.

Lemma raises_ask {A} (f : nat → A) : raises_with Q (ask f).
Proof. by intros w e w'. Qed.

Lemma raises_raise {A} e : (∀ w, Q e w) → raises_with Q (@raise A e).
Proof. intros H w e' w' [= <- <-]. apply H. Qed.

Lemma raises_bind {A B} (m : M A) (k : A → M B) :
  raises_with Q m → (∀ a, raises_with Q (k a)) → raises_with Q (bind m k).
Proof.
  intros Hm Hk w e w' H. apply bind_inv in H as [(e' & H & [= <-])|(a & w1 & _ & H)].
  - by eapply Hm.
  - by eapply Hk.
Qed.

Lemma raises_for_each {A S} (body : A → S → M S) xs :
  (∀ x s, raises_with Q (body x s)) → ∀ acc, raises_with Q (for_each body xs acc).
Proof.
  intros Hb. induction xs as [|x xs IH]; intros acc; simpl.
  - apply raises_ret.
  - apply raises_bind; [apply Hb|apply IH].
Qed.
End raises_rules.

(** Walk through a computation with the frame rules; [leaf] closes what the
    primitive steps leave. *)
Ltac steps_walk leaf :=
  repeat (intros; cbv beta; lazymatch goal with
    | |- PreOrder _ => apply _
    | |- steps _ (ret _) => apply steps_ret
    | |- steps _ (raise _) => apply steps_raise
    | |- steps _ (gets _) => apply steps_gets
    | |- steps _ (bind _ _) => apply steps_bind
    | |- steps _ (for_each _ _ _) => apply steps_for_each
    | |- steps _ (modify _) => apply steps_modify
    | |- steps _ (ask _) => apply steps_ask
    | |- steps _ (match ?x with _ => _ end) => destruct x
    | |- steps _ (let '(_, _) := ?x in _) => destruct x
    | |- _ => solve [leaf]
    end).

Ltac raises_walk leaf :=
  repeat (intros; cbv beta; lazymatch goal with
    | |- raises_with _ (ret _) => apply raises_ret
    | |- raises_with _ (gets _) => apply raises_gets
    | |- raises_with _ (modify _) => apply raises_modify
    | |- raises_with _ (ask _) => apply raises_ask
    | |- raises_with _ (raise _) => apply raises_raise
    | |- raises_with _ (bind _ _) => apply raises_bind
    | |- raises_with _ (for_each _ _ _) => apply raises_for_each
    | |- raises_with _ (match ?x with _ => _ end) => destruct x
    | |- raises_with _ (let '(_, _) := ?x in _) => destruct x
    | |- _ => solve [leaf]
    end).

Ltac open_manager :=
  unfold build_port_config, spawn_gateway, _terminate_port, openapi_round,
    proxy_round, _ensure_openapi_helper, _stop_openapi_helper, _wait_port,
    _wait_upstream_ready, do_urlparse, get_port, _find_free_port, logger_info,
    logger_warning, do_broadcast, store_list.

Ltac same_leaf := intros; unfold same; reflexivity.

(** ** What the manager leaves alone *)

Section manager_frame.
Context (E : Env).

Lemma terminate_port_store p : steps (same store) (_terminate_port E p).
Proof. open_manager. steps_walk same_leaf. Qed.

Lemma terminate_port_active_ports p : steps (same active_ports) (_terminate_port E p).
Proof. open_manager. steps_walk same_leaf. Qed.


Lemma build_port_config_store p ids flows :
  steps (same store) (build_port_config E p ids flows).
Proof. open_manager. steps_walk same_leaf. Qed.

Lemma build_port_config_active_ports p ids flows :
  steps (same active_ports) (build_port_config E p ids flows).
Proof. open_manager. steps_walk same_leaf. Qed.

Lemma build_port_config_processes p ids flows :
  steps (same processes) (build_port_config E p ids flows).
Proof. open_manager. steps_walk same_leaf. Qed.

Lemma build_port_config_events p ids flows :
  steps (same events) (build_port_config E p ids flows).
Proof. open_manager. steps_walk same_leaf. Qed.

Lemma restart_port_store p : steps (same store) (_restart_port E p).
Proof. unfold _restart_port. open_manager. steps_walk same_leaf. Qed.

Lemma restart_port_active_ports p : steps (same active_ports) (_restart_port E p).
Proof. unfold _restart_port. open_manager. steps_walk same_leaf. Qed.

Lemma restart_port_store_eq p w : store (_restart_port E p w).2 = store w.
Proof. apply restart_port_store. Qed.

Lemma terminate_port_never_raises p : raises_with (λ _ _, False) (_terminate_port E p).
Proof. open_manager. raises_walk fail. Qed.

Lemma stop_helpers_processes fids :
  steps (same processes)
    (for_each (λ fid (_ : unit), _stop_openapi_helper E fid) fids tt).
Proof. open_manager. steps_walk same_leaf. Qed.

(** [_terminate_port] returns, and the port has no record afterwards. *)
Lemma terminate_port_result p w :
  ∃ w1, _terminate_port E p w = (Ok tt, w1)
        ∧ processes w1 = dict_del p (processes w).
Proof.
  destruct (_terminate_port E p w) as [[[]|e] w1] eqn:Ht.
  2: { by apply terminate_port_never_raises in Ht. }
  exists w1. split; [done|].
  unfold _terminate_port in Ht. apply bind_inv_Ok in Ht as (procs & w00 & Hg & Ht).
  unfold gets in Hg. injection Hg as <- <-.
  apply bind_inv_Ok in Ht as (u & w0 & Hin & Hdel).
  unfold modify in Hdel. injection Hdel as <-. simpl. f_equal.
  destruct (dict_get p (processes w)) as [info|];
    [|unfold ret in Hin; by inversion Hin].
  destruct (_is_running info); [|unfold ret in Hin; by inversion Hin].
  apply bind_inv_Ok in Hin as (rc & wa & Ha & Hin).
  unfold ask in Ha. injection Ha as <- <-.
  apply bind_inv_Ok in Hin as (u' & wb & Hl & Hin).
  unfold logger_info, modify in Hl. injection Hl as <-.
  match type of Hin with
  | for_each _ ?fids tt ?w0 = _ =>
      pose proof (stop_helpers_processes fids w0) as Hs
  end.
  rewrite Hin in Hs. unfold same in Hs. simpl in Hs. by subst wb.
Qed.

Lemma spawn_gateway_eq p ids cmd pt w :
  spawn_gateway E p ids cmd pt w =
    match create_subprocess_exec E (tick w) cmd with
    | None => (Raise (HTTPException 400 ("binaire introuvable : " +:+ List.hd "" cmd)),
               set_tick (S (tick w)) w)
    | Some pid_ =>
        let info := gateway_info p ids cmd pt pid_ (time_time E (S (tick w))) in
        (Ok tt,
         set_events (events w ++ [flow_started_event info p])
           (set_broadcaster (broadcast (flow_started_event info p) (broadcaster w))
              (set_processes (dict_set p info (processes w))
                 (set_tick (S (S (tick w))) w))))
    end.
Proof.
  unfold spawn_gateway, bind, ask, raise, modify, do_broadcast. simpl.
  by destruct (create_subprocess_exec E (tick w) cmd).
Qed.
End manager_frame.

Section pydict_facts.
Context {K V : Type} `{EqDecision K}.
Implicit Types (d : list (K * V)).

Lemma dict_get_set k v d : dict_get k (dict_set k v d) = Some v.
Proof.
  induction d as [|[k' v'] d IH]; simpl.
  - by rewrite decide_True.
  - destruct (decide (k' = k)); simpl.
    + by rewrite decide_True.
    + by rewrite decide_False.
Qed.

Lemma dict_get_set_ne k k' v d : k ≠ k' → dict_get k' (dict_set k v d) = dict_get k' d.
Proof.
  intros Hne. induction d as [|[k0 v0] d IH]; simpl.
  - by rewrite decide_False.
  - destruct (decide (k0 = k)) as [->|]; simpl.
    + by rewrite !decide_False.
    + by rewrite IH.
Qed.

Lemma dict_get_del k d : dict_get k (dict_del k d) = None.
Proof.
  unfold dict_del. induction d as [|[k' v'] d IH]; [done|].
  rewrite filter_cons. simpl. destruct (decide (k' ≠ k)) as [Hne|Heq]; simpl.
  - by rewrite decide_False.
  - done.
Qed.

Lemma elem_of_dict_set k v k' v' d :
  (k', v') ∈ dict_set k v d → (k', v') = (k, v) ∨ (k', v') ∈ d.
Proof.
  induction d as [|[k0 v0] d IH]; simpl.
  - intros H. apply list_elem_of_singleton in H. by left.
  - destruct (decide (k0 = k)); rewrite !elem_of_cons; naive_solver.
Qed.

Lemma elem_of_dict_del k k' v' d : (k', v') ∈ dict_del k d → (k', v') ∈ d.
Proof. unfold dict_del. rewrite list_elem_of_filter. naive_solver. Qed.
End pydict_facts.

Section activation.
Context (E : Env).

Lemma port_for_flow_eq flow w : _port_for_flow flow w = (Ok (port_of flow), w).
Proof.
  unfold _port_for_flow, port_of, ret. by repeat case_bool_decide.
Qed.

Lemma activate_flow_attached flow w :
  id flow ∈ members w (port_of flow) → _activate_flow E flow w = (Ok tt, w).
Proof.
  intros Hin. unfold _activate_flow.
  rewrite (bind_Ok _ _ _ _ _ (port_for_flow_eq flow w)).
  unfold bind, gets. fold (members w (port_of flow)).
  by rewrite bool_decide_eq_true_2.
Qed.

Lemma activate_flow_new flow w :
  id flow ∉ members w (port_of flow) →
  _activate_flow E flow w = _restart_port E (port_of flow) (attached_state flow w).
Proof.
  intros Hin. unfold _activate_flow.
  rewrite (bind_Ok _ _ _ _ _ (port_for_flow_eq flow w)).
  unfold bind at 1, gets. fold (members w (port_of flow)).
  by rewrite bool_decide_eq_false_2.
Qed.

Lemma members_attached_state flow w :
  members (attached_state flow w) (port_of flow)
  = {[ id flow ]} ∪ members w (port_of flow).
Proof. unfold members at 1, attached_state. simpl. by rewrite dict_get_set. Qed.

Lemma members_restart_port p q w : members (_restart_port E p w).2 q = members w q.
Proof. unfold members. by rewrite (restart_port_active_ports E p w). Qed.

(** A restart that raises leaves the port without a recorded child. *)
Lemma restart_port_raise p w e w' :
  _restart_port E p w = (Raise e, w') → dict_get p (processes w') = None.
Proof.
  unfold _restart_port. intros H.
  destruct (terminate_port_result E p w) as (w1 & Ht & Hp).
  rewrite (bind_Ok _ _ _ _ _ Ht) in H.
  unfold bind at 1, gets in H. unfold bind at 1, store_list, gets in H.
  destruct (flows_on _ _) as [|f fs]; [done|].
  apply bind_inv in H as [(e' & H & _)|(built & w2 & Hb & H)].
  - pose proof (build_port_config_processes E p
                  (default ∅ (dict_get p (active_ports w1))) (f :: fs) w1) as Hs.
    rewrite H in Hs. unfold same in Hs. simpl in Hs.
    by rewrite Hs, Hp, dict_get_del.
  - pose proof (build_port_config_processes E p
                  (default ∅ (dict_get p (active_ports w1))) (f :: fs) w1) as Hs.
    rewrite Hb in Hs. unfold same in Hs. simpl in Hs.
    rewrite spawn_gateway_eq in H.
    destruct (create_subprocess_exec E (tick w2) built.1); [done|].
    injection H as _ <-. simpl. by rewrite Hs, Hp, dict_get_del.
Qed.

(** An activation that raises did restart the port: the flow was not a
    member, it is one now, and the port has no recorded child. *)
Lemma activate_flow_raise flow w e w' :
  _activate_flow E flow w = (Raise e, w') →
  (id flow ∉ members w (port_of flow))
  ∧ _restart_port E (port_of flow) (attached_state flow w) = (Raise e, w')
  ∧ members w' (port_of flow) = {[ id flow ]} ∪ members w (port_of flow)
  ∧ (∀ q, q ≠ port_of flow → members w' q = members w q)
  ∧ dict_get (port_of flow) (processes w') = None
  ∧ store w' = store w.
Proof.
  intros H.
  destruct (decide (id flow ∈ members w (port_of flow))) as [Hin|Hin].
  { by rewrite activate_flow_attached in H. }
  rewrite activate_flow_new in H by done.
  split; [done|]. split; [done|].
  assert (∀ q, members w' q = members (attached_state flow w) q) as Hm.
  { intros q. rewrite <- (members_restart_port (port_of flow) q (attached_state flow w)).
    by rewrite H. }
  pose proof (restart_port_store_eq E (port_of flow) (attached_state flow w)) as Hst.
  rewrite H in Hst. simpl in Hst.
  split; [by rewrite Hm, members_attached_state|].
  split.
  - intros q Hq. rewrite Hm. unfold members, attached_state. simpl.
    by rewrite dict_get_set_ne.
  - split; [by eapply restart_port_raise|done].
Qed.
End activation.

(** ** Failed starts *)

Section failed_start.
Context (E : Env).

(** A start without dependency is the activation followed by [_state]. *)
Lemma start_no_dependency flow w :
  _resolve_dependency E flow w = (Ok None, w) →
  start E flow w = bind (_activate_flow E flow) (λ _, _state (id flow)) w.
Proof.
  intros Hdep. unfold start.
  rewrite (bind_Ok _ _ _ (store w) w) by done.
  assert (_start_with_dependencies E (S (length (store w))) flow ∅ w
          = _activate_flow E flow w) as Hswd.
  { simpl. rewrite bool_decide_eq_false_2 by set_solver.
    rewrite (bind_Ok _ _ _ _ _ Hdep).
    by rewrite (bind_Ok _ _ _ tt w). }
  unfold bind. by rewrite Hswd.
Qed.

Lemma start_no_dependency_raise flow w e w' :
  _resolve_dependency E flow w = (Ok None, w) →
  start E flow w = (Raise e, w') → _activate_flow E flow w = (Raise e, w').
Proof.
  intros Hdep. rewrite start_no_dependency by done. intros H.
  apply bind_inv in H as [(e' & H & [= <-])|(a & w1 & _ & H)]; [done|].
  unfold _state, bind, gets, ret in H. done.
Qed.

Lemma ensure_openapi_helper_timeout flow :
  raises_with
    (λ e w', e = helper_timeout →
       ∃ info, dict_get (id flow) (openapi_helpers w') = Some info
               ∧ label info = "openapi-" +:+ id flow
               ∧ returncode (process info) = None)
    (_ensure_openapi_helper E flow).
Proof.
  intros w e w'. unfold _ensure_openapi_helper.
  destruct (negb _ || negb _); [by intros [= <- <-]|].
  unfold bind at 1, gets. unfold bind at 1.
  match goal with |- context [match ?m w with _ => _ end] =>
    destruct (m w) as [[[p|]|e0] w1] eqn:Hreuse end.
  - by intros [= <- <-].
  - unfold bind, _find_free_port, ask, logger_info, modify, _wait_port, ask, ret, raise.
    simpl. destruct (create_subprocess_exec _ _ _); [|by intros [= <- <-]].
    destruct (port_opens _ _ _); [done|]. intros [= <- <-] _. simpl.
    rewrite dict_get_set. eauto.
  - intros [= <- <-]. exfalso.
    destruct (dict_get (id flow) (openapi_helpers w)) as [ex|]; [|done].
    destruct (_is_running ex); [|done].
    destruct (port ex); [|done].
    unfold bind, _wait_port, ask, ret in Hreuse. done.
Qed.

(** The building of a port's configuration raises [helper_timeout] only on
    a proxy port, with the helper still registered. *)
Lemma build_port_config_timeout p ids flows :
  raises_with
    (λ e w', e = helper_timeout →
       p ≠ openapi_port settings_store_get
       ∧ ∃ fid info, dict_get fid (openapi_helpers w') = Some info
                     ∧ label info = "openapi-" +:+ fid
                     ∧ returncode (process info) = None)
    (build_port_config E p ids flows).
Proof.
  unfold build_port_config. case_bool_decide as Hp.
  - unfold openapi_round, _wait_port, _wait_upstream_ready, do_urlparse, get_port,
      logger_info, logger_warning.
    raises_walk ltac:(intros; discriminate).
  - unfold proxy_round, logger_info.
    raises_walk ltac:(
      try (intros w e w' Hr Heq; split; [done|];
           destruct (ensure_openapi_helper_timeout _ _ _ _ Hr Heq) as (info & ?);
           eauto)).
Qed.

Lemma warnings_app_info l fmt a :
  warnings (l ++ [{| levelname := INFO; msg := fmt; log_args := a |}]) = warnings l.
Proof. unfold warnings. rewrite List.filter_app. simpl. by rewrite app_nil_r. Qed.

Ltac warnings_leaf :=
  intros; unfold same; simpl; rewrite ?warnings_app_info; reflexivity.

Lemma terminate_port_warnings p : steps (same (λ w, warnings (log w))) (_terminate_port E p).
Proof. open_manager. steps_walk warnings_leaf. Qed.

Lemma build_proxy_config_warnings p ids flows :
  p ≠ openapi_port settings_store_get →
  steps (same (λ w, warnings (log w))) (build_port_config E p ids flows).
Proof.
  intros Hp. unfold build_port_config. rewrite bool_decide_eq_false_2 by done.
  open_manager. steps_walk warnings_leaf.
Qed.

(** What a restart that raises [helper_timeout] leaves. *)
Lemma restart_port_timeout p w w' :
  _restart_port E p w = (Raise helper_timeout, w') →
  warnings (log w') = warnings (log w)
  ∧ ∃ fid info, dict_get fid (openapi_helpers w') = Some info
                ∧ label info = "openapi-" +:+ fid
                ∧ returncode (process info) = None.
Proof.
  unfold _restart_port. intros H.
  destruct (terminate_port_result E p w) as (w1 & Ht & _).
  pose proof (terminate_port_warnings p w) as Hw1. rewrite Ht in Hw1.
  unfold same in Hw1. simpl in Hw1.
  rewrite (bind_Ok _ _ _ _ _ Ht) in H.
  unfold bind at 1, gets in H. unfold bind at 1, store_list, gets in H.
  destruct (flows_on _ _) as [|f fs]; [done|].
  apply bind_inv in H as [(e' & H & [= <-])|(built & w2 & Hb & H)].
  - destruct (build_port_config_timeout _ _ _ _ _ _ H eq_refl) as (Hp & Hh).
    split; [|done].
    pose proof (build_proxy_config_warnings p
                  (default ∅ (dict_get p (active_ports w1))) (f :: fs) Hp w1) as Hw.
    rewrite H in Hw. unfold same in Hw. simpl in Hw. congruence.
  - rewrite spawn_gateway_eq in H.
    destruct (create_subprocess_exec E (tick w2) built.1); [done|].
    injection H as H _. discriminate H.
Qed.

Lemma ensure_openapi_helper_no_port flow w :
  truthy (openapi_base_url (base flow)) = true →
  truthy (openapi_spec_url (base flow)) = true →
  (∀ t cmd, is_Some (create_subprocess_exec E t cmd)) →
  (∀ t p, port_opens E t p = false) →
  ∃ w', _ensure_openapi_helper E flow w = (Raise helper_timeout, w').
Proof.
  intros Hb Hs Hspawn Hopen. unfold _ensure_openapi_helper. rewrite Hb, Hs. simpl.
  unfold bind, gets, _wait_port, _find_free_port, ask, ret, raise, logger_info, modify.
  destruct (dict_get (id flow) (openapi_helpers w)) as [ex|].
  - destruct (_is_running ex), (port ex); simpl; rewrite ?Hopen;
      match goal with |- context [create_subprocess_exec E ?t ?c] =>
        destruct (Hspawn t c) as [pid_ ->] end; simpl; rewrite Hopen; eauto.
  - match goal with |- context [create_subprocess_exec E ?t ?c] =>
      destruct (Hspawn t c) as [pid_ ->] end. simpl. rewrite Hopen. eauto.
Qed.
End failed_start.

(** ** Starting twice *)

Section start_twice.
Context (E : Env).

Lemma find_by_route_in_stored r t flows d :
  find_by_route_in r t flows = Some d → d ∈ flows.
Proof.
  unfold find_by_route_in. intros H. apply find_some in H as [Hin _].
  by apply list_elem_of_In.
Qed.

(** The resolver reads the store and nothing else, writes nothing, and
    answers with a stored flow. *)
Lemma resolve_dependency_reads_store flow :
  ∃ f, (∀ w, _resolve_dependency E flow w = (f (store w), w))
       ∧ (∀ s d, f s = Ok (Some d) → d ∈ s).
Proof.
  unfold _resolve_dependency, do_urlparse, get_port, store_find_by_route, store_list,
    bind, gets, ret, raise.
  repeat first
    [ by exists (λ _, Ok None)
    | by exists (λ _, Raise ValueError)
    | by (eexists (λ fl, Ok (find_by_route_in _ _ fl)); split; [done|];
          intros ? ? [= Hfound]; eapply find_by_route_in_stored, Hfound)
    | case_match; simpl ].
Qed.

Lemma resolve_dependency_state flow w : (_resolve_dependency E flow w).2 = w.
Proof. destruct (resolve_dependency_reads_store flow) as (f & Hf & _). by rewrite Hf. Qed.

Lemma resolve_dependency_store flow w1 w2 :
  store w1 = store w2 →
  (_resolve_dependency E flow w1).1 = (_resolve_dependency E flow w2).1.
Proof.
  intros Hs. destruct (resolve_dependency_reads_store flow) as (f & Hf & _).
  by rewrite !Hf, Hs.
Qed.

Lemma resolve_dependency_raises flow :
  raises_with (λ e _, e = ValueError) (_resolve_dependency E flow).
Proof.
  unfold _resolve_dependency, do_urlparse, get_port, store_find_by_route, store_list.
  raises_walk ltac:(intros; congruence).
Qed.

Lemma resolve_dependency_stored flow w d w' :
  _resolve_dependency E flow w = (Ok (Some d), w') → d ∈ store w.
Proof.
  destruct (resolve_dependency_reads_store flow) as (f & Hf & Hin).
  rewrite Hf. intros [= H _]. by apply Hin.
Qed.

Lemma restart_port_fuel p : raises_with (λ e _, e ≠ OutOfFuel) (_restart_port E p).
Proof. unfold _restart_port. open_manager. raises_walk ltac:(intros; congruence). Qed.

Lemma activate_flow_fuel flow : raises_with (λ e _, e ≠ OutOfFuel) (_activate_flow E flow).
Proof.
  intros w e w' H. apply activate_flow_raise in H as (_ & H & _).
  by eapply restart_port_fuel.
Qed.

Lemma activate_flow_store flow : steps (same store) (_activate_flow E flow).
Proof.
  intros w. destruct (decide (id flow ∈ members w (port_of flow))).
  - by rewrite activate_flow_attached.
  - rewrite activate_flow_new by done. unfold same.
    by rewrite restart_port_store_eq.
Qed.

Lemma activate_flow_attaches flow : steps attaches (_activate_flow E flow).
Proof.
  intros w q. destruct (decide (id flow ∈ members w (port_of flow))).
  - by rewrite activate_flow_attached.
  - rewrite activate_flow_new, members_restart_port by done.
    destruct (decide (q = port_of flow)) as [->|Hq].
    + rewrite members_attached_state. set_solver.
    + unfold members, attached_state. simpl. by rewrite dict_get_set_ne.
Qed.

(** After an activation, returned or raised, the flow is a member. *)
Lemma activate_flow_member flow w :
  id flow ∈ members (_activate_flow E flow w).2 (port_of flow).
Proof.
  destruct (decide (id flow ∈ members w (port_of flow))).
  - by rewrite activate_flow_attached.
  - rewrite activate_flow_new, members_restart_port, members_attached_state by done.
    set_solver.
Qed.

Lemma start_with_dependencies_store fuel : ∀ flow visited,
  steps (same store) (_start_with_dependencies E fuel flow visited).
Proof.
  induction fuel as [|fuel IH]; intros flow visited; simpl.
  - steps_walk same_leaf.
  - case_bool_decide; [apply steps_ret; apply _|].
    apply steps_bind; [apply _| |].
    + intros w. unfold same. by rewrite resolve_dependency_state.
    + intros [d|]; (apply steps_bind; [apply _| |intros; apply activate_flow_store]).
      * apply IH.
      * apply steps_ret; apply _.
Qed.

Lemma start_with_dependencies_attaches fuel : ∀ flow visited,
  steps attaches (_start_with_dependencies E fuel flow visited).
Proof.
  induction fuel as [|fuel IH]; intros flow visited; simpl.
  - case_bool_decide; [apply steps_ret|apply steps_raise]; apply _.
  - case_bool_decide; [apply steps_ret; apply _|].
    apply steps_bind; [apply _| |].
    + intros w. rewrite resolve_dependency_state. reflexivity.
    + intros [d|]; (apply steps_bind; [apply _| |intros; apply activate_flow_attaches]).
      * apply IH.
      * apply steps_ret; apply _.
Qed.

(** A chain that was started without error is attached, and starting it
    again in any later state with the same store changes nothing. *)
Lemma start_with_dependencies_again fuel : ∀ flow visited w w1,
  _start_with_dependencies E fuel flow visited w = (Ok tt, w1) →
  ∀ w2, store w2 = store w → attaches w1 w2 →
  _start_with_dependencies E fuel flow visited w2 = (Ok tt, w2).
Proof.
  induction fuel as [|fuel IH]; intros flow visited w w1 H w2 Hst Hatt; simpl in *.
  - case_bool_decide; [done|]. by unfold raise in H.
  - case_bool_decide as Hv; [done|].
    apply bind_inv_Ok in H as (d & wa & Hres & H).
    assert (wa = w) as ->.
    { pose proof (resolve_dependency_state flow w) as Hw. by rewrite Hres in Hw. }
    apply bind_inv_Ok in H as ([] & wb & Hchild & Hact).
    assert (_resolve_dependency E flow w2 = (Ok d, w2)) as Hres2.
    { pose proof (resolve_dependency_state flow w2) as Hw.
      pose proof (resolve_dependency_store flow w2 w Hst) as Hr. rewrite Hres in Hr.
      destruct (_resolve_dependency E flow w2) as [r w3]. simpl in *. by subst. }
    rewrite (bind_Ok _ _ _ _ _ Hres2).
    pose proof (activate_flow_attaches flow wb) as Hab. rewrite Hact in Hab.
    pose proof (activate_flow_member flow wb) as Hm. rewrite Hact in Hm. simpl in *.
    assert ((match d with
             | Some d0 => _start_with_dependencies E fuel d0 ({[id flow]} ∪ visited)
             | None => ret ()
             end) w2 = (Ok tt, w2)) as Hchild2.
    { destruct d as [d0|]; [|done].
      eapply IH; [exact Hchild|done|]. by transitivity w1. }
    rewrite (bind_Ok _ _ _ _ _ Hchild2).
    apply activate_flow_attached. by apply Hatt.
Qed.

Lemma size_list_to_set_le (l : list string) :
  (size (list_to_set l : gset string) ≤ length l)%nat.
Proof.
  induction l as [|x l IH].
  - by rewrite list_to_set_nil, size_empty.
  - rewrite list_to_set_cons, size_union_alt, size_singleton.
    assert (size (list_to_set l ∖ {[x]} : gset string)
            ≤ size (list_to_set l : gset string))%nat
      by (apply subseteq_size; set_solver).
    simpl. lia.
Qed.

(** The recursion budget is never the reason for an error: every call
    that goes down marks a flow not marked before. *)
Lemma start_with_dependencies_fuel fuel : ∀ flow visited w e w',
  (size (store_ids w ∖ visited) < fuel)%nat
  ∨ (id flow ∈ store_ids w ∧ (size (store_ids w ∖ visited) ≤ fuel)%nat) →
  _start_with_dependencies E fuel flow visited w = (Raise e, w') →
  e ≠ OutOfFuel.
Proof.
  induction fuel as [|fuel IH]; intros flow visited w e w' Hfuel H; simpl in H.
  - case_bool_decide as Hv; [done|]. exfalso.
    destruct Hfuel as [Hlt|[Hin Hle]]; [lia|].
    assert (size (store_ids w ∖ visited) ≠ 0%nat); [|lia].
    apply size_non_empty_iff. set_solver.
  - case_bool_decide as Hv; [done|].
    apply bind_inv in H as [(e' & H & [= <-])|(d & wa & Hres & H)].
    { apply resolve_dependency_raises in H. by subst. }
    assert (wa = w) as ->.
    { pose proof (resolve_dependency_state flow w) as Hw. by rewrite Hres in Hw. }
    apply bind_inv in H as [(e' & H & [= <-])|(u & wb & _ & H)].
    2: { by eapply activate_flow_fuel. }
    destruct d as [d|]; [|done].
    eapply IH; [|exact H]. right. split.
    + apply resolve_dependency_stored in Hres. unfold store_ids.
      apply elem_of_list_to_set, list_elem_of_fmap. eauto.
    + destruct Hfuel as [Hlt|[Hin Hle]].
      * assert (size (store_ids w ∖ ({[id flow]} ∪ visited))
                ≤ size (store_ids w ∖ visited))%nat
          by (apply subseteq_size; set_solver).
        lia.
      * assert (size (store_ids w ∖ ({[id flow]} ∪ visited))
                < size (store_ids w ∖ visited))%nat; [|lia].
        apply subset_size. set_solver.
Qed.

Lemma start_fuel flow w : (start E flow w).1 ≠ Raise OutOfFuel.
Proof.
  unfold start. rewrite (bind_Ok _ _ _ (store w) w) by done.
  destruct (_start_with_dependencies E (S (length (store w))) flow ∅ w)
    as [[[]|e] w1] eqn:H.
  - by rewrite (bind_Ok _ _ _ _ _ H).
  - rewrite (bind_Raise _ _ _ _ _ H). simpl. intros [= ->].
    eapply start_with_dependencies_fuel; [|exact H|done].
    left. unfold store_ids.
    assert (size (list_to_set (id <$> store w) ∖ ∅ : gset string)
            ≤ size (list_to_set (id <$> store w) : gset string))%nat
      by (apply subseteq_size; set_solver).
    pose proof (size_list_to_set_le (id <$> store w)) as Hl.
    rewrite length_fmap in Hl. lia.
Qed.
End start_twice.

(** C8 (amended).  When [start flow] returns, a second [start flow] right
    after it returns the same state dictionary and leaves the whole state
    as the first call left it: the member sets, the recorded processes and
    the helper registry are the same, and nothing was asked of the
    operating system, so no child was restarted. *)
Theorem start_twice_after_success (E : Env) (flow : Flow) (w w1 : World) (st : json) :
  start E flow w = (Ok st, w1) →
  start E flow w1 = (Ok st, w1)
  ∧ observable (start E flow w1).2 = observable w1
  ∧ tick (start E flow w1).2 = tick w1.
Proof.
  intros H.
  assert (start E flow w1 = (Ok st, w1)) as H2; [|by rewrite H2].
  unfold start in *.
  rewrite (bind_Ok _ _ _ (store w) w) in H by done.
  rewrite (bind_Ok _ _ _ (store w1) w1) by done.
  apply bind_inv_Ok in H as ([] & wa & Hswd & Hst).
  assert (wa = w1) as -> by (unfold _state, bind, gets, ret in Hst; congruence).
  pose proof (start_with_dependencies_store E (S (length (store w))) flow ∅ w) as Hs.
  rewrite Hswd in Hs. unfold same in Hs. simpl in Hs. rewrite Hs.
  rewrite (bind_Ok _ _ _ tt w1); [done|].
  eapply start_with_dependencies_again; [exact Hswd|done|reflexivity].
Qed.

Lemma start_twice_after_success_witness :
  start Env_ok echo_stored (start Env_ok echo_stored (World_of [echo_stored])).2
  = start Env_ok echo_stored (World_of [echo_stored]).
Proof.
  destruct (start_twice_after_success Env_ok echo_stored (World_of [echo_stored])
              (start Env_ok echo_stored (World_of [echo_stored])).2
              (state_of (gateway_info 8002 {[ "f-echo" ]}
                           ["mcp-proxy"; "-config"; "/srv/data/runtime/port-8002.config.json"]
                           "sse" 4000 1700000001)))
    as (H & _); [vm_compute; reflexivity|].
  rewrite H. vm_compute. reflexivity.
Defined.

(** Without an installed proxy, the first start of the reader fails while
    its upstream is activated; the second fails while the reader itself is
    activated, and only then is the reader a member of port 8001. *)
Lemma start_twice_after_failure :
  let w := World_of [echo_stored; echo_reader] in
  let r1 := start Env_no_binary echo_reader w in
  let r2 := start Env_no_binary echo_reader r1.2 in
  r1.1 = Raise (HTTPException 400 "binaire introuvable : mcp-proxy")
  ∧ r2.1 = Raise (HTTPException 400 "binaire introuvable : mcp-proxy")
  ∧ members r1.2 8001 = ∅
  ∧ members r2.2 8001 = {[ "f-reader" ]}
  ∧ observable r2.2 ≠ observable r1.2.
Proof.
  assert (members (start Env_no_binary echo_reader (World_of [echo_stored; echo_reader])).2
            8001 = ∅) as H1 by (vm_compute; reflexivity).
  assert (members (start Env_no_binary echo_reader
                     (start Env_no_binary echo_reader
                        (World_of [echo_stored; echo_reader])).2).2 8001
          = {[ "f-reader" ]}) as H2 by (vm_compute; reflexivity).
  split; [vm_compute; reflexivity|]. split; [vm_compute; reflexivity|].
  split; [done|]. split; [done|].
  intros Hobs. apply (f_equal (λ x, x.1.1)) in Hobs. unfold observable in Hobs.
  simpl in Hobs. unfold members in H1, H2. rewrite Hobs, H1 in H2.
  set_solver.
Qed.

(** ** Events and labels *)

Section events.
Context (E : Env).

Lemma steps_do_broadcast (P : json → Prop) payload :
  P payload → steps (emits P) (do_broadcast payload).
Proof.
  intros HP w. exists [payload]. split; [done|]. by constructor.
Qed.

Ltac emits_leaf :=
  first
    [ apply steps_do_broadcast; done
    | intros; exists []; split; [simpl; by rewrite app_nil_r|constructor] ].

Lemma restart_port_emits p :
  steps (emits (λ e, flowId_is ("port-" +:+ pretty p) e
                     ∧ jget "type" e = Some (JStr "flow_started")))
    (_restart_port E p).
Proof.
  unfold _restart_port, build_port_config, spawn_gateway, _terminate_port,
    openapi_round, proxy_round, _ensure_openapi_helper, _stop_openapi_helper,
    _wait_port, _wait_upstream_ready, do_urlparse, get_port, _find_free_port,
    logger_info, logger_warning, store_list.
  steps_walk emits_leaf.
Qed.

Lemma stop_openapi_helper_events fid : steps (same events) (_stop_openapi_helper E fid).
Proof. open_manager. steps_walk same_leaf. Qed.

Lemma stop_openapi_helper_tick_free fid w :
  events (_stop_openapi_helper E fid w).2 = events w.
Proof. apply stop_openapi_helper_events. Qed.

Lemma line_events_flowId l t lines : Forall (flowId_is l) (line_events E l t lines).
Proof.
  revert t. induction lines as [|text rest IH]; intros t; simpl; [constructor|].
  constructor; [done|apply IH].
Qed.

Lemma pump_events_flowId l t lines rc : Forall (flowId_is l) (pump_events E l t lines rc).
Proof.
  unfold pump_events. apply Forall_app. split; [apply line_events_flowId|].
  by repeat constructor.
Qed.

Lemma pump_lines lines : ∀ info w,
  ∃ info' w',
    for_each (pump_line E) lines info w = (Ok info', w')
    ∧ label info' = label info
    ∧ flow_ids info' = flow_ids info
    ∧ events w' = (events w ++ line_events E (label info) (tick w) lines)%list
    ∧ tick w' = (tick w + length lines)%nat.
Proof.
  induction lines as [|text rest IH]; intros info w; simpl.
  - exists info, w. rewrite app_nil_r. repeat split; first [done|lia].
  - unfold pump_line at 1. unfold bind at 1 2 3, ask, do_broadcast, modify, ret.
    simpl.
    match goal with |- context [for_each _ rest ?i ?w0] =>
      destruct (IH i w0) as (info' & w' & -> & Hl & Hf & Hev & Ht) end.
    exists info', w'. split; [done|]. simpl in *.
    split; [done|]. split; [done|]. rewrite Hev, Ht, <- app_assoc. split; [done|lia].
Qed.

(** The broadcasts of a pump are the events of its label, whatever flows
    are attached. *)
Lemma pipe_logs_events info lines rc w :
  events (_pipe_logs E info lines rc w).2
  = (events w ++ pump_events E (label info) (tick w) lines rc)%list.
Proof.
  unfold _pipe_logs.
  destruct (pump_lines lines info w) as (info' & w' & Hrun & Hl & Hf & Hev & Ht).
  rewrite (bind_Ok _ _ _ _ _ Hrun).
  unfold bind at 1, logger_info, modify.
  unfold bind at 1, ask. unfold bind at 1, do_broadcast, modify.
  unfold bind at 1, store_list, gets.
  match goal with |- context [bind (for_each ?b ?ids tt) _ ?w0] =>
    assert (steps (same events) (for_each b ids tt)) as Hsteps;
    [|pose proof (Hsteps w0) as Hs; unfold bind;
      destruct (for_each b ids tt w0) as [[[]|e] w1]]
  end.
  { steps_walk same_leaf. apply stop_openapi_helper_events. }
  all: unfold same in Hs; simpl in Hs |- *; rewrite Hs; simpl;
    rewrite Hev, Ht, Hl, <- app_assoc; reflexivity.
Qed.

Ltac labels_leaf :=
  intros; unfold keeps;
  first
    [ intros H; exact H
    | intros [Hp Hh]; split; simpl; intros ? ? Hin;
      first [ apply elem_of_dict_set in Hin as [[= -> ->]|Hin]
            | apply elem_of_dict_del in Hin
            | idtac ];
      eauto ].

Lemma restart_port_labels p : steps (keeps labels_ok) (_restart_port E p).
Proof. unfold _restart_port. open_manager. steps_walk labels_leaf. Qed.

Lemma terminate_port_labels p : steps (keeps labels_ok) (_terminate_port E p).
Proof. open_manager. steps_walk labels_leaf. Qed.

Lemma stop_openapi_helper_labels fid : steps (keeps labels_ok) (_stop_openapi_helper E fid).
Proof. open_manager. steps_walk labels_leaf. Qed.

Lemma activate_flow_labels flow : steps (keeps labels_ok) (_activate_flow E flow).
Proof.
  intros w. destruct (decide (id flow ∈ members w (port_of flow))).
  - by rewrite activate_flow_attached.
  - rewrite activate_flow_new by done. intros H. by apply restart_port_labels.
Qed.

Lemma start_with_dependencies_labels fuel : ∀ flow visited,
  steps (keeps labels_ok) (_start_with_dependencies E fuel flow visited).
Proof.
  induction fuel as [|fuel IH]; intros flow visited; simpl.
  - case_bool_decide; [apply steps_ret|apply steps_raise]; apply _.
  - case_bool_decide; [apply steps_ret; apply _|].
    apply steps_bind; [apply _| |].
    + intros w. by rewrite resolve_dependency_state.
    + intros [d|]; (apply steps_bind; [apply _| |intros; apply activate_flow_labels]).
      * apply IH.
      * apply steps_ret; apply _.
Qed.

Lemma start_labels flow : steps (keeps labels_ok) (start E flow).
Proof.
  unfold start, store_list, _state.
  steps_walk ltac:(first [apply start_with_dependencies_labels | labels_leaf]).
Qed.

Lemma stop_labels fid : steps (keeps labels_ok) (stop E fid).
Proof.
  unfold stop, _state.
  steps_walk ltac:(first [ apply restart_port_labels | apply terminate_port_labels
                         | apply stop_openapi_helper_labels | labels_leaf ]).
Qed.

Lemma delete_flow_labels fid : steps (keeps labels_ok) (delete_flow E fid).
Proof.
  unfold delete_flow, store_delete, store_list, logger_info.
  steps_walk ltac:(first [ apply restart_port_labels | apply terminate_port_labels
                         | apply stop_openapi_helper_labels | labels_leaf ]).
Qed.

Lemma labels_ok_init : labels_ok World_init.
Proof. split; intros ? ? Hin; by apply elem_of_nil in Hin. Qed.
End events.

(** C10.  Every event a port restart broadcasts is a [flow_started] whose
    [flowId] is "port-<P>".  The events of a log pump are one [log] per line
    and a final [flow_exited], each with the label of the pump's
    [ProcessInfo] as [flowId]; they are the same whatever flows the record
    lists, so they do not tell the flows of a port apart.  Every record in
    [processes] is labelled "port-<P>" with its port and every helper
    "openapi-<flow_id>": this holds at the beginning and is kept by start,
    stop and delete, so the pump of a recorded gateway child broadcasts
    under "port-<P>" and the pump of a helper under "openapi-<flow_id>". *)
Theorem child_events_carry_the_port_label (E : Env) :
  (∀ p w, ∃ evs,
     events (_restart_port E p w).2 = (events w ++ evs)%list
     ∧ Forall (λ e, flowId_is ("port-" +:+ pretty p) e
                    ∧ jget "type" e = Some (JStr "flow_started")) evs)
  ∧ (∀ info lines rc w,
       events (_pipe_logs E info lines rc w).2
       = (events w ++ pump_events E (label info) (tick w) lines rc)%list
       ∧ Forall (flowId_is (label info)) (pump_events E (label info) (tick w) lines rc))
  ∧ (∀ info ids lines rc w,
       events (_pipe_logs E (with_flow_ids ids info) lines rc w).2
       = events (_pipe_logs E info lines rc w).2)
  ∧ labels_ok World_init
  ∧ (∀ w, labels_ok w →
       (∀ flow, labels_ok (start E flow w).2)
       ∧ (∀ flow_id, labels_ok (stop E flow_id w).2)
       ∧ (∀ flow_id, labels_ok (delete_flow E flow_id w).2)
       ∧ (∀ p info t lines rc,
            (p, info) ∈ processes w →
            Forall (flowId_is ("port-" +:+ pretty p))
              (pump_events E (label info) t lines rc))
       ∧ (∀ flow_id info t lines rc,
            (flow_id, info) ∈ openapi_helpers w →
            Forall (flowId_is ("openapi-" +:+ flow_id))
              (pump_events E (label info) t lines rc))).
Proof.
  split; [|split; [|split; [|split]]].
  - intros p w. apply (restart_port_emits E p w).
  - intros info lines rc w. split; [apply pipe_logs_events|apply pump_events_flowId].
  - intros info ids lines rc w. by rewrite !pipe_logs_events.
  - apply labels_ok_init.
  - intros w Hw. split; [|split; [|split; [|split]]].
    + intros flow. by apply start_labels.
    + intros flow_id. by apply stop_labels.
    + intros flow_id. by apply delete_flow_labels.
    + intros p info t lines rc Hin. destruct Hw as [Hp _].
      rewrite <- (Hp _ _ Hin). apply pump_events_flowId.
    + intros flow_id info t lines rc Hin. destruct Hw as [_ Hh].
      rewrite <- (Hh _ _ Hin). apply pump_events_flowId.
Qed.

(** ** The echo scenario *)

Section echo.
Context (E : Env).

Lemma create_echo :
  ∃ resp w1,
    create_flow E echo_create World_init = (Ok resp, w1)
    ∧ base (resp_flow resp) = with_derived (Some "echo") echo_base
    ∧ store w1 = [resp_flow resp]
    ∧ active_ports w1 = []
    ∧ processes w1 = [].
Proof.
  eexists _, _. split.
  - unfold create_flow, bind, ask, ret, store_upsert, logger_info, modify, _state, gets.
    simpl. reflexivity.
  - done.
Qed.

Lemma flows_on_single ids flow :
  id flow ∈ ids → flows_on ids [flow] = [flow].
Proof.
  intros Hin. unfold flows_on. simpl. by rewrite bool_decide_eq_true_2.
Qed.

Lemma restart_echo_port flow w pid_ :
  base flow = with_derived (Some "echo") echo_base →
  store w = [flow] →
  members w 8002 = {[ id flow ]} →
  processes w = [] →
  create_subprocess_exec E (tick w)
    [PROXY_BINARY E; "-config"; RUNTIME_DIR E +:+ "/port-8002.config.json"] = Some pid_ →
  let cmd := [PROXY_BINARY E; "-config"; RUNTIME_DIR E +:+ "/port-8002.config.json"] in
  let info := gateway_info 8002 {[ id flow ]} cmd "sse" pid_ (time_time E (S (tick w))) in
  ∃ w',
    _restart_port E 8002 w = (Ok tt, w')
    ∧ processes w' = [(8002, info)]
    ∧ files w'
      = dict_set (RUNTIME_DIR E +:+ "/port-8002.config.json")
          (proxy_config "http://0.0.0.0:8002" 8002 "sse" [("echo", echo_entry)])
          (files w).
Proof.
  intros Hbase Hstore Hmem Hprocs Hspawn cmd info.
  unfold _restart_port.
  assert (_terminate_port E 8002 w = (Ok tt, set_processes [] w)) as Ht.
  { unfold _terminate_port, bind, gets, modify, ret. rewrite Hprocs. simpl.
    by rewrite Hprocs. }
  rewrite (bind_Ok _ _ _ _ _ Ht).
  unfold bind at 1, gets. unfold bind at 1, store_list, gets.
  change (default ∅ (dict_get 8002 (active_ports (set_processes [] w))))
    with (members w 8002).
  change (store (set_processes [] w)) with (store w).
  rewrite Hmem, Hstore, flows_on_single by set_solver.
  unfold build_port_config. simpl bool_decide. cbv iota.
  unfold for_each, proxy_round. rewrite Hbase. simpl.
  unfold bind, ret, modify, logger_info, modify. simpl.
  change ("/port-" +:+ pretty 8002 +:+ ".config.json") with "/port-8002.config.json".
  change ("http://" +:+ "0.0.0.0" +:+ ":" +:+ pretty 8002) with "http://0.0.0.0:8002".
  change (server_key_for (with_derived (Some "echo") echo_base) []) with "echo".
  change (JObj (strip_blank (stdio_entry (with_derived (Some "echo") echo_base))))
    with echo_entry.
  rewrite spawn_gateway_eq. simpl tick. rewrite Hspawn.
  eexists. split; [reflexivity|]. simpl. done.
Qed.

Lemma resolve_dependency_stdio flow w :
  source_type (base flow) = EP_STDIO → _resolve_dependency E flow w = (Ok None, w).
Proof. intros H. unfold _resolve_dependency. by rewrite H. Qed.
End echo.

(** C3 (amended).  Creating the echo flow on a fresh service stores one
    record whose route is "echo".  Starting that flow where it is the only
    stored flow, no port has members and the proxy binary spawns, returns a
    state with [running = true] whose command, also recorded for port 8002,
    is [<proxy_binary>, "-config", "<runtime_dir>/port-8002.config.json"];
    the file of that name holds [mcpProxy.addr = ":8002"],
    [mcpProxy.type = "sse"] and
    [mcpServers.echo = {command: "/bin/echo", args: ["hi"]}]: the empty
    [env] is stripped. *)
Theorem echo_flow_start (E : Env) :
  (∃ resp w1,
     create_flow E echo_create World_init = (Ok resp, w1)
     ∧ base (resp_flow resp) = with_derived (Some "echo") echo_base
     ∧ store w1 = [resp_flow resp]
     ∧ active_ports w1 = []
     ∧ processes w1 = [])
  ∧ ∀ flow w pid_,
      let config_path := RUNTIME_DIR E +:+ "/port-8002.config.json" in
      let cmd := [PROXY_BINARY E; "-config"; config_path] in
      base flow = with_derived (Some "echo") echo_base →
      store w = [flow] →
      active_ports w = [] →
      processes w = [] →
      create_subprocess_exec E (tick w) cmd = Some pid_ →
      ∃ st w',
        start E flow w = (Ok st, w')
        ∧ jget "running" st = Some (JBool true)
        ∧ jget "command" st = Some (JList (JStr <$> cmd))
        ∧ (∃ info, processes w' = [(8002, info)]
                   ∧ pi_command info = cmd
                   ∧ pid (process info) = pid_)
        ∧ ∃ config mcpProxy mcpServers,
            dict_get config_path (files w') = Some config
            ∧ jget "mcpProxy" config = Some mcpProxy
            ∧ jget "addr" mcpProxy = Some (JStr ":8002")
            ∧ jget "type" mcpProxy = Some (JStr "sse")
            ∧ jget "mcpServers" config = Some mcpServers
            ∧ jget "echo" mcpServers = Some echo_entry
            ∧ jget "env" echo_entry = None.
Proof.
  split; [apply create_echo|].
  intros flow w pid_ config_path cmd Hbase Hstore Hports Hprocs Hspawn.
  assert (port_of flow = 8002) as Hport by (unfold port_of; by rewrite Hbase).
  assert (members w 8002 = ∅) as Hmem by (unfold members; by rewrite Hports).
  rewrite start_no_dependency
    by (apply resolve_dependency_stdio; by rewrite Hbase).
  assert (members (attached_state flow w) 8002 = {[ id flow ]}) as Hmem'.
  { rewrite <- Hport at 1. rewrite members_attached_state, Hport, Hmem. set_solver. }
  destruct (restart_echo_port E flow (attached_state flow w) pid_ Hbase Hstore Hmem'
              Hprocs Hspawn)
    as (w' & Hrestart & Hp & Hf).
  assert (_activate_flow E flow w = (Ok tt, w')) as Hact.
  { rewrite activate_flow_new by (rewrite Hport, Hmem; set_solver). by rewrite Hport. }
  rewrite (bind_Ok _ _ _ _ _ Hact).
  match type of Hp with _ = [(_, ?i)] => set (info := i) in * end.
  assert (_state (id flow) w' = (Ok (state_of info), w')) as Hst.
  { unfold _state, bind, gets, ret. rewrite Hp. simpl List.find.
    rewrite bool_decide_eq_true_2 by (simpl; set_solver). done. }
  rewrite Hst. exists (state_of info), w'.
  split; [done|]. split; [done|]. split; [done|].
  split; [by exists info|].
  rewrite Hf, dict_get_set.
  eexists _, _, _. split; [reflexivity|]. repeat split.
Qed.

Lemma echo_flow_start_witness :
  ∃ st w',
    start Env_ok
      {| base := with_derived (Some "echo") echo_base; id := "flow-0";
         created_at := 1700000001; updated_at := 1700000001;
         previous := PreviousConfig_default |}
      (create_flow Env_ok echo_create World_init).2 = (Ok st, w')
    ∧ jget "running" st = Some (JBool true).
Proof.
  destruct (echo_flow_start Env_ok) as (_ & H).
  destruct (H {| base := with_derived (Some "echo") echo_base; id := "flow-0";
                 created_at := 1700000001; updated_at := 1700000001;
                 previous := PreviousConfig_default |}
              (create_flow Env_ok echo_create World_init).2 4002)
    as (st & w' & Hstart & Hrun & _);
    [reflexivity|vm_compute; reflexivity|reflexivity|reflexivity|reflexivity|].
  exists st, w'. by split.
Defined.

(** In the file written for the echo flow the entry has no [env] key, so it
    is not the entry with an empty [env]. *)
Lemma echo_entry_has_no_env :
  let r1 := create_flow Env_ok echo_create World_init in
  let r2 := start_flow Env_ok "flow-0" r1.2 in
  ∃ st config mcpServers entry,
    r2.1 = Ok st
    ∧ jget "running" st = Some (JBool true)
    ∧ dict_get "/srv/data/runtime/port-8002.config.json" (files r2.2) = Some config
    ∧ jget "mcpServers" config = Some mcpServers
    ∧ jget "echo" mcpServers = Some entry
    ∧ jget "env" entry = None
    ∧ entry ≠ echo_entry_with_env.
Proof.
  eexists _, _, _, _. split; [vm_compute; reflexivity|]. split; [reflexivity|].
  split; [vm_compute; reflexivity|]. split; [reflexivity|]. split; [reflexivity|].
  split; [reflexivity|]. discriminate.
Qed.

(** ** A stdio source on the OpenAPI port *)

(** In the loop of the OpenAPI port the entry of a stdio source is
    assigned and then overwritten by the remote entry, built from the
    [upstream_url] the previous rounds left: the round raises when there is
    none, and otherwise the entry is a remote one without a command. *)
Lemma openapi_round_stdio (E : Env) (settings : Settings) (flow : Flow)
    (servers : list (string * json)) (upstream_var : option string) (w : World) :
  source_type (base flow) = EP_STDIO →
  match upstream_var with
  | None =>
      openapi_round E settings flow (servers, upstream_var) w
      = (Raise (UnboundLocalError "upstream_url"), w)
  | Some u =>
      ∃ servers' entry,
        openapi_round E settings flow (servers, upstream_var) w
        = (Ok (servers', upstream_var), w)
        ∧ dict_get (server_key_for (base flow) servers) servers' = Some entry
        ∧ jget "command" entry = None
        ∧ jget "type" entry = Some (JStr "sse")
        ∧ jget "url" entry = Some (JStr u)
  end.
Proof.
  intros Hsrc. unfold openapi_round. rewrite Hsrc. simpl bool_decide. cbv iota.
  destruct upstream_var as [u|]; [|done].
  eexists _, _. split; [reflexivity|]. rewrite dict_get_set. split; [done|].
  unfold openapi_entry, strip_blank. rewrite Hsrc. simpl bool_decide. cbv iota.
  rewrite !filter_cons. simpl.
  destruct (decide (is_blank (headers_map (headers (base flow))) = false));
    by repeat split.
Qed.

(** C2: the code on a stdio source attached to the OpenAPI port.  Alone on
    the port, the restart raises [UnboundLocalError] and writes no file.
    After a remote source, the file holds for the stdio flow the remote
    flow's entry: a type and a url, and no command. *)
Theorem stdio_source_on_openapi_port :
  let alone := start Env_ok tool_stored (World_of [tool_stored]) in
  let first := start Env_ok remote_stored (World_of [remote_stored; tool_stored]) in
  let second := start Env_ok tool_stored first.2 in
  source_type (base tool_stored) = EP_STDIO
  ∧ port_of tool_stored = openapi_port settings_store_get
  ∧ alone.1 = Raise (UnboundLocalError "upstream_url")
  ∧ files alone.2 = []
  ∧ "f-tool" ∈ members second.2 8003
  ∧ dict_get "/srv/data/runtime/port-8003-openapi.config.json" (files second.2)
    = Some (JObj [("mcpServers",
                   JObj [("remote", JObj [("type", JStr "sse");
                                          ("url", JStr "http://remote.example:9000/sse")]);
                         ("tool", JObj [("type", JStr "sse");
                                        ("url", JStr "http://remote.example:9000/sse")])])]).
Proof.
  assert (members (start Env_ok tool_stored
                     (start Env_ok remote_stored
                        (World_of [remote_stored; tool_stored])).2).2 8003
          = {[ "f-remote"; "f-tool" ]}) as Hm by (vm_compute; reflexivity).
  split; [reflexivity|]. split; [reflexivity|]. split; [vm_compute; reflexivity|].
  split; [vm_compute; reflexivity|]. split; [rewrite Hm; set_solver|].
  vm_compute. reflexivity.
Qed.

(** ** The key of a server is free *)

Lemma string_length_app (a b : string) :
  String.length (a +:+ b) = (String.length a + String.length b)%nat.
Proof.
  induction a as [|c a IH]; [done|].
  change (String c a +:+ b) with (String c (a +:+ b)). simpl. by rewrite IH.
Qed.

Lemma suffixed_ne_base (base_key : string) (j : Z) :
  base_key +:+ "-" +:+ pretty j ≠ base_key.
Proof.
  intros H. apply (f_equal String.length) in H.
  rewrite !string_length_app in H. simpl in H. lia.
Qed.

Lemma suffixed_inj (base_key : string) (i j : Z) :
  base_key +:+ "-" +:+ pretty i = base_key +:+ "-" +:+ pretty j → i = j.
Proof.
  intros H. apply String.app_inj in H. apply (String.app_inj "-") in H.
  by apply pretty_Z_inj in H.
Qed.

Lemma dict_mem_elem_of {V} (k : string) (d : list (string * V)) :
  dict_mem k d = true → k ∈ d.*1.
Proof.
  unfold dict_mem. induction d as [|[k' v] d IH]; simpl; [done|].
  destruct (decide (k' = k)) as [->|]; [set_solver|].
  intros H. apply elem_of_cons. right. by apply IH.
Qed.

(** The loop that picks a key leaves with a key that is not taken: the keys
    tried so far are distinct keys of the dictionary, so the budget of
    [len(servers)] rounds cannot be used up. *)
Lemma fresh_key_free (servers : list (string * json)) (base_key : string) :
  ∀ fuel server_key i (tried : list string),
    NoDup tried →
    (∀ k, k ∈ tried → k ∈ servers.*1) →
    server_key ∉ tried →
    (∀ j, i ≤ j → (base_key +:+ "-" +:+ pretty j ∉ tried)
                  ∧ base_key +:+ "-" +:+ pretty j ≠ server_key) →
    (length servers ≤ length tried + fuel)%nat →
    dict_mem (fresh_key fuel base_key server_key i servers) servers = false.
Proof.
  induction fuel as [|fuel IH]; intros key i tried Hnd Hsub Hkey Hnext Hlen; simpl.
  - destruct (dict_mem key servers) eqn:Hm; [|done]. exfalso.
    assert (length (key :: tried) ≤ length servers.*1)%nat as Hle.
    { apply submseteq_length, NoDup_submseteq; [by constructor|].
      intros k Hk. apply elem_of_cons in Hk as [->|Hk]; [|by apply Hsub].
      by apply dict_mem_elem_of. }
    rewrite length_fmap in Hle. simpl in Hle. lia.
  - destruct (dict_mem key servers) eqn:Hm; [|done].
    apply (IH _ _ (key :: tried)).
    + by constructor.
    + intros k Hk. apply elem_of_cons in Hk as [->|Hk]; [|by apply Hsub].
      by apply dict_mem_elem_of.
    + destruct (Hnext i) as [Hi1 Hi2]; [lia|]. set_solver.
    + intros j Hj. destruct (Hnext j) as [Hj1 Hj2]; [lia|]. split.
      * set_solver.
      * intros Heq. apply suffixed_inj in Heq. lia.
    + simpl. lia.
Qed.

Lemma server_key_for_free (b : FlowBase) (servers : list (string * json)) :
  dict_mem (server_key_for b servers) servers = false.
Proof.
  unfold server_key_for. apply (fresh_key_free _ _ _ _ _ []).
  - constructor.
  - intros k Hk. by apply elem_of_nil in Hk.
  - apply not_elem_of_nil.
  - intros j _. split; [apply not_elem_of_nil|apply suffixed_ne_base].
  - simpl. lia.
Qed.

(** A subscriber that does not read is dropped by the 101st event, and the
    subscriber that reads receives them all. *)
Example slow_subscriber_dropped :
  let b0 := (register (register EventBroadcaster_init).2).2 in
  let ops := mjoin (replicate 101 [OpBroadcast (JStr "tick"); OpConsume 1]) in
  let b := bc_run ops b0 in
  listeners b0 = [0; 1]%nat
  ∧ listeners b = [1]%nat
  ∧ length (pending b 0) = 100%nat
  ∧ consumed 1 ops b0 = replicate 101 (JStr "tick").
Proof. vm_compute. done. Qed.

(** ** The store *)

Lemma find_upsert_list flow flows :
  List.find (λ f, bool_decide (id f = id flow)) (upsert_list flow flows) = Some flow.
Proof.
  induction flows as [|f flows IH]; simpl.
  - by rewrite bool_decide_eq_true_2.
  - case_bool_decide as Hid; simpl.
    + by rewrite bool_decide_eq_true_2.
    + by rewrite bool_decide_eq_false_2.
Qed.

Lemma find_upsert_list_ne flow flows j :
  j ≠ id flow →
  List.find (λ f, bool_decide (id f = j)) (upsert_list flow flows)
  = List.find (λ f, bool_decide (id f = j)) flows.
Proof.
  intros Hj. induction flows as [|f flows IH]; simpl.
  - by rewrite bool_decide_eq_false_2.
  - case_bool_decide as Hid; simpl.
    + rewrite bool_decide_eq_false_2 by done.
      rewrite bool_decide_eq_false_2 by congruence. done.
    + by rewrite IH.
Qed.

(** X1.  [upsert] followed by [get] of the same id answers with the record
    just written, whatever the store held (also when it held several
    records under that id: the first one was overwritten, and [get]
    answers with the first); [get] of any other id answers as before. *)
Theorem upsert_then_get (flow : Flow) (w : World) :
  (store_upsert flow;; store_get (id flow)) w
  = (Ok flow, set_store (upsert_list flow (store w)) w)
  ∧ ∀ j, j ≠ id flow →
      (store_get j (store_upsert flow w).2).1 = (store_get j w).1.
Proof.
  split.
  - unfold bind, store_upsert, modify. simpl.
    rewrite store_get_find. simpl. by rewrite find_upsert_list.
  - intros j Hj. rewrite !store_get_find. unfold store_upsert, modify. simpl.
    rewrite find_upsert_list_ne by done. by destruct (List.find _ _).
Qed.

Lemma upsert_then_get_witness :
  (store_get "a" (store_upsert echo_stored (World_of [upstream_a])).2).1
  = Ok upstream_a.
Proof.
  destruct (upsert_then_get echo_stored (World_of [upstream_a])) as [_ H].
  rewrite (H "a"); [reflexivity|]. vm_compute. discriminate.
Defined.

Lemma ids_of_upsert_list flow flows :
  ids_of (upsert_list flow flows)
  = if bool_decide (id flow ∈ ids_of flows) then ids_of flows
    else (ids_of flows ++ [id flow])%list.
Proof.
  unfold ids_of. induction flows as [|f flows IH]; [done|].
  cbn [upsert_list]. rewrite (fmap_cons id f flows).
  destruct (decide (id f = id flow)) as [Hid|Hid].
  - rewrite (bool_decide_eq_true_2 (id f = id flow)) by done.
    rewrite fmap_cons, bool_decide_eq_true_2; [by rewrite Hid|]. rewrite Hid. by left.
  - rewrite (bool_decide_eq_false_2 (id f = id flow)) by done.
    rewrite fmap_cons, IH. destruct (decide (id flow ∈ id <$> flows)) as [Hin|Hin].
    + rewrite (bool_decide_eq_true_2 (id flow ∈ id <$> flows)) by done.
      rewrite bool_decide_eq_true_2; [done|]. by right.
    + rewrite (bool_decide_eq_false_2 (id flow ∈ id <$> flows)) by done.
      rewrite bool_decide_eq_false_2; [done|].
      intros [?|?]%elem_of_cons; congruence.
Qed.

Lemma NoDup_upsert_list flow flows :
  NoDup (ids_of flows) → NoDup (ids_of (upsert_list flow flows)).
Proof.
  intros Hnd. rewrite ids_of_upsert_list. case_bool_decide as Hin; [done|].
  apply NoDup_app. split; [done|]. split; [|apply NoDup_singleton].
  intros x Hx ->%list_elem_of_singleton. done.
Qed.

(** X2.  [upsert] never reorders the store and never adds a second record
    under an id: the sequence of ids is the one before when the id was
    stored, and the one before followed by the new id otherwise.  So a
    store in which no id is repeated stays one. *)
Theorem upsert_keeps_id_sequence (flow : Flow) (flows : list Flow) :
  ids_of (upsert_list flow flows)
  = (if bool_decide (id flow ∈ ids_of flows) then ids_of flows
     else (ids_of flows ++ [id flow])%list)
  ∧ (NoDup (ids_of flows) → NoDup (ids_of (upsert_list flow flows))).
Proof. split; [apply ids_of_upsert_list|apply NoDup_upsert_list]. Qed.

Lemma upsert_keeps_id_sequence_witness :
  NoDup (ids_of (upsert_list echo_stored [upstream_a; echo_stored])).
Proof.
  apply (proj2 (upsert_keeps_id_sequence echo_stored [upstream_a; echo_stored])).
  vm_compute. repeat constructor; intros H; inversion H as [|? ? ? H']; subst;
    inversion H'.
Defined.

Lemma filter_length_eq {A} (f : A → bool) (l : list A) :
  length (List.filter f l) = length l ↔ Forall (λ x, f x = true) l.
Proof.
  induction l as [|x l IH]; simpl.
  - split; [constructor|done].
  - pose proof (List.filter_length_le f l) as Hle.
    destruct (f x) eqn:Ex; simpl.
    + split.
      * intros [= H]. constructor; [done|by apply IH].
      * intros H. inversion H; subst. f_equal. by apply IH.
    + split; [lia|]. intros H. inversion H; subst. congruence.
Qed.

Lemma store_delete_eq flow_id w :
  store_delete flow_id w
  = if bool_decide (flow_id ∈ ids_of (store w))
    then (Ok tt, set_store (without_id flow_id (store w)) w)
    else (Raise (HTTPException 404 "Flux introuvable"), w).
Proof.
  unfold store_delete, store_list, bind, gets, modify, raise, without_id, ids_of.
  case_bool_decide as Hlen.
  - rewrite bool_decide_eq_false_2; [done|].
    apply filter_length_eq in Hlen. rewrite Forall_forall in Hlen.
    intros (f & Hid & Hin)%list_elem_of_fmap.
    specialize (Hlen f Hin). apply negb_true_iff, bool_decide_eq_false in Hlen.
    congruence.
  - rewrite bool_decide_eq_true_2; [done|].
    destruct (decide (flow_id ∈ id <$> store w)) as [|Hn]; [done|].
    exfalso. apply Hlen, filter_length_eq, Forall_forall. intros f Hin.
    apply negb_true_iff, bool_decide_eq_false. intros Hid. apply Hn.
    apply list_elem_of_fmap. eauto.
Qed.

Lemma ids_of_without_id flow_id flows :
  ids_of (without_id flow_id flows)
  = List.filter (λ i, negb (bool_decide (i = flow_id))) (ids_of flows).
Proof.
  unfold ids_of, without_id. induction flows as [|f flows IH]; [done|].
  rewrite fmap_cons. cbn [List.filter].
  destruct (negb (bool_decide (id f = flow_id))); rewrite ?fmap_cons; by rewrite IH.
Qed.

Lemma find_without_id flow_id flows :
  List.find (λ f, bool_decide (id f = flow_id)) (without_id flow_id flows) = None.
Proof.
  unfold without_id. induction flows as [|f flows IH]; simpl; [done|].
  case_bool_decide as Hid; simpl; [done|]. by rewrite bool_decide_eq_false_2.
Qed.

(** X3.  [delete] of an id that no record carries raises status 404 and
    leaves the store as it was.  Otherwise it returns, every record with
    that id is gone (a following [get] raises 404) and the other records
    keep their order. *)
Theorem store_delete_spec (flow_id : string) (w : World) :
  let r := store_delete flow_id w in
  if bool_decide (flow_id ∈ ids_of (store w))
  then r.1 = Ok tt
       ∧ store r.2 = without_id flow_id (store w)
       ∧ ids_of (store r.2)
         = List.filter (λ i, negb (bool_decide (i = flow_id))) (ids_of (store w))
       ∧ store_get flow_id r.2 = (Raise (HTTPException 404 "Flux introuvable"), r.2)
  else r = (Raise (HTTPException 404 "Flux introuvable"), w).
Proof.
  intros r. subst r. rewrite store_delete_eq.
  case_bool_decide as Hin; [|done]. simpl.
  split; [done|]. split; [done|]. split; [apply ids_of_without_id|].
  rewrite store_get_find. simpl. by rewrite find_without_id.
Qed.

(** Both records under "f-echo" are removed at once; the one in between
    stays. *)
Example store_delete_duplicates :
  store (store_delete "f-echo" echo_twice).2 = [upstream_a].
Proof. reflexivity. Qed.

(** ** The handlers and the store *)

Lemma state_eq flow_id w : ∃ st, _state flow_id w = (Ok st, w).
Proof. unfold _state, bind, gets, ret. eauto. Qed.

Lemma manager_logs_eq flow_id w :
  ∃ l, manager_logs flow_id w = (Ok l, w) ∧ (length l ≤ 200)%nat.
Proof.
  unfold manager_logs, bind, gets, ret. eexists. split; [done|].
  destruct (List.find _ _) as [pi|]; simpl; [|lia].
  unfold last_n. rewrite length_drop. lia.
Qed.

Lemma list_flows_loop flows : ∀ acc w,
  ∃ result,
    for_each (λ flow result,
        let* state := _state (id flow) in
        let* logs_ := manager_logs (id flow) in
        ret (result ++ [flow_response flow state logs_])%list) flows acc w
    = (Ok (acc ++ result)%list, w)
    ∧ resp_flow <$> result = flows
    ∧ Forall (λ r, (_state (id (resp_flow r)) w).1 = Ok (resp_state r)
                   ∧ (manager_logs (id (resp_flow r)) w).1 = Ok (resp_logs r)
                   ∧ (length (resp_logs r) ≤ 200)%nat
                   ∧ resp_last_event r = state_last_event (resp_state r)) result.
Proof.
  induction flows as [|flow flows IH]; intros acc w.
  - exists []. simpl. unfold ret. by rewrite app_nil_r.
  - destruct (state_eq (id flow) w) as [st Hst].
    destruct (manager_logs_eq (id flow) w) as (l & Hl & Hlen).
    cbn [for_each].
    destruct (IH (acc ++ [flow_response flow st l])%list w) as (result & Hrun & Hfl & Hall).
    exists (flow_response flow st l :: result).
    split.
    + unfold bind at 1. unfold bind at 1. rewrite Hst.
      unfold bind at 1. rewrite Hl. unfold ret at 1.
      rewrite Hrun. by rewrite <- app_assoc.
    + split; [by rewrite fmap_cons, Hfl|].
      constructor; [|done]. unfold flow_response.
      cbn [resp_flow resp_state resp_logs resp_last_event]. by rewrite Hst, Hl.
Qed.

(** X4.  [list_flows] only reads: it returns and leaves the whole state as
    it was.  It answers with one response per stored record, in the order
    of the store; each holds the state and the logs the manager reports
    for that record at that moment, at most 200 log lines, and the
    [last_event] of the state. *)
Theorem list_flows_reads (w : World) :
  ∃ result,
    list_flows w = (Ok result, w)
    ∧ resp_flow <$> result = store w
    ∧ Forall (λ r, (_state (id (resp_flow r)) w).1 = Ok (resp_state r)
                   ∧ (manager_logs (id (resp_flow r)) w).1 = Ok (resp_logs r)
                   ∧ (length (resp_logs r) ≤ 200)%nat
                   ∧ resp_last_event r = state_last_event (resp_state r)) result.
Proof.
  destruct (list_flows_loop (store w) [] w) as (result & Hrun & H).
  exists result. split; [|done].
  unfold list_flows, store_list. unfold bind at 1, gets. exact Hrun.
Qed.

Lemma store_get_unknown flow_id w :
  flow_id ∉ ids_of (store w) → store_get flow_id w = (Raise not_found, w).
Proof.
  intros Hn. rewrite store_get_find.
  destruct (List.find _ _) as [f|] eqn:Hf; [|done].
  apply find_some in Hf as [Hin Hid]. apply bool_decide_eq_true in Hid.
  exfalso. apply Hn. apply list_elem_of_fmap. exists f. split; [done|].
  by apply list_elem_of_In.
Qed.

(** X5.  For an id that no stored record carries, [update_flow],
    [delete_flow], [start_flow] and [test_flow] raise status 404
    "Flux introuvable" and leave the whole state as it was: nothing is
    asked of the operating system, written or logged. *)
Theorem unknown_id_is_404 (E : Env) (flow_id : string) (w : World) :
  flow_id ∉ ids_of (store w) →
  (∀ payload, update_flow E flow_id payload w = (Raise not_found, w))
  ∧ delete_flow E flow_id w = (Raise not_found, w)
  ∧ start_flow E flow_id w = (Raise not_found, w)
  ∧ test_flow E flow_id w = (Raise not_found, w).
Proof.
  intros Hn. pose proof (store_get_unknown _ _ Hn) as Hget.
  repeat split.
  - intros payload. unfold update_flow. by rewrite (bind_Raise _ _ _ _ _ Hget).
  - unfold delete_flow. apply bind_Raise. rewrite store_delete_eq.
    by rewrite bool_decide_eq_false_2.
  - unfold start_flow. by rewrite (bind_Raise _ _ _ _ _ Hget).
  - unfold test_flow. by rewrite (bind_Raise _ _ _ _ _ Hget).
Qed.

Lemma unknown_id_is_404_witness :
  start_flow Env_ok "f-reader" (World_of [echo_stored])
  = (Raise not_found, World_of [echo_stored]).
Proof.
  refine (proj1 (proj2 (proj2
    (unknown_id_is_404 Env_ok "f-reader" (World_of [echo_stored]) _)))).
  vm_compute. intros H. inversion H as [|? ? ? H']; subst. inversion H'.
Defined.

Lemma length_upsert_list flow flows :
  length (upsert_list flow flows)
  = if bool_decide (id flow ∈ ids_of flows) then length flows
    else S (length flows).
Proof.
  pose proof (ids_of_upsert_list flow flows) as H.
  apply (f_equal length) in H. unfold ids_of in H.
  rewrite length_fmap in H. rewrite H. unfold ids_of.
  destruct (bool_decide (id flow ∈ id <$> flows)).
  - by rewrite length_fmap.
  - rewrite length_app, length_fmap. simpl. lia.
Qed.

(** X6.  A [create_flow] that returns has stored its record under the
    requested id, or under a fresh uuid when the request has no id or an
    empty one; [created_at] and [updated_at] are the same reading of the
    clock, [previous] is empty and the response has no logs.  A following
    [get] of that id answers with the record.  When the id was stored
    already, the old record is overwritten in place and the store holds as
    many records as before; otherwise it holds one more. *)
Theorem create_flow_record (E : Env) (flow : FlowCreate) (w w' : World)
    (resp : FlowResponse) :
  create_flow E flow w = (Ok resp, w') →
  let new := resp_flow resp in
  id new = (if truthy (fc_id flow) then default "" (fc_id flow) else uuid4 E (tick w))
  ∧ created_at new = updated_at new
  ∧ created_at new
    = time_time E (if truthy (fc_id flow) then tick w else S (tick w))
  ∧ previous new = PreviousConfig_default
  ∧ resp_logs resp = []
  ∧ store_get (id new) w' = (Ok new, w')
  ∧ ids_of (store w')
    = (if bool_decide (id new ∈ ids_of (store w)) then ids_of (store w)
       else ids_of (store w) ++ [id new])%list
  ∧ length (store w')
    = if bool_decide (id new ∈ ids_of (store w)) then length (store w)
      else S (length (store w)).
Proof.
  intros H new. unfold create_flow in H.
  destruct (truthy (fc_id flow)) eqn:Hi;
    unfold bind, ask, ret, raise, store_upsert, logger_info, modify, _state, gets in H;
    simpl in H;
    destruct (bool_decide (source_type (fc_base flow) = EP_OPENAPI)
              && negb (bool_decide (target_type (fc_base flow) = EP_STREAMABLE_HTTP)));
    try discriminate;
    injection H as <- <-;
    (split; [first [done|simpl; destruct (fc_id flow); [apply str_or_Some_empty|done]]|]);
    (split; [done|]); (split; [done|]); (split; [done|]); (split; [done|]);
    (split; [rewrite store_get_find;
             match goal with |- context [List.find ?f ?l] =>
               replace (List.find f l) with (Some new);
               [done|symmetry; exact (find_upsert_list _ _)] end|]);
    (split; [exact (ids_of_upsert_list _ _)|exact (length_upsert_list _ _)]).
Qed.

Lemma create_flow_record_witness :
  ∃ resp w',
    create_flow Env_ok echo_create (World_of [upstream_a]) = (Ok resp, w')
    ∧ id (resp_flow resp) = "flow-0"
    ∧ length (store w') = 2%nat.
Proof.
  eexists _, _. split; [vm_compute; reflexivity|].
  destruct (create_flow_record Env_ok echo_create (World_of [upstream_a]) _ _ eq_refl)
    as (Hid & _ & _ & _ & _ & _ & _ & Hlen).
  split; [exact Hid|exact Hlen].
Defined.

Lemma NoDup_without_id flow_id flows :
  NoDup (ids_of flows) → NoDup (ids_of (without_id flow_id flows)).
Proof.
  intros Hnd. rewrite ids_of_without_id.
  apply NoDup_ListNoDup, List.NoDup_filter, NoDup_ListNoDup, Hnd.
Qed.

Section store_frame.
Context (E : Env).

Lemma stop_openapi_helper_store fid : steps (same store) (_stop_openapi_helper E fid).
Proof. open_manager. steps_walk same_leaf. Qed.

Lemma start_store flow : steps (same store) (start E flow).
Proof.
  unfold start, store_list, _state.
  steps_walk ltac:(first [apply start_with_dependencies_store | same_leaf]).
Qed.

Lemma stop_store fid : steps (same store) (stop E fid).
Proof.
  unfold stop, _state.
  steps_walk ltac:(first [ apply restart_port_store | apply terminate_port_store
                         | apply stop_openapi_helper_store | same_leaf ]).
Qed.

Lemma manager_test_store flow : steps (same store) (manager_test E flow).
Proof.
  unfold manager_test, _build_command. open_manager. steps_walk same_leaf.
Qed.

Lemma create_flow_unique flow : steps (keeps store_unique) (create_flow E flow).
Proof.
  unfold create_flow, store_upsert, logger_info, _state.
  steps_walk ltac:(intros; unfold keeps, store_unique; simpl;
                   first [done | apply NoDup_upsert_list]).
Qed.

Lemma update_flow_unique i payload :
  steps (keeps store_unique) (update_flow E i payload).
Proof.
  unfold update_flow, store_get, store_list, store_upsert, logger_info, _state,
    manager_logs.
  steps_walk ltac:(intros; unfold keeps, store_unique; simpl;
                   first [done | apply NoDup_upsert_list]).
Qed.

Lemma delete_flow_store i w :
  store (delete_flow E i w).2 = store (store_delete i w).2.
Proof.
  unfold delete_flow. unfold bind at 1.
  destruct (store_delete i w) as [[[]|e] w1]; [|done]. simpl.
  match goal with |- store (?m w1).2 = _ =>
    assert (steps (same store) m) as Hs; [|apply Hs] end.
  unfold logger_info.
  steps_walk ltac:(first [ apply restart_port_store | apply terminate_port_store
                         | apply stop_openapi_helper_store | same_leaf ]).
Qed.
End store_frame.

(** X7.  Only [create_flow], [update_flow] and [delete_flow] write the
    store: [start_flow], [stop_flow] and [test_flow] leave it as it is,
    however they end.  The three writers never make two records share an
    id: a store without a repeated id stays one. *)
Theorem handlers_and_the_store (E : Env) (w : World) :
  (∀ flow_id, store (start_flow E flow_id w).2 = store w)
  ∧ (∀ flow_id, store (stop_flow E flow_id w).2 = store w)
  ∧ (∀ flow_id, store (test_flow E flow_id w).2 = store w)
  ∧ (store_unique w →
       (∀ flow, store_unique (create_flow E flow w).2)
       ∧ (∀ flow_id payload, store_unique (update_flow E flow_id payload w).2)
       ∧ (∀ flow_id, store_unique (delete_flow E flow_id w).2)).
Proof.
  split; [|split; [|split]].
  - intros i. unfold start_flow, bind. rewrite store_get_find.
    destruct (List.find _ _) as [f|]; [|done]. apply start_store.
  - intros i. apply stop_store.
  - intros i. unfold test_flow, bind. rewrite store_get_find.
    destruct (List.find _ _) as [f|]; [|done]. apply manager_test_store.
  - intros Hu. split; [|split].
    + intros flow. by apply create_flow_unique.
    + intros i payload. by apply update_flow_unique.
    + intros i. unfold store_unique. rewrite delete_flow_store, store_delete_eq.
      case_bool_decide; [|done]. simpl. by apply NoDup_without_id.
Qed.

Lemma handlers_and_the_store_witness :
  store_unique (create_flow Env_ok echo_create (World_of [upstream_a])).2.
Proof.
  destruct (handlers_and_the_store Env_ok (World_of [upstream_a])) as (_ & _ & _ & H).
  destruct H as (H & _).
  - unfold store_unique. vm_compute. repeat constructor. by intros ?%elem_of_nil.
  - apply H.
Defined.

(** ** Helpers and children *)

Section more_pydict_facts.
Context {K V : Type} `{EqDecision K}.
Implicit Types (d : list (K * V)).

Lemma dict_get_del_ne k k' d : k ≠ k' → dict_get k' (dict_del k d) = dict_get k' d.
Proof.
  intros Hne. unfold dict_del. induction d as [|[k0 v0] d IH]; [done|].
  rewrite filter_cons. simpl. destruct (decide (k0 ≠ k)) as [Hk|Hk]; simpl.
  - by rewrite IH.
  - apply dec_stable in Hk. subst k0. by rewrite decide_False.
Qed.

Lemma dict_del_absent k d : dict_get k d = None → dict_del k d = d.
Proof.
  unfold dict_del. induction d as [|[k0 v0] d IH]; [done|]. simpl.
  destruct (decide (k0 = k)) as [->|Hk]; [done|]. intros Hd.
  rewrite filter_cons. simpl. rewrite decide_True by done. by rewrite IH.
Qed.

Lemma elem_of_dict_del_ne k k' v' d : (k', v') ∈ dict_del k d → k' ≠ k.
Proof. unfold dict_del. rewrite list_elem_of_filter. naive_solver. Qed.

Lemma dict_get_elem_of k v d : dict_get k d = Some v → (k, v) ∈ d.
Proof.
  induction d as [|[k0 v0] d IH]; [done|]. simpl.
  destruct (decide (k0 = k)) as [->|Hk].
  - intros [= ->]. by left.
  - intros Hd. right. by apply IH.
Qed.

Lemma dict_keys_set k v d :
  (dict_set k v d).*1 = if dict_mem k d then d.*1 else (d.*1 ++ [k])%list.
Proof.
  unfold dict_mem. induction d as [|[k0 v0] d IH]; [done|].
  cbn [dict_set dict_get].
  destruct (decide (k0 = k)) as [->|Hk]; rewrite !fmap_cons; cbn [fst]; [done|].
  rewrite IH. by destruct (dict_get k d).
Qed.

Lemma dict_get_None_keys k d : dict_get k d = None → k ∉ d.*1.
Proof.
  induction d as [|[k0 v0] d IH]; simpl.
  - intros _ ?%elem_of_nil. done.
  - destruct (decide (k0 = k)) as [->|Hk]; [done|].
    intros Hd [?|?]%elem_of_cons; [congruence|]. by apply IH.
Qed.

Lemma NoDup_dict_set k v d : NoDup d.*1 → NoDup (dict_set k v d).*1.
Proof.
  intros Hnd. rewrite dict_keys_set. unfold dict_mem.
  destruct (dict_get k d) eqn:Hd; [done|].
  apply NoDup_app. split; [done|]. split; [|apply NoDup_singleton].
  intros x Hx ->%list_elem_of_singleton. by apply dict_get_None_keys in Hd.
Qed.

Lemma NoDup_dict_del k d : NoDup d.*1 → NoDup (dict_del k d).*1.
Proof.
  unfold dict_del. induction d as [|[k0 v0] d IH]; [done|].
  rewrite filter_cons. simpl. intros [Hn Hnd]%NoDup_cons.
  destruct (decide (k0 ≠ k)); simpl; [|by apply IH].
  apply NoDup_cons. split; [|by apply IH].
  intros ((k1 & v1) & -> & Hin%list_elem_of_filter)%list_elem_of_fmap.
  apply Hn. apply list_elem_of_fmap. exists (k1, v1). naive_solver.
Qed.

Lemma elem_of_dict_get k v d : NoDup d.*1 → (k, v) ∈ d → dict_get k d = Some v.
Proof.
  induction d as [|[k0 v0] d IH]; simpl.
  - by intros _ ?%elem_of_nil.
  - intros [Hn Hnd]%NoDup_cons [[= -> ->]|Hin]%elem_of_cons.
    + by rewrite decide_True.
    + rewrite decide_False; [by apply IH|]. intros ->. apply Hn.
      apply list_elem_of_fmap. by exists (k, v).
Qed.
End more_pydict_facts.

Lemma set_tick_id w : set_tick (tick w) w = w.
Proof. by destruct w. Qed.


Section helpers.
Context (E : Env).

Lemma stop_openapi_helper_eq fid w :
  _stop_openapi_helper E fid w =
    match helper_of w fid with
    | None => (Ok tt, w)
    | Some info =>
        (Ok tt,
         set_openapi_helpers (dict_del fid (openapi_helpers w))
           (set_log (log w ++ [{| levelname := INFO;
                                  msg := "Stopped OpenAPI helper for flow=%s (pid=%s)";
                                  log_args := [fid; pretty (pid (process info))] |}])
              (if _is_running info then set_tick (S (tick w)) w else w)))
    end.
Proof.
  unfold _stop_openapi_helper, helper_of, bind, gets, ask, ret, logger_info, modify.
  destruct (dict_get fid (openapi_helpers w)) as [info|]; [|done].
  by destruct (_is_running info).
Qed.

Lemma stop_openapi_helper_helpers fid w :
  openapi_helpers (_stop_openapi_helper E fid w).2 = dict_del fid (openapi_helpers w).
Proof.
  rewrite stop_openapi_helper_eq. unfold helper_of.
  destruct (dict_get fid (openapi_helpers w)) eqn:Hd; simpl; [done|].
  by rewrite dict_del_absent.
Qed.

Lemma stop_openapi_helper_processes fid :
  steps (same processes) (_stop_openapi_helper E fid).
Proof. open_manager. steps_walk same_leaf. Qed.

Lemma stop_openapi_helper_active_ports fid :
  steps (same active_ports) (_stop_openapi_helper E fid).
Proof. open_manager. steps_walk same_leaf. Qed.


Lemma stop_openapi_helper_returns fid w :
  (_stop_openapi_helper E fid w).1 = Ok tt.
Proof. rewrite stop_openapi_helper_eq. by destruct (helper_of w fid). Qed.

End helpers.



Section children.
Context (E : Env).


End children.



Section ensure.
Context (E : Env).

Lemma ensure_openapi_helper_eq flow w :
  truthy (openapi_base_url (base flow)) = true →
  truthy (openapi_spec_url (base flow)) = true →
  _ensure_openapi_helper E flow w =
    let fresh (w0 : World) :=
      let port_ := free_port E (tick w0) in
      let cmd := ["npx"; "-y"; "@ivotoby/openapi-mcp-server";
                  "--api-base-url"; str_or (openapi_base_url (base flow)) "";
                  "--openapi-spec"; str_or (openapi_spec_url (base flow)) "";
                  "--transport"; "http"; "--port"; pretty port_] in
      match create_subprocess_exec E (S (tick w0)) cmd with
      | None => (Raise npx_missing, set_tick (S (S (tick w0))) w0)
      | Some pid_ =>
          let info := {| label := "openapi-" +:+ id flow;
                         flow_ids := {[ id flow ]};
                         process := {| pid := pid_; returncode := None |};
                         started_at := time_time E (S (S (tick w0)));
                         pi_command := cmd;
                         port := Some port_; mode := "openapi-helper";
                         logs := []; last_event := None; exit_code := None |} in
          let w1 := set_tick (S (S (S (S (tick w0)))))
                      (set_log (log w0 ++ [{| levelname := INFO;
                                 msg := "Started OpenAPI helper for flow=%s on port=%s";
                                 log_args := [id flow; pretty port_] |}])
                         (set_openapi_helpers
                            (dict_set (id flow) info (openapi_helpers w0)) w0)) in
          (if port_opens E (S (S (S (tick w0)))) port_
           then Ok (helper_url port_) else Raise helper_timeout, w1)
      end in
    match helper_of w (id flow) with
    | Some existing =>
        if _is_running existing then
          match port existing with
          | Some p =>
              if port_opens E (tick w) p
              then (Ok (helper_url p), set_tick (S (tick w)) w)
              else fresh (set_tick (S (tick w)) w)
          | None => fresh w
          end
        else fresh w
    | None => fresh w
    end.
Proof.
  intros Hb Hs. unfold _ensure_openapi_helper, helper_of. rewrite Hb, Hs. simpl.
  unfold bind at 1, gets. unfold bind at 1.
  assert (∀ w0 : World,
    (let* port_ := _find_free_port E in
     let cmd := ["npx"; "-y"; "@ivotoby/openapi-mcp-server";
                 "--api-base-url"; str_or (openapi_base_url (base flow)) "";
                 "--openapi-spec"; str_or (openapi_spec_url (base flow)) "";
                 "--transport"; "http"; "--port"; pretty port_] in
     let* spawned := ask (λ t, create_subprocess_exec E t cmd) in
     match spawned with
     | None => raise npx_missing
     | Some pid_ =>
         let* now := ask (time_time E) in
         let info := {| label := "openapi-" +:+ id flow;
                        flow_ids := {[ id flow ]};
                        process := {| pid := pid_; returncode := None |};
                        started_at := now; pi_command := cmd;
                        port := Some port_; mode := "openapi-helper";
                        logs := []; last_event := None; exit_code := None |} in
         modify (λ w, set_openapi_helpers
                        (dict_set (id flow) info (openapi_helpers w)) w);;
         logger_info "Started OpenAPI helper for flow=%s on port=%s"
           [id flow; pretty port_];;
         let* ready := _wait_port E port_ in
         if ready then ret (helper_url port_)
         else raise helper_timeout
     end) w0
    = let port_ := free_port E (tick w0) in
      let cmd := ["npx"; "-y"; "@ivotoby/openapi-mcp-server";
                  "--api-base-url"; str_or (openapi_base_url (base flow)) "";
                  "--openapi-spec"; str_or (openapi_spec_url (base flow)) "";
                  "--transport"; "http"; "--port"; pretty port_] in
      match create_subprocess_exec E (S (tick w0)) cmd with
      | None => (Raise npx_missing, set_tick (S (S (tick w0))) w0)
      | Some pid_ =>
          let info := {| label := "openapi-" +:+ id flow;
                         flow_ids := {[ id flow ]};
                         process := {| pid := pid_; returncode := None |};
                         started_at := time_time E (S (S (tick w0)));
                         pi_command := cmd;
                         port := Some port_; mode := "openapi-helper";
                         logs := []; last_event := None; exit_code := None |} in
          let w1 := set_tick (S (S (S (S (tick w0)))))
                      (set_log (log w0 ++ [{| levelname := INFO;
                                 msg := "Started OpenAPI helper for flow=%s on port=%s";
                                 log_args := [id flow; pretty port_] |}])
                         (set_openapi_helpers
                            (dict_set (id flow) info (openapi_helpers w0)) w0)) in
          (if port_opens E (S (S (S (tick w0)))) port_
           then Ok (helper_url port_) else Raise helper_timeout, w1)
      end) as Hfresh.
  { intros w0. unfold bind, _find_free_port, _wait_port, ask, ret, raise,
      logger_info, modify. simpl.
    destruct (create_subprocess_exec E (S (tick w0)) _); [|done]. simpl.
    by destruct (port_opens E _ _). }
  cbv zeta in Hfresh |- *.
  destruct (dict_get (id flow) (openapi_helpers w)) as [existing|];
    [|unfold ret at 1; apply Hfresh].
  destruct (_is_running existing); [|unfold ret at 1; apply Hfresh].
  destruct (port existing) as [p|]; [|unfold ret at 1; apply Hfresh].
  unfold bind at 1, _wait_port. unfold ask at 1. unfold ret at 1.
  destruct (port_opens E (tick w) p); [done|].
  exact (Hfresh (set_tick (S (tick w)) w)).
Qed.
End ensure.



(** X11.  [_ensure_openapi_helper] raises nothing but three errors of
    status 400.  Without both URLs it raises at once and nothing has
    happened.  When [npx] is not installed the call has registered no
    helper and logged nothing.  The third error is raised only after the
    call has spawned a helper, logged its start and probed its port without
    an answer. *)
Theorem ensure_openapi_helper_errors (E : Env) (flow : Flow) (w w' : World)
    (e : exn) :
  _ensure_openapi_helper E flow w = (Raise e, w') →
  (e = helper_urls_missing ∧ w' = w
   ∧ (truthy (openapi_base_url (base flow)) = false
      ∨ truthy (openapi_spec_url (base flow)) = false))
  ∨ (e = npx_missing
     ∧ openapi_helpers w' = openapi_helpers w ∧ log w' = log w)
  ∨ (e = helper_timeout
     ∧ ∃ p t,
         port_opens E t p = false
         ∧ (tick w ≤ t < tick w')%nat
         ∧ log w' = (log w ++ [{| levelname := INFO;
                        msg := "Started OpenAPI helper for flow=%s on port=%s";
                        log_args := [id flow; pretty p] |}])%list).
Proof.
  intros H.
  destruct (truthy (openapi_base_url (base flow))) eqn:Hb.
  2: { left. unfold _ensure_openapi_helper in H. rewrite Hb in H.
       injection H as <- <-. auto. }
  destruct (truthy (openapi_spec_url (base flow))) eqn:Hs.
  2: { left. unfold _ensure_openapi_helper in H. rewrite Hb, Hs in H.
       injection H as <- <-. auto. }
  right. rewrite ensure_openapi_helper_eq in H by done. cbv zeta in H.
  assert (∀ w0, openapi_helpers w0 = openapi_helpers w → log w0 = log w →
    (tick w ≤ tick w0)%nat →
    match create_subprocess_exec E (S (tick w0))
            ["npx"; "-y"; "@ivotoby/openapi-mcp-server";
             "--api-base-url"; str_or (openapi_base_url (base flow)) "";
             "--openapi-spec"; str_or (openapi_spec_url (base flow)) "";
             "--transport"; "http"; "--port"; pretty (free_port E (tick w0))] with
    | None => (Raise npx_missing, set_tick (S (S (tick w0))) w0)
    | Some pid_ =>
        (if port_opens E (S (S (S (tick w0)))) (free_port E (tick w0))
         then Ok (helper_url (free_port E (tick w0))) else Raise helper_timeout,
         set_tick (S (S (S (S (tick w0)))))
           (set_log (log w0 ++ [{| levelname := INFO;
                      msg := "Started OpenAPI helper for flow=%s on port=%s";
                      log_args := [id flow; pretty (free_port E (tick w0))] |}])
              (set_openapi_helpers
                 (dict_set (id flow)
                    {| label := "openapi-" +:+ id flow;
                       flow_ids := {[ id flow ]};
                       process := {| pid := pid_; returncode := None |};
                       started_at := time_time E (S (S (tick w0)));
                       pi_command :=
                         ["npx"; "-y"; "@ivotoby/openapi-mcp-server";
                          "--api-base-url"; str_or (openapi_base_url (base flow)) "";
                          "--openapi-spec"; str_or (openapi_spec_url (base flow)) "";
                          "--transport"; "http"; "--port";
                          pretty (free_port E (tick w0))];
                       port := Some (free_port E (tick w0));
                       mode := "openapi-helper";
                       logs := []; last_event := None; exit_code := None |}
                    (openapi_helpers w0)) w0)))
    end = (Raise e, w') →
    (e = npx_missing ∧ openapi_helpers w' = openapi_helpers w ∧ log w' = log w)
    ∨ (e = helper_timeout
       ∧ ∃ p t,
           port_opens E t p = false
           ∧ (tick w ≤ t < tick w')%nat
           ∧ log w' = (log w ++ [{| levelname := INFO;
                          msg := "Started OpenAPI helper for flow=%s on port=%s";
                          log_args := [id flow; pretty p] |}])%list)) as Hfresh.
  { intros w0 Hh Hl Ht H0. destruct (create_subprocess_exec E _ _) as [pid_|].
    - destruct (port_opens E _ _) eqn:Ho; [done|]. injection H0 as <- <-. right.
      split; [done|]. exists (free_port E (tick w0)), (S (S (S (tick w0)))).
      split; [done|]. split; [simpl; lia|]. simpl. by rewrite Hl.
    - injection H0 as <- <-. left. done. }
  destruct (helper_of w (id flow)) as [existing|]; [|by eapply Hfresh].
  destruct (_is_running existing); [|by eapply Hfresh].
  destruct (port existing) as [p|]; [|by eapply Hfresh].
  destruct (port_opens E (tick w) p); [done|].
  eapply Hfresh; [| | |exact H]; [done|done|simpl; lia].
Qed.

Lemma ensure_openapi_helper_errors_witness :
  openapi_helpers
    (_ensure_openapi_helper Env_no_binary petstore_stored (World_of [petstore_stored])).2
  = [].
Proof.
  destruct (ensure_openapi_helper_errors Env_no_binary petstore_stored
              (World_of [petstore_stored])
              (_ensure_openapi_helper Env_no_binary petstore_stored
                 (World_of [petstore_stored])).2
              npx_missing)
    as [(He & _)|[(_ & Hh & _)|(He & _)]];
    [vm_compute; reflexivity|discriminate He|exact Hh|discriminate He].
Defined.

(** ** The supervisor's bookkeeping *)

Lemma supervisor_ok_ext w w' :
  processes w' = processes w → active_ports w' = active_ports w →
  supervisor_ok w → supervisor_ok w'.
Proof.
  intros Hp Ha [Hd Hs]. split.
  - unfold ports_dict. by rewrite Ha.
  - intros p info. unfold members. rewrite Hp, Ha. apply Hs.
Qed.

Lemma filter_no_member (flows : list Flow) :
  List.filter (λ f, bool_decide (id f ∈ (∅ : gset string))) flows = [].
Proof.
  induction flows as [|f flows IH]; [done|]. cbn [List.filter].
  rewrite bool_decide_eq_false_2; [done|]. set_solver.
Qed.

Lemma flows_on_nonempty ids flows : flows_on ids flows ≠ [] → ids ≠ ∅.
Proof.
  intros Hne ->. apply Hne. unfold flows_on. by rewrite filter_no_member.
Qed.

Section supervisor.
Context (E : Env).

(** What a restart leaves of the two dictionaries: the member sets are
    untouched; the port has lost its record, or it has a new one for a
    running child started with the members of the port. *)
Lemma restart_port_children p w :
  active_ports (_restart_port E p w).2 = active_ports w
  ∧ (processes (_restart_port E p w).2 = dict_del p (processes w)
     ∨ ∃ info,
         processes (_restart_port E p w).2 = dict_set p info (dict_del p (processes w))
         ∧ flow_ids info = members w p
         ∧ members w p ≠ ∅
         ∧ _is_running info = true
         ∧ (_restart_port E p w).1 = Ok tt).
Proof.
  split; [apply restart_port_active_ports|].
  destruct (_restart_port E p w) as [r w'] eqn:H. simpl.
  unfold _restart_port in H.
  destruct (terminate_port_result E p w) as (w1 & Ht & Hp).
  pose proof (terminate_port_active_ports E p w) as Ha. rewrite Ht in Ha.
  unfold same in Ha. simpl in Ha.
  rewrite (bind_Ok _ _ _ _ _ Ht) in H.
  unfold bind at 1, gets in H. unfold bind at 1, store_list, gets in H.
  destruct (flows_on _ _) as [|f fs] eqn:Hfl.
  { left. unfold logger_info, modify in H. injection H as <- <-. done. }
  assert (members w p ≠ ∅) as Hne.
  { unfold members. rewrite <- Ha. eapply flows_on_nonempty. by rewrite Hfl. }
  pose proof (build_port_config_processes E p
                (default ∅ (dict_get p (active_ports w1))) (f :: fs) w1) as Hs.
  unfold same in Hs.
  destruct (build_port_config E p (default ∅ (dict_get p (active_ports w1)))
              (f :: fs) w1) as [[built|e] w2] eqn:Hb; simpl in Hs.
  2: { left. rewrite (bind_Raise _ _ _ _ _ Hb) in H. injection H as <- <-.
       congruence. }
  rewrite (bind_Ok _ _ _ _ _ Hb), spawn_gateway_eq in H.
  destruct (create_subprocess_exec E (tick w2) built.1) as [pid_|].
  - right. cbv zeta in H. injection H as <- <-. eexists. simpl.
    rewrite Hs, Hp. split; [reflexivity|]. simpl. unfold members. by rewrite Ha.
  - left. injection H as <- <-. simpl. congruence.
Qed.

Lemma restart_port_ok p w :
  ports_dict w → (∀ q, q ≠ p → serving_at w q) →
  supervisor_ok (_restart_port E p w).2.
Proof.
  intros Hd Hs. destruct (restart_port_children p w) as [Ha Hp]. split.
  { unfold ports_dict. by rewrite Ha. }
  assert (∀ q, members (_restart_port E p w).2 q = members w q) as Hm.
  { intros q. unfold members. by rewrite Ha. }
  intros q info Hin. rewrite !Hm.
  destruct Hp as [Hp|(new & Hp & Hf & Hne & _)]; rewrite Hp in Hin.
  - pose proof (elem_of_dict_del_ne _ _ _ _ Hin) as Hq.
    apply elem_of_dict_del in Hin. by apply (Hs q Hq).
  - apply elem_of_dict_set in Hin as [[= -> ->]|Hin]; [done|].
    pose proof (elem_of_dict_del_ne _ _ _ _ Hin) as Hq.
    apply elem_of_dict_del in Hin. by apply (Hs q Hq).
Qed.

Lemma terminate_port_ok p w :
  ports_dict w → (∀ q, q ≠ p → serving_at w q) →
  supervisor_ok (_terminate_port E p w).2.
Proof.
  intros Hd Hs. destruct (terminate_port_result E p w) as (w1 & Ht & Hp).
  pose proof (terminate_port_active_ports E p w) as Ha. rewrite Ht in Ha |- *.
  unfold same in Ha. simpl in Ha |- *. split.
  { unfold ports_dict. by rewrite Ha. }
  intros q info Hin. unfold members. rewrite Ha. rewrite Hp in Hin.
  pose proof (elem_of_dict_del_ne _ _ _ _ Hin) as Hq.
  apply elem_of_dict_del in Hin. by apply (Hs q Hq).
Qed.

(** Replacing the member set of one port leaves the bookkeeping of the
    others right. *)
Lemma set_members_ok p ids w :
  supervisor_ok w →
  let w1 := set_active_ports (dict_set p ids (active_ports w)) w in
  ports_dict w1 ∧ ∀ q, q ≠ p → serving_at w1 q.
Proof.
  intros [Hd Hs] w1. split.
  - unfold ports_dict, w1. simpl. by apply NoDup_dict_set.
  - intros q Hq info Hin. unfold members, w1. simpl.
    rewrite dict_get_set_ne by done. by apply Hs.
Qed.

Lemma stop_openapi_helper_ok fid w :
  supervisor_ok w → supervisor_ok (_stop_openapi_helper E fid w).2.
Proof.
  apply supervisor_ok_ext;
    [apply stop_openapi_helper_processes|apply stop_openapi_helper_active_ports].
Qed.

Lemma activate_flow_ok flow : steps (keeps supervisor_ok) (_activate_flow E flow).
Proof.
  intros w Hok. destruct (decide (id flow ∈ members w (port_of flow))).
  - by rewrite activate_flow_attached.
  - rewrite activate_flow_new by done.
    destruct (set_members_ok (port_of flow)
                ({[ id flow ]} ∪ members w (port_of flow)) w Hok) as [Hd Hs].
    by apply restart_port_ok.
Qed.

Lemma start_with_dependencies_ok fuel : ∀ flow visited,
  steps (keeps supervisor_ok) (_start_with_dependencies E fuel flow visited).
Proof.
  induction fuel as [|fuel IH]; intros flow visited; simpl.
  - case_bool_decide; [apply steps_ret|apply steps_raise]; apply _.
  - case_bool_decide; [apply steps_ret; apply _|].
    apply steps_bind; [apply _| |].
    + intros w. by rewrite resolve_dependency_state.
    + intros [d|]; (apply steps_bind; [apply _| |intros; apply activate_flow_ok]).
      * apply IH.
      * apply steps_ret; apply _.
Qed.

Lemma start_ok flow : steps (keeps supervisor_ok) (start E flow).
Proof.
  unfold start, store_list, _state.
  steps_walk ltac:(first [ apply start_with_dependencies_ok
                         | intros; unfold keeps; intros H; exact H ]).
Qed.

Lemma stop_eq flow_id w :
  stop E flow_id w =
    match port_listing w flow_id with
    | None => (Raise already_stopped, w)
    | Some (p, _) =>
        let ids := members w p ∖ {[ flow_id ]} in
        ((if bool_decide (ids = ∅) then _terminate_port E p else _restart_port E p);;
         _stop_openapi_helper E flow_id;;
         _state flow_id)
          (set_active_ports (dict_set p ids (active_ports w)) w)
    end.
Proof.
  unfold stop, port_listing. unfold bind at 1, gets.
  destruct (List.find _ _) as [[p ids0]|]; [|done].
  unfold bind at 1, modify. done.
Qed.

Lemma stop_ok flow_id : steps (keeps supervisor_ok) (stop E flow_id).
Proof.
  intros w Hok. rewrite stop_eq.
  destruct (port_listing w flow_id) as [[p ids0]|]; [|done]. cbv zeta.
  destruct (set_members_ok p (members w p ∖ {[ flow_id ]}) w Hok) as [Hd Hs].
  cbv zeta in Hd, Hs.
  set (w1 := set_active_ports _ w) in *.
  assert (supervisor_ok
            ((if bool_decide (members w p ∖ {[ flow_id ]} = ∅)
              then _terminate_port E p else _restart_port E p) w1).2) as H1.
  { case_bool_decide; [by apply terminate_port_ok|by apply restart_port_ok]. }
  set (m := if bool_decide (members w p ∖ {[ flow_id ]} = ∅)
            then _terminate_port E p else _restart_port E p) in *.
  unfold bind at 1. destruct (m w1) as [[[]|e] w2]; [|done].
  simpl in H1. unfold bind at 1.
  pose proof (stop_openapi_helper_ok flow_id w2 H1) as H2.
  destruct (_stop_openapi_helper E flow_id w2) as [[[]|e] w3]; [|done].
  simpl in H2. destruct (state_eq flow_id w3) as [st ->]. done.
Qed.

Lemma delete_flow_ok flow_id : steps (keeps supervisor_ok) (delete_flow E flow_id).
Proof.
  intros w Hok. unfold delete_flow. unfold bind at 1.
  rewrite store_delete_eq. case_bool_decide; [|done].
  set (w0 := set_store _ w).
  assert (supervisor_ok w0) as Hok0 by (by eapply supervisor_ok_ext; [| |exact Hok]).
  clearbody w0. clear Hok. unfold bind at 1, gets.
  match goal with |- context [bind ?m _ w0] =>
    assert (supervisor_ok (m w0).2) as H1;
    [|destruct (m w0) as [[[]|e] w1] eqn:Hm;
      [rewrite (bind_Ok _ _ _ _ _ Hm)|by rewrite (bind_Raise _ _ _ _ _ Hm)]]
  end.
  { destruct (List.find _ _) as [[p ids]|]; [|done]. cbv zeta.
    unfold bind at 1, modify.
    destruct (set_members_ok p (ids ∖ {[ flow_id ]}) w0 Hok0) as [Hd Hs].
    case_bool_decide; [by apply terminate_port_ok|by apply restart_port_ok]. }
  simpl in H1. unfold bind at 1.
  pose proof (stop_openapi_helper_ok flow_id w1 H1) as H2.
  destruct (_stop_openapi_helper E flow_id w1) as [[[]|e] w2]; [|done].
  simpl in H2. unfold bind, modify, logger_info, ret. simpl.
  by eapply supervisor_ok_ext; [| |exact H2].
Qed.

Lemma create_flow_children flow :
  steps (same (λ w, (processes w, active_ports w))) (create_flow E flow).
Proof.
  unfold create_flow, store_upsert, logger_info, _state. steps_walk same_leaf.
Qed.

Lemma update_flow_children flow_id payload :
  steps (same (λ w, (processes w, active_ports w))) (update_flow E flow_id payload).
Proof.
  unfold update_flow, store_get, store_list, store_upsert, logger_info, _state,
    manager_logs.
  steps_walk same_leaf.
Qed.

Lemma manager_test_children flow :
  steps (same (λ w, (processes w, active_ports w))) (manager_test E flow).
Proof.
  unfold manager_test, _build_command. open_manager. steps_walk same_leaf.
Qed.

Lemma test_flow_children flow_id :
  steps (same (λ w, (processes w, active_ports w))) (test_flow E flow_id).
Proof.
  unfold test_flow, store_get, store_list.
  steps_walk ltac:(first [apply manager_test_children | same_leaf]).
Qed.

Lemma pipe_logs_children info lines rc :
  steps (same (λ w, (processes w, active_ports w))) (_pipe_logs E info lines rc).
Proof.
  unfold _pipe_logs, pump_line. open_manager. steps_walk same_leaf.
Qed.

Lemma same_children_ok {A} (m : M A) :
  steps (same (λ w, (processes w, active_ports w))) m →
  steps (keeps supervisor_ok) m.
Proof.
  intros Hs w. specialize (Hs w). unfold same in Hs. injection Hs as Hp Ha.
  intros Hok. by apply (supervisor_ok_ext w).
Qed.
End supervisor.

Lemma supervisor_ok_init : supervisor_ok World_init.
Proof.
  split; [apply NoDup_nil_2|]. intros p info Hin. by apply elem_of_nil in Hin.
Qed.

(** X12.  The bookkeeping of the supervisor is right in every state the
    service reaches: [active_ports] lists no port twice, and the child
    recorded for a port was started for exactly the members the port has
    now, of which there is at least one.  This holds at the beginning and
    is kept by every handler that reaches the manager (create, update,
    delete, start, stop, test) and by the log pump, however they end. *)
Theorem supervisor_bookkeeping (E : Env) :
  supervisor_ok World_init
  ∧ ∀ w, supervisor_ok w →
      (∀ flow, supervisor_ok (create_flow E flow w).2)
      ∧ (∀ flow_id payload, supervisor_ok (update_flow E flow_id payload w).2)
      ∧ (∀ flow_id, supervisor_ok (delete_flow E flow_id w).2)
      ∧ (∀ flow_id, supervisor_ok (start_flow E flow_id w).2)
      ∧ (∀ flow_id, supervisor_ok (stop_flow E flow_id w).2)
      ∧ (∀ flow_id, supervisor_ok (test_flow E flow_id w).2)
      ∧ (∀ info lines rc, supervisor_ok (_pipe_logs E info lines rc w).2).
Proof.
  split; [apply supervisor_ok_init|]. intros w Hok.
  split; [|split; [|split; [|split; [|split; [|split]]]]].
  - intros flow. exact (same_children_ok _ (create_flow_children E flow) w Hok).
  - intros i payload.
    exact (same_children_ok _ (update_flow_children E i payload) w Hok).
  - intros i. by apply delete_flow_ok.
  - intros i. unfold start_flow, bind. rewrite store_get_find.
    destruct (List.find _ _) as [f|]; [|done]. by apply start_ok.
  - intros i. by apply stop_ok.
  - intros i. exact (same_children_ok _ (test_flow_children E i) w Hok).
  - intros info lines rc.
    exact (same_children_ok _ (pipe_logs_children E info lines rc) w Hok).
Qed.

Lemma supervisor_bookkeeping_witness :
  supervisor_ok (start_flow Env_ok "f-echo" (World_of [echo_stored])).2.
Proof.
  destruct (supervisor_bookkeeping Env_ok) as [Hinit Hkept].
  destruct (Hkept (World_of [echo_stored])) as (_ & _ & _ & H & _).
  - by apply (supervisor_ok_ext World_init).
  - apply H.
Defined.

(** ** Stopping, deleting and starting *)

Section more_monad_facts.
Context {A B C : Type}.


Lemma bind_modify f (k : unit → M B) w : bind (modify f) k w = k tt (f w).
Proof. done. Qed.

Lemma bind_gets (f : World → A) (k : A → M B) w : bind (gets f) k w = k (f w) w.
Proof. done. Qed.
End more_monad_facts.

Lemma find_none_listing w flow_id :
  port_listing w flow_id = None ↔ ∀ q s, (q, s) ∈ active_ports w → flow_id ∉ s.
Proof.
  unfold port_listing. split.
  - intros Hnone q s Hin Hmem.
    apply list_elem_of_In in Hin.
    pose proof (find_none _ _ Hnone (q, s) Hin) as Hf.
    by apply bool_decide_eq_false in Hf.
  - intros Hall. destruct (List.find _ _) as [[q s]|] eqn:Hf; [|done].
    apply find_some in Hf as [Hin Hmem]. apply bool_decide_eq_true in Hmem.
    exfalso. eapply Hall; [by apply list_elem_of_In|done].
Qed.

Lemma port_listing_member w flow_id p ids :
  ports_dict w → port_listing w flow_id = Some (p, ids) →
  members w p = ids ∧ flow_id ∈ ids.
Proof.
  intros Hd Hf. apply find_some in Hf as [Hin Hmem].
  apply bool_decide_eq_true in Hmem. split; [|done].
  unfold members. rewrite (elem_of_dict_get p ids); [done|exact Hd|].
  by apply list_elem_of_In.
Qed.

Lemma state_not_running flow_id w :
  (∀ p info, (p, info) ∈ processes w → flow_id ∉ flow_ids info) →
  _state flow_id w = (Ok not_running, w).
Proof.
  intros Hno. unfold _state, bind, gets, ret.
  destruct (List.find _ _) as [[p info]|] eqn:Hf; [|done].
  apply find_some in Hf as [Hin Hb]. apply andb_true_iff in Hb as [Hb _].
  apply bool_decide_eq_true in Hb. exfalso. eapply Hno; [|exact Hb].
  by apply list_elem_of_In.
Qed.

Section stopping.
Context (E : Env).

Lemma after_detach_active_ports flow_id (m : M unit) :
  steps (same active_ports) m →
  steps (same active_ports) (m;; _stop_openapi_helper E flow_id;; _state flow_id).
Proof.
  intros Hm. unfold _state.
  steps_walk ltac:(first [ apply Hm | apply stop_openapi_helper_active_ports
                         | same_leaf ]).
Qed.

Lemma after_detach_store flow_id (m : M unit) :
  steps (same store) m →
  steps (same store) (m;; _stop_openapi_helper E flow_id;; _state flow_id).
Proof.
  intros Hm. unfold _state.
  steps_walk ltac:(first [ apply Hm | apply stop_openapi_helper_store
                         | same_leaf ]).
Qed.

Lemma terminate_or_restart_active_ports (b : bool) p :
  steps (same active_ports) (if b then _terminate_port E p else _restart_port E p).
Proof.
  destruct b; [apply terminate_port_active_ports|apply restart_port_active_ports].
Qed.

Lemma terminate_or_restart_store (b : bool) p :
  steps (same store) (if b then _terminate_port E p else _restart_port E p).
Proof. destruct b; [apply terminate_port_store|apply restart_port_store]. Qed.

Lemma stop_active_ports flow_id w :
  active_ports (stop E flow_id w).2 =
    match port_listing w flow_id with
    | Some (p, _) => dict_set p (members w p ∖ {[ flow_id ]}) (active_ports w)
    | None => active_ports w
    end.
Proof.
  rewrite stop_eq. destruct (port_listing w flow_id) as [[p ids]|]; [|done].
  cbv zeta.
  by rewrite (after_detach_active_ports flow_id _
                (terminate_or_restart_active_ports _ p)).
Qed.

End stopping.

Lemma stop_ports_dict (E : Env) flow_id w :
  ports_dict w → ports_dict (stop E flow_id w).2.
Proof.
  intros Hd. unfold ports_dict. rewrite stop_active_ports.
  destruct (port_listing w flow_id) as [[p ids]|]; [|done].
  by apply NoDup_dict_set.
Qed.

Lemma stop_unlists (E : Env) flow_id w :
  ports_dict w → attached_once w flow_id →
  ∀ q, flow_id ∉ members (stop E flow_id w).2 q.
Proof.
  intros Hd Honce q. unfold members at 1. rewrite stop_active_ports.
  destruct (port_listing w flow_id) as [[p ids]|] eqn:Hl.
  - destruct (port_listing_member _ _ _ _ Hd Hl) as [Hm Hin].
    destruct (decide (q = p)) as [->|Hq].
    + rewrite dict_get_set. simpl. set_solver.
    + rewrite dict_get_set_ne by done. fold (members w q).
      intros Hq'. apply Hq. apply (Honce q p); [done|]. by rewrite Hm.
  - fold (members w q). intros Hq. unfold members in Hq.
    destruct (dict_get q (active_ports w)) as [s|] eqn:Hg; [|set_solver].
    apply dict_get_elem_of in Hg.
    pose proof (proj1 (find_none_listing w flow_id) Hl) as Hall.
    by apply (Hall q s Hg).
Qed.

(** X13.  [stop] of a flow that no port lists raises status 400
    "Flux déjà arrêté" and changes nothing, whether the flow is stored or
    not.  And after any [stop] of a flow that one port at most lists, no
    port lists it, however that [stop] ended, so a second [stop] is
    rejected in this way. *)
Theorem stop_rejects_unattached (E : Env) (flow_id : string) (w : World) :
  (port_listing w flow_id = None →
   stop E flow_id w = (Raise already_stopped, w))
  ∧ (ports_dict w → attached_once w flow_id →
     let w' := (stop E flow_id w).2 in
     (∀ p, flow_id ∉ members w' p)
     ∧ stop E flow_id w' = (Raise already_stopped, w')).
Proof.
  split.
  { intros Hnone. by rewrite stop_eq, Hnone. }
  intros Hd Honce w'.
  pose proof (stop_ports_dict E flow_id w Hd) as Hd'.
  pose proof (stop_unlists E flow_id w Hd Honce) as Hout.
  split; [done|].
  rewrite stop_eq.
  assert (port_listing w' flow_id = None) as ->; [|done].
  apply find_none_listing. intros q s Hin Hmem.
  apply (Hout q). unfold members.
  by rewrite (elem_of_dict_get q s).
Qed.

Lemma stop_rejects_unattached_witness :
  stop Env_ok "f-echo" (stop Env_ok "f-echo" echo_running).2
  = (Raise already_stopped, (stop Env_ok "f-echo" echo_running).2).
Proof.
  refine (proj2 (proj2 (stop_rejects_unattached Env_ok "f-echo" echo_running) _ _)).
  - repeat constructor. by intros ?%elem_of_nil.
  - intros p q. unfold members, echo_running. simpl.
    destruct (decide (8002 = p)) as [<-|], (decide (8002 = q)) as [<-|];
      simpl; set_solver.
Defined.

(** X14.  A [stop] that finds the flow listed by port [p] takes it out of
    the members of [p] and leaves the members of every other port and the
    store as they were, also when the restart of the port fails. *)
Theorem stop_detaches (E : Env) (flow_id : string) (w : World) (p : Z)
    (ids : gset string) :
  port_listing w flow_id = Some (p, ids) →
  let w' := (stop E flow_id w).2 in
  members w' p = members w p ∖ {[ flow_id ]}
  ∧ (∀ q, q ≠ p → members w' q = members w q)
  ∧ store w' = store w.
Proof.
  intros Hl w'. unfold w', members at 1 3. rewrite stop_active_ports, Hl.
  split; [by rewrite dict_get_set|].
  split; [intros q Hq; by rewrite dict_get_set_ne|].
  apply stop_store.
Qed.

Lemma stop_detaches_witness :
  members (stop Env_no_binary "f-echo" echo_running).2 8002
  = members echo_running 8002 ∖ {[ "f-echo" ]}.
Proof.
  apply (stop_detaches Env_no_binary "f-echo" echo_running 8002 {[ "f-echo" ]}).
  reflexivity.
Defined.





(** ** Deleting *)

Section deleting.
Context (E : Env).




End deleting.



(** ** Starting *)

Section starting.
Context (E : Env).

Lemma start_with_dependencies_member fuel flow visited w w1 :
  _start_with_dependencies E fuel flow visited w = (Ok tt, w1) →
  id flow ∉ visited →
  id flow ∈ members w1 (port_of flow).
Proof.
  intros H Hv. destruct fuel as [|fuel]; simpl in H;
    rewrite bool_decide_eq_false_2 in H by done; [done|].
  apply bind_inv_Ok in H as (d & wa & _ & H).
  apply bind_inv_Ok in H as (u & wb & _ & H).
  pose proof (activate_flow_member E flow wb) as Hm. by rewrite H in Hm.
Qed.

Lemma start_with_dependencies_S fuel flow visited w :
  _start_with_dependencies E (S fuel) flow visited w =
    if bool_decide (id flow ∈ visited) then (Ok tt, w)
    else match _resolve_dependency E flow w with
         | (Ok (Some d), wa) =>
             match _start_with_dependencies E fuel d ({[ id flow ]} ∪ visited) wa with
             | (Ok _, wb) => _activate_flow E flow wb
             | (Raise e, wb) => (Raise e, wb)
             end
         | (Ok None, wa) => _activate_flow E flow wa
         | (Raise e, wa) => (Raise e, wa)
         end.
Proof.
  cbn [_start_with_dependencies]. case_bool_decide; [done|].
  unfold bind at 1. destruct (_resolve_dependency E flow w) as [[[d|]|e] wa]; try done.
Qed.

(** A larger budget changes nothing once the budget is not the reason
    for an error. *)
Lemma start_with_dependencies_more fuel : ∀ flow visited w,
  (_start_with_dependencies E fuel flow visited w).1 ≠ Raise OutOfFuel →
  _start_with_dependencies E (S fuel) flow visited w
  = _start_with_dependencies E fuel flow visited w.
Proof.
  induction fuel as [|fuel IH]; intros flow visited w Hne.
  - rewrite start_with_dependencies_S. cbn [_start_with_dependencies] in *.
    case_bool_decide; [done|]. by unfold raise in Hne.
  - rewrite (start_with_dependencies_S (S fuel)).
    rewrite (start_with_dependencies_S fuel) in Hne |- *.
    case_bool_decide; [done|].
    destruct (_resolve_dependency E flow w) as [[[d|]|e] wa]; try done.
    rewrite IH; [done|].
    by destruct (_start_with_dependencies E fuel d _ wa) as [[[]|e] wb].
Qed.

Lemma start_with_dependencies_budget n : ∀ fuel flow visited w,
  (_start_with_dependencies E fuel flow visited w).1 ≠ Raise OutOfFuel →
  _start_with_dependencies E (n + fuel) flow visited w
  = _start_with_dependencies E fuel flow visited w.
Proof.
  induction n as [|n IH]; intros fuel flow visited w Hne; [done|].
  change (S n + fuel)%nat with (S (n + fuel)).
  rewrite start_with_dependencies_more; [by apply IH|]. by rewrite IH.
Qed.

Lemma start_with_dependencies_enough flow w :
  (_start_with_dependencies E (S (length (store w))) flow ∅ w).1 ≠ Raise OutOfFuel.
Proof.
  pose proof (start_fuel E flow w) as H. unfold start in H.
  rewrite (bind_Ok _ _ _ (store w) w) in H by done.
  unfold bind in H.
  destruct (_start_with_dependencies E (S (length (store w))) flow ∅ w)
    as [[[]|e] w1]; [done|]. simpl in *. intros [= ->]. done.
Qed.

Lemma elem_of_dict_get_is_Some {K V} `{EqDecision K} (k : K) (v : V) d :
  (k, v) ∈ d → is_Some (dict_get k d).
Proof.
  induction d as [|[k0 v0] d IH]; [by intros ?%elem_of_nil|]. simpl.
  destruct (decide (k0 = k)); [by eexists|].
  intros [[= -> ->]|Hin]%elem_of_cons; [done|]. by apply IH.
Qed.
End starting.

(** X18.  When [start] returns, the flow is a member of its port, and so
    is the upstream flow its source URL resolves to; no port has lost a
    member, the store is untouched, and the answer is what [_state]
    reports for the flow in the state reached. *)
Theorem start_attaches (E : Env) (flow : Flow) (w w1 : World) (st : json) :
  start E flow w = (Ok st, w1) →
  id flow ∈ members w1 (port_of flow)
  ∧ (∀ d, _resolve_dependency E flow w = (Ok (Some d), w) → id d ≠ id flow →
       id d ∈ members w1 (port_of d))
  ∧ (∀ p, members w p ⊆ members w1 p)
  ∧ store w1 = store w
  ∧ _state (id flow) w1 = (Ok st, w1).
Proof.
  intros H. unfold start in H.
  rewrite (bind_Ok _ _ _ (store w) w) in H by done.
  apply bind_inv_Ok in H as ([] & wa & Hswd & Hst).
  assert (wa = w1) as -> by (unfold _state, bind, gets, ret in Hst; congruence).
  split; [by eapply start_with_dependencies_member; [exact Hswd|set_solver]|].
  split.
  { intros d Hres Hne. simpl in Hswd.
    rewrite bool_decide_eq_false_2 in Hswd by set_solver.
    rewrite (bind_Ok _ _ _ _ _ Hres) in Hswd.
    apply bind_inv_Ok in Hswd as ([] & wb & Hchild & Hact).
    pose proof (activate_flow_attaches E flow wb (port_of d)) as Hatt.
    rewrite Hact in Hatt. apply Hatt.
    eapply start_with_dependencies_member; [exact Hchild|set_solver]. }
  split.
  { pose proof (start_with_dependencies_attaches E (S (length (store w))) flow ∅ w) as Hatt.
    by rewrite Hswd in Hatt. }
  split; [|done].
  pose proof (start_with_dependencies_store E (S (length (store w))) flow ∅ w) as Hs.
  by rewrite Hswd in Hs.
Qed.

Lemma start_attaches_witness :
  "f-echo" ∈ members (start Env_ok echo_reader (World_of [echo_stored; echo_reader])).2
               8002.
Proof.
  destruct (start Env_ok echo_reader (World_of [echo_stored; echo_reader]))
    as [[st|e] w1] eqn:H; [|exfalso; vm_compute in H; discriminate H].
  destruct (start_attaches Env_ok echo_reader _ _ _ H) as (_ & Hd & _).
  apply (Hd echo_stored); [reflexivity|discriminate].
Defined.

(** X19.  The recursion of [start] over upstream flows ends for every
    store, also when flows name each other as upstream in a cycle: the
    [visited] set lets every flow be entered once, so a recursion depth of
    one more than the number of stored flows is never exceeded, and any
    larger bound gives the same result and the same state. *)
Theorem start_recursion_ends (E : Env) (flow : Flow) (w : World) :
  (start E flow w).1 ≠ Raise OutOfFuel
  ∧ ∀ n, _start_with_dependencies E (n + S (length (store w))) flow ∅ w
         = _start_with_dependencies E (S (length (store w))) flow ∅ w.
Proof.
  split; [apply start_fuel|]. intros n.
  apply start_with_dependencies_budget, start_with_dependencies_enough.
Qed.

(** Two flows that name each other as upstream: the start of one attaches
    both to port 8002 and returns a running state. *)
Example start_ping_pong :
  let r := start Env_ok ping (World_of [ping; pong]) in
  jget "running" (default JNull (match r.1 with Ok st => Some st | _ => None end))
  = Some (JBool true)
  ∧ bool_decide ("f-ping" ∈ members r.2 8002) = true
  ∧ bool_decide ("f-pong" ∈ members r.2 8002) = true.
Proof. vm_compute. done. Qed.

(** X20.  A start that failed is not retried by starting again.  When the
    [start] of a flow without upstream raises, the flow has joined the
    members of its port and the port has no recorded child; a second
    [start] finds the flow attached, restarts nothing, changes nothing and
    returns what [_state] reports.  With the supervisor's bookkeeping
    right and the flow listed by no other port, that answer is
    [{"running": false}]. *)
Theorem start_after_failed_start (E : Env) (flow : Flow) (w w' : World) (e : exn) :
  start E flow w = (Raise e, w') →
  _resolve_dependency E flow w = (Ok None, w) →
  id flow ∈ members w' (port_of flow)
  ∧ child_of w' (port_of flow) = None
  ∧ start E flow w' = _state (id flow) w'
  ∧ (supervisor_ok w → (∀ q, q ≠ port_of flow → id flow ∉ members w q) →
     start E flow w' = (Ok not_running, w')).
Proof.
  intros H Hdep.
  pose proof (start_ok E flow w) as Hkeep. rewrite H in Hkeep. simpl in Hkeep.
  apply start_no_dependency_raise in H; [|done].
  destruct (activate_flow_raise E _ _ _ _ H) as (Hn & _ & Hm & Hq & Hp & Hst).
  assert (id flow ∈ members w' (port_of flow)) as Hin by (rewrite Hm; set_solver).
  assert (_resolve_dependency E flow w' = (Ok None, w')) as Hdep'.
  { pose proof (resolve_dependency_state E flow w') as Hs.
    pose proof (resolve_dependency_store E flow w' w Hst) as Hr.
    rewrite Hdep in Hr. destruct (_resolve_dependency E flow w') as [r ws].
    simpl in *. by subst. }
  assert (start E flow w' = _state (id flow) w') as Hagain.
  { rewrite start_no_dependency by done.
    by rewrite (bind_Ok _ _ _ _ _ (activate_flow_attached E flow w' Hin)). }
  split; [done|]. split; [done|]. split; [done|].
  intros Hok Hother. rewrite Hagain. apply state_not_running.
  intros q info Hel Hmem.
  destruct (proj2 (Hkeep Hok) q info Hel) as [Hf _].
  destruct (decide (q = port_of flow)) as [->|Hne].
  - apply elem_of_dict_get_is_Some in Hel as [v Hv]. congruence.
  - apply (Hother q Hne). by rewrite <- (Hq q Hne), <- Hf.
Qed.

Lemma start_after_failed_start_witness :
  let w' := (start Env_no_binary echo_stored (World_of [echo_stored])).2 in
  start Env_no_binary echo_stored w' = (Ok not_running, w').
Proof.
  intros w'.
  destruct (start_after_failed_start Env_no_binary echo_stored
              (World_of [echo_stored]) w'
              (HTTPException 400 "binaire introuvable : mcp-proxy"))
    as (_ & _ & _ & H); [vm_compute; reflexivity|reflexivity|].
  apply H.
  - by apply (supervisor_ok_ext World_init); [| |apply supervisor_ok_init].
  - intros q _. unfold members. simpl. set_solver.
Defined.

(** ** Failed starts, with upstream flows *)

Section failed_chain.
Context (E : Env).

(** A start that is rejected with an HTTP error was rejected by the
    activation of a flow of the chain: the flow itself, or a stored flow
    reached through the upstream links, the flows activated before it
    being attached by then. *)
Lemma start_with_dependencies_failing fuel : ∀ flow visited w c d w',
  _start_with_dependencies E fuel flow visited w = (Raise (HTTPException c d), w') →
  ∃ g w0,
    (g = flow ∨ g ∈ store w)
    ∧ (_resolve_dependency E flow w = (Ok None, w) → g = flow ∧ w0 = w)
    ∧ store w0 = store w
    ∧ attaches w w0
    ∧ _activate_flow E g w0 = (Raise (HTTPException c d), w').
Proof.
  induction fuel as [|fuel IH]; intros flow visited w c d w' H.
  { cbn [_start_with_dependencies] in H. case_bool_decide; by unfold raise in H. }
  rewrite start_with_dependencies_S in H. case_bool_decide; [done|].
  pose proof (resolve_dependency_state E flow w) as Hw.
  destruct (_resolve_dependency E flow w) as [[[d0|]|e] wa] eqn:Hres;
    simpl in Hw; subst wa.
  - destruct (_start_with_dependencies E fuel d0 _ w) as [[[]|e] wb] eqn:Hchild.
    + exists flow, wb. split; [by left|]. split; [intros; congruence|].
      pose proof (start_with_dependencies_store E fuel d0
                    ({[ id flow ]} ∪ visited) w) as Hs.
      pose proof (start_with_dependencies_attaches E fuel d0
                    ({[ id flow ]} ∪ visited) w) as Ha.
      rewrite Hchild in Hs, Ha. done.
    + injection H as -> ->.
      destruct (IH _ _ _ _ _ _ Hchild) as (g & w0 & Hg & _ & Hs & Ha & Hact).
      exists g, w0. split.
      { right. destruct Hg as [->|Hg]; [|done].
        by eapply resolve_dependency_stored. }
      split; [intros; congruence|done].
  - exists flow, w. split; [by left|]. split; [done|]. split; [done|].
    split; [by intros p|done].
  - injection H as -> _.
    by pose proof (resolve_dependency_raises E flow _ _ _ Hres).
Qed.

Lemma start_failing flow w c d w' :
  start E flow w = (Raise (HTTPException c d), w') →
  ∃ g w0,
    (g = flow ∨ g ∈ store w)
    ∧ (_resolve_dependency E flow w = (Ok None, w) → g = flow ∧ w0 = w)
    ∧ store w0 = store w
    ∧ attaches w w0
    ∧ _activate_flow E g w0 = (Raise (HTTPException c d), w').
Proof.
  unfold start. rewrite (bind_Ok _ _ _ (store w) w) by done. intros H.
  apply bind_inv in H as [(e & H & [= <-])|(a & w1 & _ & H)].
  - by eapply start_with_dependencies_failing.
  - unfold _state, bind, gets, ret in H. done.
Qed.

(** What the rejected activation of the chain leaves. *)
Lemma start_failing_attached flow w c d w' :
  start E flow w = (Raise (HTTPException c d), w') →
  ∃ g w0,
    (g = flow ∨ g ∈ store w)
    ∧ (_resolve_dependency E flow w = (Ok None, w) → g = flow ∧ w0 = w)
    ∧ store w0 = store w
    ∧ (∀ p, members w p ⊆ members w0 p)
    ∧ _activate_flow E g w0 = (Raise (HTTPException c d), w')
    ∧ (id g ∉ members w0 (port_of g))
    ∧ members w' (port_of g) = {[ id g ]} ∪ members w0 (port_of g)
    ∧ (∀ q, q ≠ port_of g → members w' q = members w0 q)
    ∧ dict_get (port_of g) (processes w') = None
    ∧ (∀ p, members w p ⊆ members w' p)
    ∧ members w' (port_of g) ≠ members w (port_of g).
Proof.
  intros H. destruct (start_failing _ _ _ _ _ H) as (g & w0 & Hg & Hdep & Hs & Ha & Hact).
  destruct (activate_flow_raise E _ _ _ _ Hact) as (Hn & _ & Hm & Hq & Hp & _).
  exists g, w0. do 8 (split; [done|]). split; [done|]. split.
  - intros p. specialize (Ha p). destruct (decide (p = port_of g)) as [->|Hne].
    + rewrite Hm. set_solver.
    + by rewrite (Hq p Hne).
  - intros Heq. apply Hn. apply (Ha (port_of g)). rewrite <- Heq, Hm. set_solver.
Qed.
End failed_chain.

(** C4 (amended).  When the spawn that ends a port restart finds no binary,
    the restart raises status 400 "binaire introuvable" and records
    nothing.  An activation rejected in this way did restart the port: the
    flow was not a member of its port before, it is one afterwards (the
    member set is the one before plus the flow), the members of the other
    ports are unchanged, and the port has no recorded child.  A start
    rejected in this way was rejected by the activation of a flow of its
    chain, the started flow or a stored upstream flow: that flow has joined
    its port as said, the flows activated before it stay attached, so no
    port has lost a member and the member set of the restarted port is not
    the one before the start.  For a start without upstream the flow is
    the started one, and the other ports have the members they had. *)
Theorem missing_binary_leaves_flow_attached (E : Env) :
  (∀ p ids cmd proxy_type w,
     create_subprocess_exec E (tick w) cmd = None →
     spawn_gateway E p ids cmd proxy_type w
     = (Raise (HTTPException 400 ("binaire introuvable : " +:+ List.hd "" cmd)),
        set_tick (S (tick w)) w))
  ∧ (∀ flow w b w',
       _activate_flow E flow w
       = (Raise (HTTPException 400 ("binaire introuvable : " +:+ b)), w') →
       (id flow ∉ members w (port_of flow))
       ∧ members w' (port_of flow) = {[ id flow ]} ∪ members w (port_of flow)
       ∧ (∀ q, q ≠ port_of flow → members w' q = members w q)
       ∧ dict_get (port_of flow) (processes w') = None)
  ∧ (∀ flow w b w',
       start E flow w
       = (Raise (HTTPException 400 ("binaire introuvable : " +:+ b)), w') →
       ∃ g w0,
         (g = flow ∨ g ∈ store w)
         ∧ (_resolve_dependency E flow w = (Ok None, w) → g = flow ∧ w0 = w)
         ∧ store w0 = store w
         ∧ (∀ p, members w p ⊆ members w0 p)
         ∧ _activate_flow E g w0
           = (Raise (HTTPException 400 ("binaire introuvable : " +:+ b)), w')
         ∧ (id g ∉ members w0 (port_of g))
         ∧ members w' (port_of g) = {[ id g ]} ∪ members w0 (port_of g)
         ∧ (∀ q, q ≠ port_of g → members w' q = members w0 q)
         ∧ dict_get (port_of g) (processes w') = None
         ∧ (∀ p, members w p ⊆ members w' p)
         ∧ members w' (port_of g) ≠ members w (port_of g))
  ∧ (∀ flow w b w',
       _resolve_dependency E flow w = (Ok None, w) →
       start E flow w
       = (Raise (HTTPException 400 ("binaire introuvable : " +:+ b)), w') →
       members w' (port_of flow) = {[ id flow ]} ∪ members w (port_of flow)
       ∧ members w' (port_of flow) ≠ members w (port_of flow)
       ∧ (∀ q, q ≠ port_of flow → members w' q = members w q)
       ∧ dict_get (port_of flow) (processes w') = None).
Proof.
  split; [|split; [|split]].
  - intros p ids cmd proxy_type w Hnone. by rewrite spawn_gateway_eq, Hnone.
  - intros flow w b w' H.
    destruct (activate_flow_raise E _ _ _ _ H) as (? & _ & ? & ? & ? & _). done.
  - intros flow w b w' H. by apply start_failing_attached.
  - intros flow w b w' Hdep H.
    destruct (start_failing_attached E _ _ _ _ _ H)
      as (g & w0 & _ & Hg & _ & _ & _ & _ & Hm & Hq & Hp & _ & Hne).
    destruct (Hg Hdep) as [-> ->]. done.
Qed.

Lemma missing_binary_leaves_flow_attached_witness :
  members (start Env_no_binary echo_stored (World_of [echo_stored])).2 8002
  = {[ "f-echo" ]} ∪ members (World_of [echo_stored]) 8002.
Proof.
  destruct (missing_binary_leaves_flow_attached Env_no_binary) as (_ & _ & _ & H).
  destruct (H echo_stored (World_of [echo_stored]) "mcp-proxy"
              (start Env_no_binary echo_stored (World_of [echo_stored])).2)
    as (Hm & _); [reflexivity|vm_compute; reflexivity|].
  exact Hm.
Defined.

(** The start of the echo flow without an installed proxy is rejected with
    status 400, and the flow has joined the members of port 8002. *)
Lemma missing_binary_changes_members :
  let w := World_of [echo_stored] in
  let r := start Env_no_binary echo_stored w in
  r.1 = Raise (HTTPException 400 "binaire introuvable : mcp-proxy")
  ∧ members w 8002 = ∅
  ∧ members r.2 8002 = {[ "f-echo" ]}
  ∧ members r.2 8002 ≠ members w 8002.
Proof.
  assert (members (World_of [echo_stored]) 8002 = ∅) as H0 by reflexivity.
  assert (members (start Env_no_binary echo_stored (World_of [echo_stored])).2 8002
          = {[ "f-echo" ]}) as H1 by (vm_compute; reflexivity).
  split; [vm_compute; reflexivity|]. split; [done|]. split; [done|].
  rewrite H0, H1. set_solver.
Qed.

(** A start whose own restart fails after its upstream was started: the
    upstream has joined port 8002 and has a recorded child there, the
    started flow has joined port 8003, which has no recorded child. *)
Example failed_start_keeps_upstream :
  let w := World_of [echo_stored; openapi_reader] in
  let r := start Env_no_uvx openapi_reader w in
  r.1 = Raise (HTTPException 400 "binaire introuvable : uvx")
  ∧ bool_decide ("f-echo" ∈ members r.2 8002) = true
  ∧ dict_mem 8002 (processes r.2) = true
  ∧ bool_decide ("f-reader" ∈ members r.2 8003) = true
  ∧ dict_mem 8003 (processes r.2) = false.
Proof. vm_compute. done. Qed.

(** C5 (amended).  When an OpenAPI helper is spawned and its port does not
    open in time, [_ensure_openapi_helper] raises status 400.  An
    activation rejected with this error leaves the flow a member of its
    port, logs no warning and records no child for the port.  A start
    rejected with it was rejected by the activation of a flow of its chain,
    the started flow or a stored upstream flow: that flow stays a member of
    its port, its activation has logged no warning, its port has no
    recorded child, and no port has lost a member.  For a start without
    upstream the flow is the started one and the whole start has logged no
    warning. *)
Theorem helper_timeout_leaves_flow_attached (E : Env) :
  (∀ flow w,
     truthy (openapi_base_url (base flow)) = true →
     truthy (openapi_spec_url (base flow)) = true →
     (∀ t cmd, is_Some (create_subprocess_exec E t cmd)) →
     (∀ t p, port_opens E t p = false) →
     ∃ w', _ensure_openapi_helper E flow w = (Raise helper_timeout, w'))
  ∧ (∀ flow w w',
       _activate_flow E flow w = (Raise helper_timeout, w') →
       (id flow ∉ members w (port_of flow))
       ∧ id flow ∈ members w' (port_of flow)
       ∧ warnings (log w') = warnings (log w)
       ∧ dict_get (port_of flow) (processes w') = None)
  ∧ (∀ flow w w',
       start E flow w = (Raise helper_timeout, w') →
       ∃ g w0,
         (g = flow ∨ g ∈ store w)
         ∧ (_resolve_dependency E flow w = (Ok None, w) → g = flow ∧ w0 = w)
         ∧ store w0 = store w
         ∧ (∀ p, members w p ⊆ members w0 p)
         ∧ _activate_flow E g w0 = (Raise helper_timeout, w')
         ∧ (id g ∉ members w0 (port_of g))
         ∧ id g ∈ members w' (port_of g)
         ∧ warnings (log w') = warnings (log w0)
         ∧ dict_get (port_of g) (processes w') = None
         ∧ (∀ p, members w p ⊆ members w' p))
  ∧ (∀ flow w w',
       _resolve_dependency E flow w = (Ok None, w) →
       start E flow w = (Raise helper_timeout, w') →
       id flow ∈ members w' (port_of flow)
       ∧ warnings (log w') = warnings (log w)
       ∧ dict_get (port_of flow) (processes w') = None).
Proof.
  assert (∀ flow w w',
       _activate_flow E flow w = (Raise helper_timeout, w') →
       (id flow ∉ members w (port_of flow))
       ∧ id flow ∈ members w' (port_of flow)
       ∧ warnings (log w') = warnings (log w)
       ∧ dict_get (port_of flow) (processes w') = None) as Hact.
  { intros flow w w' H.
    destruct (activate_flow_raise E _ _ _ _ H) as (Hn & Hr & Hm & _ & Hp & _).
    destruct (restart_port_timeout E _ _ _ Hr) as (Hw & _).
    split; [done|]. split; [rewrite Hm; set_solver|]. by split. }
  assert (∀ flow w w',
       start E flow w = (Raise helper_timeout, w') →
       ∃ g w0,
         (g = flow ∨ g ∈ store w)
         ∧ (_resolve_dependency E flow w = (Ok None, w) → g = flow ∧ w0 = w)
         ∧ store w0 = store w
         ∧ (∀ p, members w p ⊆ members w0 p)
         ∧ _activate_flow E g w0 = (Raise helper_timeout, w')
         ∧ (id g ∉ members w0 (port_of g))
         ∧ id g ∈ members w' (port_of g)
         ∧ warnings (log w') = warnings (log w0)
         ∧ dict_get (port_of g) (processes w') = None
         ∧ (∀ p, members w p ⊆ members w' p)) as Hstart.
  { intros flow w w' H.
    destruct (start_failing_attached E _ _ _ _ _ H)
      as (g & w0 & Hg & Hdep & Hs & Ha & Hraise & _ & _ & _ & _ & Hall & _).
    destruct (Hact _ _ _ Hraise) as (Hn & Hin & Hw & Hp).
    exists g, w0. done. }
  split; [|split; [|split]].
  - intros flow w. apply ensure_openapi_helper_no_port.
  - exact Hact.
  - exact Hstart.
  - intros flow w w' Hdep H.
    destruct (Hstart _ _ _ H) as (g & w0 & _ & Hg & _ & _ & _ & _ & Hin & Hw & Hp & _).
    destruct (Hg Hdep) as [-> ->]. done.
Qed.

Lemma helper_timeout_leaves_flow_attached_witness :
  "f-pets" ∈ members (start Env_no_port petstore_stored (World_of [petstore_stored])).2
               8001.
Proof.
  destruct (helper_timeout_leaves_flow_attached Env_no_port) as (_ & _ & _ & H).
  destruct (H petstore_stored (World_of [petstore_stored])
              (start Env_no_port petstore_stored (World_of [petstore_stored])).2)
    as (Hm & _); [reflexivity|vm_compute; reflexivity|].
  exact Hm.
Defined.

(** The start of an OpenAPI-source flow whose helper never opens its port
    is rejected with status 400; the flow stays a member of port 8001 and
    the log has no warning. *)
Lemma helper_timeout_keeps_member_no_warning :
  let w := World_of [petstore_stored] in
  let r := start Env_no_port petstore_stored w in
  r.1 = Raise helper_timeout
  ∧ "f-pets" ∈ members r.2 8001
  ∧ warnings (log r.2) = [].
Proof.
  assert (members (start Env_no_port petstore_stored (World_of [petstore_stored])).2 8001
          = {[ "f-pets" ]}) as H1 by (vm_compute; reflexivity).
  split; [vm_compute; reflexivity|]. split; [rewrite H1; set_solver|].
  vm_compute; reflexivity.
Qed.

(** ** Testing a flow *)

Section testing.
Context (E : Env).




End testing.



(** ** The log window *)

Lemma last_n_app_last_n {A} (n : nat) (a b : list A) :
  last_n n (last_n n a ++ b) = last_n n (a ++ b).
Proof.
  unfold last_n. rewrite <- drop_app_le by lia.
  rewrite drop_drop, length_drop, !length_app. f_equal. lia.
Qed.

Lemma last_n_short {A} (n : nat) (l : list A) : (length l ≤ n)%nat → last_n n l = l.
Proof. intros H. unfold last_n. by replace (length l - n)%nat with 0%nat by lia. Qed.

Lemma length_last_n {A} (n : nat) (l : list A) : (length (last_n n l) ≤ n)%nat.
Proof. unfold last_n. rewrite length_drop. lia. Qed.

Section pump.
Context (E : Env).

Lemma bind_ask {A B} (f : nat → A) (k : A → M B) w :
  bind (ask f) k w = k (f (tick w)) (set_tick (S (tick w)) w).
Proof. done. Qed.

Lemma pump_lines_logs lines : ∀ info w info' w',
  for_each (pump_line E) lines info w = (Ok info', w') →
  (length (logs info) ≤ 200)%nat →
  logs info' = last_n 200 (logs info ++ lines)
  ∧ process info' = process info ∧ started_at info' = started_at info
  ∧ pi_command info' = pi_command info ∧ port info' = port info
  ∧ mode info' = mode info ∧ exit_code info' = exit_code info.
Proof.
  induction lines as [|text rest IH]; intros info w info' w' H Hlen.
  - injection H as <- _. by rewrite app_nil_r, last_n_short.
  - cbn [for_each] in H. unfold pump_line at 1 in H.
    unfold bind at 1 2 3, ask, do_broadcast, modify, ret in H.
    apply IH in H; cbn [logs process started_at pi_command port mode exit_code] in *;
      [|apply length_last_n].
    destruct H as (-> & H). split; [|done].
    by rewrite last_n_app_last_n, <- app_assoc.
Qed.

Lemma pump_cleanup (info : ProcessInfo) (flows : list Flow) (fids : list string) : ∀ w,
  let r := for_each (λ fid (_ : unit),
               match List.find (λ fl, bool_decide (id fl = fid)) flows with
               | Some f => if bool_decide (source_type (base f) = EP_OPENAPI)
                           then _stop_openapi_helper E fid else ret tt
               | None => ret tt
               end) fids tt w in
  r.1 = Ok tt
  ∧ ∀ fid, helper_of r.2 fid =
      if bool_decide (fid ∈ fids)
         && match List.find (λ fl, bool_decide (id fl = fid)) flows with
            | Some f => bool_decide (source_type (base f) = EP_OPENAPI)
            | None => false
            end
      then None else helper_of w fid.
Proof.
  induction fids as [|x fids IH]; intros w r; [done|].
  unfold r. clear r. cbn [for_each].
  set (body := match List.find (λ fl, bool_decide (id fl = x)) flows with
               | Some f => if bool_decide (source_type (base f) = EP_OPENAPI)
                           then _stop_openapi_helper E x else ret tt
               | None => ret tt
               end).
  assert (∃ w1, body w = (Ok tt, w1)
            ∧ ∀ fid, helper_of w1 fid =
                if bool_decide (fid = x)
                   && match List.find (λ fl, bool_decide (id fl = x)) flows with
                      | Some f => bool_decide (source_type (base f) = EP_OPENAPI)
                      | None => false
                      end
                then None else helper_of w fid) as (w1 & Hb & Hh).
  { unfold body. destruct (List.find _ flows) as [f|].
    - case_bool_decide.
      + pose proof (stop_openapi_helper_returns E x w) as Hr.
        pose proof (stop_openapi_helper_helpers E x w) as Hd.
        destruct (_stop_openapi_helper E x w) as [r1 w1]. simpl in *. subst r1.
        exists w1. split; [done|]. intros fid. unfold helper_of. rewrite Hd.
        rewrite andb_true_r. case_bool_decide as Hx.
        * subst. by rewrite dict_get_del.
        * by rewrite dict_get_del_ne.
      + exists w. split; [done|]. intros fid. by rewrite andb_false_r.
    - exists w. split; [done|]. intros fid. by rewrite andb_false_r. }
  rewrite (bind_Ok _ _ _ _ _ Hb).
  destruct (IH w1) as [Hok Hrest]. split; [exact Hok|].
  intros fid. rewrite Hrest, Hh.
  destruct (decide (fid = x)) as [->|Hne].
  - rewrite (bool_decide_eq_true_2 (x = x)) by done.
    rewrite (bool_decide_eq_true_2 (x ∈ x :: fids)) by set_solver.
    cbn [andb]. destruct (bool_decide (x ∈ fids)); cbn [andb];
      by destruct (match List.find _ flows with Some _ => _ | None => false end).
  - rewrite (bool_decide_eq_false_2 (fid = x)) by done. cbn [andb].
    destruct (decide (fid ∈ fids)).
    + by rewrite !bool_decide_eq_true_2 by set_solver.
    + by rewrite !bool_decide_eq_false_2 by set_solver.
Qed.

Lemma pipe_logs_eq info lines rc w :
  ∃ info1 w1,
    for_each (pump_line E) lines info w = (Ok info1, w1)
    ∧ store w1 = store w ∧ openapi_helpers w1 = openapi_helpers w
    ∧ (_pipe_logs E info lines rc w).1
      = Ok {| label := label info1; flow_ids := flow_ids info1;
              process := {| pid := pid (process info1); returncode := rc |};
              started_at := started_at info1;
              pi_command := pi_command info1; port := port info1;
              mode := mode info1; logs := logs info1;
              last_event := last_event info1; exit_code := rc |}
    ∧ label info1 = label info ∧ flow_ids info1 = flow_ids info
    ∧ (∀ fid, helper_of (_pipe_logs E info lines rc w).2 fid =
         if pump_cleans info (store w) fid then None else helper_of w fid).
Proof.
  destruct (pump_lines E lines info w) as (info1 & w1 & Hrun & Hl & Hf & _).
  assert (store w1 = store w ∧ openapi_helpers w1 = openapi_helpers w) as [Hs Hh].
  { assert (steps (same (λ w, (store w, openapi_helpers w)))
              (for_each (pump_line E) lines info)) as Hsame.
    { unfold pump_line. open_manager. steps_walk same_leaf. }
    specialize (Hsame w). rewrite Hrun in Hsame. unfold same in Hsame.
    by injection Hsame. }
  destruct (_pipe_logs E info lines rc w) as [r w'] eqn:Hp. cbn [fst snd].
  unfold _pipe_logs in Hp. rewrite (bind_Ok _ _ _ _ _ Hrun) in Hp. cbv zeta in Hp.
  unfold logger_info, do_broadcast, store_list in Hp.
  rewrite bind_modify, bind_ask, bind_modify, bind_gets in Hp.
  match type of Hp with context [store (set_events ?a ?b)] =>
    change (store (set_events a b)) with (store w1) in Hp end.
  match type of Hp with bind (for_each ?b ?ids tt) ?k ?w0 = _ =>
    destruct (pump_cleanup info1 (store w1) ids w0) as [Hok Hclean];
    destruct (for_each b ids tt w0) as [r1 w2] eqn:Hloop
  end.
  cbn [fst snd] in Hok, Hclean. subst r1. rewrite (bind_Ok _ _ _ _ _ Hloop) in Hp.
  unfold ret in Hp. injection Hp as <- <-.
  exists info1, w1.
  split; [done|]. split; [done|]. split; [done|]. split; [done|].
  split; [done|]. split; [done|].
  intros fid. rewrite Hclean. unfold pump_cleans. cbn [flow_ids].
  rewrite Hf, Hs.
  assert (bool_decide (fid ∈ elements (flow_ids info)) = bool_decide (fid ∈ flow_ids info))
    as -> by (apply bool_decide_ext, elem_of_elements).
  match goal with |- context [helper_of ?W fid] =>
    change (helper_of W fid) with (dict_get fid (openapi_helpers w1)) end.
  unfold helper_of. by rewrite Hh.
Qed.
End pump.

(** X22.  The log pump always returns.  In the record it works on, which
    held at most 200 lines, it leaves the last 200 lines of what was
    recorded followed by what the child wrote; the [exit_code] is the
    return code seen when the stream closed, and label, served flows,
    command, port and start time are the ones it began with. *)
Theorem pipe_logs_window (E : Env) (info : ProcessInfo) (lines : list string)
    (rc : option Z) (w : World) :
  (length (logs info) ≤ 200)%nat →
  ∃ info',
    (_pipe_logs E info lines rc w).1 = Ok info'
    ∧ logs info' = last_n 200 (logs info ++ lines)
    ∧ (length (logs info') ≤ 200)%nat
    ∧ exit_code info' = rc
    ∧ label info' = label info ∧ flow_ids info' = flow_ids info
    ∧ pi_command info' = pi_command info ∧ port info' = port info
    ∧ started_at info' = started_at info.
Proof.
  intros Hlen.
  destruct (pipe_logs_eq E info lines rc w)
    as (info1 & w1 & Hrun & _ & _ & Hres & Hl & Hf & _).
  destruct (pump_lines_logs E lines info w info1 w1 Hrun Hlen)
    as (Hlogs & Hp & Hst & Hcmd & Hport & _).
  eexists. split; [exact Hres|]. cbn.
  rewrite Hlogs, Hst, Hcmd, Hport.
  repeat split; try done. apply length_last_n.
Qed.

Lemma pipe_logs_window_witness :
  ∃ info',
    (_pipe_logs Env_ok (gateway_info 8002 {[ "f-echo" ]} ["mcp-proxy"] "sse" 4000 0)
       ["ready"; "bye"] (Some 0) echo_running).1 = Ok info'
    ∧ logs info' = ["ready"; "bye"] ∧ exit_code info' = Some 0.
Proof.
  destruct (pipe_logs_window Env_ok
              (gateway_info 8002 {[ "f-echo" ]} ["mcp-proxy"] "sse" 4000 0)
              ["ready"; "bye"] (Some 0) echo_running)
    as (info' & H & Hlogs & _ & Hc & _); [simpl; lia|].
  exists info'. split; [exact H|]. split; [exact Hlogs|exact Hc].
Defined.

(** X23.  When the stream of a child closes, the pump unregisters the
    helper of every flow the child was started for whose stored record has
    an OpenAPI source, whether or not another child serves the flow by
    then; the helpers of all other flows stay as they were, and the store
    is not touched. *)
Theorem pipe_logs_cleanup (E : Env) (info : ProcessInfo) (lines : list string)
    (rc : option Z) (w : World) :
  let w' := (_pipe_logs E info lines rc w).2 in
  store w' = store w
  ∧ ∀ fid, helper_of w' fid =
      if pump_cleans info (store w) fid then None else helper_of w fid.
Proof.
  intros w'. split.
  - assert (steps (same store) (_pipe_logs E info lines rc)) as Hs.
    { unfold _pipe_logs, pump_line. open_manager. steps_walk same_leaf. }
    apply Hs.
  - destruct (pipe_logs_eq E info lines rc w) as (_ & _ & _ & _ & _ & _ & _ & _ & H).
    exact H.
Qed.
